(** * Remote execution session: protocol and lifecycle

    A shallow embedding of [src/sandbox/executor.py] (the [Sandbox] class,
    the resident interpreter loop [_PYTHON_SESSION_SCRIPT] and the one-off
    helpers) and of the sandbox registry and the tool handlers of
    [src/agents/base.py].

    The remote platform (Modal) is an interface, [Platform]: every call the
    code makes to it may return a value or raise, as the platform chooses.
    The methods of [Sandbox] are written in a state-and-exception monad over
    the platform's world and the object's fields; each call to the platform
    is recorded in a trace. *)

From Stdlib Require Import ZArith Ascii String List Lia Bool.
From stdpp Require Import base option list strings gmap pretty.

Import ListNotations.
Local Set Warnings "-register-all".
Local Open Scope string_scope.
Local Open Scope Z_scope.
Local Open Scope list_scope.

(** ** Text, bytes and JSON values *)

Abbreviation bytes := (list Byte.byte).

(** A Python [str] is modelled by its UTF-8 byte string. *)
Definition nl : string := String (ascii_of_nat 10) EmptyString.
Definition dq : string := String (ascii_of_nat 34) EmptyString.
Definition quoted (s : string) : string := dq +:+ s +:+ dq.

(** The characters of a text, each with the bytes of its UTF-8 encoding: a
    byte [10xxxxxx] continues the character before it. *)
Definition is_continuation (c : ascii) : bool :=
  let n := nat_of_ascii c in (128 <=? n)%nat && (n <? 192)%nat.

Fixpoint chars (s : string) : list string :=
  match s with
  | EmptyString => []
  | String c rest =>
      match chars rest with
      | String d tail :: more =>
          if is_continuation d then String c (String d tail) :: more
          else String c EmptyString :: String d tail :: more
      | more => String c EmptyString :: more
      end
  end.

(** [ch.isspace()], the test of [str.strip()], on a character given by the
    bytes of its encoding.  Within ASCII: tab, newline, vertical tab, form
    feed, carriage return, the separators 0x1c-0x1f and the space.  Beyond
    it: U+0085 and U+00A0 (two bytes, after 0xc2); U+1680 (e1 9a 80);
    U+2000 to U+200A, U+2028, U+2029 and U+202F (after e2 80); U+205F
    (e2 81 9f); U+3000 (e3 80 80). *)
Definition is_space (ch : string) : bool :=
  match List.map nat_of_ascii (list_ascii_of_string ch) with
  | [n] => (((9 <=? n) && (n <=? 13)) || ((28 <=? n) && (n <=? 32)))%nat
  | [a; b] => ((a =? 194) && ((b =? 133) || (b =? 160)))%nat
  | [a; b; c] =>
      (((a =? 225) && (b =? 154) && (c =? 128))
       || ((a =? 226) && (b =? 128)
           && (((128 <=? c) && (c <=? 138)) || (c =? 168) || (c =? 169) || (c =? 175)))
       || ((a =? 226) && (b =? 129) && (c =? 159))
       || ((a =? 227) && (b =? 128) && (c =? 128)))%nat
  | _ => false
  end.

(** [str.lstrip()], [str.rstrip()] and [str.strip()], character by
    character. *)
Fixpoint lstrip (l : list string) : list string :=
  match l with
  | ch :: rest => if is_space ch then lstrip rest else l
  | [] => []
  end.

Definition rstrip (l : list string) : list string := List.rev (lstrip (List.rev l)).

Definition strip (s : string) : string := String.concat "" (rstrip (lstrip (chars s))).

Definition str_empty (s : string) : bool :=
  match s with EmptyString => true | _ => false end.

(** The values [json.loads] produces.  An object is the list of the items of
    the resulting [dict], in insertion order, one per key. *)
Inductive json : Type :=
| JNull
| JBool (b : bool)
| JNum (z : Z)
| JStr (s : string)
| JArr (l : list json)
| JObj (items : list (string * json)).

(** [d.get(key, default)] on the items of a dict. *)
Fixpoint items_get (items : list (string * json)) (key : string) (default : json) : json :=
  match items with
  | [] => default
  | (k, v) :: rest => if String.eqb k key then v else items_get rest key default
  end.

(** [d[key] = v]: replaces the value of a key in place, appends a new key. *)
Fixpoint items_set (items : list (string * json)) (key : string) (v : json) :
  list (string * json) :=
  match items with
  | [] => [(key, v)]
  | (k, w) :: rest =>
      if String.eqb k key then (k, v) :: rest else (k, w) :: items_set rest key v
  end.

(** [bool(v)] *)
Definition truthy (v : json) : bool :=
  match v with
  | JNull => false
  | JBool b => b
  | JNum z => negb (z =? 0)
  | JStr s => negb (str_empty s)
  | JArr l => match l with [] => false | _ => true end
  | JObj items => match items with [] => false | _ => true end
  end.

Definition type_name (v : json) : string :=
  match v with
  | JNull => "NoneType"
  | JBool _ => "bool"
  | JNum _ => "int"
  | JStr _ => "str"
  | JArr _ => "list"
  | JObj _ => "dict"
  end.

(** ** Exceptions *)

(** The classes of [Exception] the code distinguishes or raises itself;
    [OtherError] stands for any other [Exception] the platform raises.
    Exceptions outside [Exception] ([asyncio.CancelledError],
    [KeyboardInterrupt]) are not modelled on the host's side: no handler of
    [executor.py] catches them. *)
Inductive exn : Type :=
| TimeoutError (msg : string)
| RuntimeError (msg : string)
| JSONDecodeError (msg : string)
| AttributeError (msg : string)
| StopAsyncIteration
| OtherError (msg : string).

(** [str(exc)] *)
Definition str_exn (e : exn) : string :=
  match e with
  | TimeoutError m | RuntimeError m | JSONDecodeError m
  | AttributeError m | OtherError m => m
  | StopAsyncIteration => ""
  end.

(** [isinstance(exc, asyncio.TimeoutError)] *)
Definition is_timeout (e : exn) : bool :=
  match e with TimeoutError _ => true | _ => false end.

Inductive outcome (A : Type) : Type :=
| Ret (a : A)
| Raise (e : exn).
Arguments Ret {A} a.
Arguments Raise {A} e.

(** [v.get(key, default)]: only a dict has the method. *)
Definition py_get (v : json) (key : string) (default : json) : outcome json :=
  match v with
  | JObj items => Ret (items_get items key default)
  | _ => Raise (AttributeError ("'" +:+ type_name v +:+ "' object has no attribute 'get'"))
  end.

(** ** The library functions the code calls

    [json.loads], [json.dumps], [str.encode("utf-8")] and
    [bytes.decode("utf-8", errors="ignore")] belong to the Python runtime,
    not to this repository: the development is parametric in them. *)
Class Codec : Type := {
  json_loads : string -> outcome json;
  json_dumps : json -> string;
  encode_utf8 : string -> bytes;
  decode_utf8_ignore : bytes -> string
}.

(** ** Constants of [executor.py] *)

Definition APP_NAME : string := "monte-carlo".
Definition VOLUME_NAME : string := "monte-carlo-mcp".
Definition SERVERS_MOUNT : string := "/mnt/servers".
Definition DEFAULT_TIMEOUT : Z := 120.

Definition unlines (ls : list string) : string :=
  fold_right (fun l acc => l +:+ nl +:+ acc) "" ls.

(** [textwrap.dedent] of the literal: a leading newline, then the lines. *)
Definition _PYTHON_SESSION_INIT : string :=
  nl +:+ unlines
    [ "import numpy as np";
      "import pandas as pd";
      "import json";
      "import sys";
      "sys.path.insert(0, '/mnt/servers')" ].

Definition _PYTHON_SESSION_SCRIPT : string :=
  nl +:+ unlines
    [ "import contextlib";
      "import io";
      "import json";
      "import sys";
      "import traceback";
      "";
      "NAMESPACE = {}";
      "";
      "def run(code: str) -> dict:";
      "    buffer_out = io.StringIO()";
      "    buffer_err = io.StringIO()";
      "    response = {" +:+ quoted "ok" +:+ ": True, " +:+ quoted "stdout" +:+ ": "
        +:+ quoted "" +:+ ", " +:+ quoted "stderr" +:+ ": " +:+ quoted "" +:+ "}";
      "    try:";
      "        with contextlib.redirect_stdout(buffer_out), contextlib.redirect_stderr(buffer_err):";
      "            exec(compile(code, " +:+ quoted "<sandbox>" +:+ ", " +:+ quoted "exec"
        +:+ "), NAMESPACE, NAMESPACE)";
      "    except Exception:  # noqa: BLE001 - propagate traceback to stderr";
      "        response[" +:+ quoted "ok" +:+ "] = False";
      "        traceback.print_exc(file=buffer_err)";
      "    response[" +:+ quoted "stdout" +:+ "] = buffer_out.getvalue()";
      "    response[" +:+ quoted "stderr" +:+ "] = buffer_err.getvalue()";
      "    return response";
      "";
      "for line in sys.stdin:";
      "    line = line.strip()";
      "    if not line:";
      "        continue";
      "    message = json.loads(line)";
      "    if message.get(" +:+ quoted "_terminate" +:+ "):";
      "        print(json.dumps({" +:+ quoted "ok" +:+ ": True, " +:+ quoted "stdout" +:+ ": "
        +:+ quoted "" +:+ ", " +:+ quoted "stderr" +:+ ": " +:+ quoted "" +:+ "}), flush=True)";
      "        break";
      "    payload = run(message.get(" +:+ quoted "code" +:+ ", " +:+ quoted "" +:+ "))";
      "    print(json.dumps(payload), flush=True)" ].

(** The response record [{"ok": ..., "stdout": ..., "stderr": ...}]. *)
Definition response_record (ok : bool) (out err : string) : json :=
  JObj [("ok", JBool ok); ("stdout", JStr out); ("stderr", JStr err)].

Definition code_request (code : json) : json := JObj [("code", code)].

(** ** Handles of the platform *)

(** A readable stream, with the attributes [_readline] and [_read_stream]
    look for: [__anext__]; [__aiter__] (and whether the iterator it returns
    has [__anext__]); [readline]; [read]. *)
Record stream : Type := {
  stream_id : nat;
  s_anext : bool;
  s_aiter : option bool;
  s_readline : bool;
  s_read : bool
}.

Record writer : Type := { writer_id : nat }.

(** The process object [exec] returns; a stream attribute may be [None]. *)
Record proc : Type := {
  proc_id : nat;
  stdin : option writer;
  stdout : option stream;
  stderr : option stream
}.

Record modal_sandbox : Type := { object_id : string }.
Record modal_app : Type := { app_name : string }.
Record modal_volume : Type := { volume_name : string }.

Record modal_image : Type := {
  python_version : string;
  pip_packages : list string
}.

#[global] Instance stream_eq_dec : EqDecision stream.
Proof. solve_decision. Defined.
#[global] Instance writer_eq_dec : EqDecision writer.
Proof. solve_decision. Defined.
#[global] Instance proc_eq_dec : EqDecision proc.
Proof. solve_decision. Defined.
#[global] Instance modal_sandbox_eq_dec : EqDecision modal_sandbox.
Proof. solve_decision. Defined.

(** What a read hands back: [None], [bytes] or [str]. *)
Inductive data : Type :=
| DNone
| DBytes (b : bytes)
| DStr (s : string).

(** [not data] *)
Definition falsy (d : data) : bool :=
  match d with
  | DNone => true
  | DBytes b => match b with [] => true | _ => false end
  | DStr s => str_empty s
  end.

(** The primitive a read goes through. *)
Inductive read_kind : Type :=
| ByAnext        (* await stream.__anext__() *)
| ByAiter        (* await stream.__aiter__().__anext__() *)
| ByReadline     (* stream.readline(), awaited when awaitable *)
| ByRead.        (* stream.read(), awaited when awaitable *)

Record create_request : Type := {
  req_app : modal_app;
  req_image : modal_image;
  req_timeout : Z;
  req_cpu : Z;
  req_memory : Z;
  req_volumes : list (string * modal_volume)
}.

(** The platform: each operation takes the world and returns the next world
    and either a value or an exception.  The optional [Z] of [stream_recv]
    is the bound of an enclosing [asyncio.wait_for], whose expiry the
    platform reports as [TimeoutError]. *)
Class Platform (W : Type) : Type := {
  app_lookup : W -> string -> W * outcome modal_app;
  volume_from_name : W -> string -> W * outcome modal_volume;
  sandbox_create : W -> create_request -> W * outcome modal_sandbox;
  sandbox_exec : W -> modal_sandbox -> list string -> Z -> W * outcome proc;
  writer_write : W -> writer -> bytes -> W * outcome unit;
  writer_drain : W -> writer -> W * outcome unit;
  stream_recv : W -> stream -> read_kind -> option Z -> W * outcome data;
  proc_wait : W -> proc -> W * outcome unit;
  proc_returncode : W -> proc -> outcome (option json);
  sandbox_terminate : W -> modal_sandbox -> W * outcome unit
}.

(** ** The trace of a run *)

(** What is written on a process's stdin: the encoding of a control record,
    or a bytes literal. *)
Inductive message : Type :=
| Encoded (payload : json)
| Literal (b : bytes).

(** One entry per call to the platform, with its result; [EvRestart] marks
    an entry into [_restart_python_session]. *)
Inductive event : Type :=
| EvAppLookup (name : string) (r : outcome modal_app)
| EvVolume (name : string) (r : outcome modal_volume)
| EvCreate (req : create_request) (r : outcome modal_sandbox)
| EvExec (sb : modal_sandbox) (argv : list string) (timeout : Z) (r : outcome proc)
| EvWrite (w : writer) (m : message) (r : outcome unit)
| EvDrain (w : writer) (r : outcome unit)
| EvRecv (s : stream) (k : read_kind) (wait : option Z) (r : outcome data)
| EvWait (p : proc) (r : outcome unit)
| EvTerminate (sb : modal_sandbox) (r : outcome unit)
| EvRestart.

(** ** Results *)

Record ExecutionResult : Type := {
  success : bool;
  stdout_text : json;
  stderr_text : json;
  error : option string
}.

Definition timeout_result (timeout : Z) : ExecutionResult :=
  {| success := false; stdout_text := JStr ""; stderr_text := JStr "";
     error := Some ("Timeout after " +:+ pretty timeout +:+ "s") |}.

Definition failure_result (msg : string) : ExecutionResult :=
  {| success := false; stdout_text := JStr ""; stderr_text := JStr "";
     error := Some msg |}.

(** ** The monad: state, trace and exceptions *)

Definition M (S A : Type) : Type := S -> S * list event * outcome A.

Definition ret {S A} (a : A) : M S A := fun s => (s, [], Ret a).
Definition raise {S A} (e : exn) : M S A := fun s => (s, [], Raise e).

Definition bind {S A B} (m : M S A) (k : A -> M S B) : M S B :=
  fun s =>
    let '(s1, t1, o) := m s in
    match o with
    | Ret a => let '(s2, t2, o2) := k a s1 in (s2, t1 ++ t2, o2)
    | Raise e => (s1, t1, Raise e)
    end.

Declare Scope monad_scope.
Delimit Scope monad_scope with monad.
Notation "x <- m ;; k" := (bind m (fun x => k))
  (at level 100, m at next level, k at level 200, right associativity) : monad_scope.
Notation "m ;; k" := (bind m (fun _ => k))
  (at level 100, k at level 200, right associativity) : monad_scope.
Local Open Scope monad_scope.

(** [try: m  except Exception as exc: h exc] *)
Definition try_except {S A} (m : M S A) (h : exn -> M S A) : M S A :=
  fun s =>
    let '(s1, t1, o) := m s in
    match o with
    | Ret a => (s1, t1, Ret a)
    | Raise e => let '(s2, t2, o2) := h e s1 in (s2, t1 ++ t2, o2)
    end.

(** [try: m  finally: c]: an exception of [c] replaces the outcome of [m]. *)
Definition finally {S A} (m : M S A) (c : M S unit) : M S A :=
  fun s =>
    let '(s1, t1, o) := m s in
    let '(s2, t2, oc) := c s1 in
    (s2, t1 ++ t2, match oc with Ret _ => o | Raise e => Raise e end).

(** [with contextlib.suppress(cls): m], [cls] given by its membership test. *)
Definition suppress {S} (cls : exn -> bool) (m : M S unit) : M S unit :=
  try_except m (fun e => if cls e then ret tt else raise e).

Definition lift_outcome {S A} (o : outcome A) : M S A := fun s => (s, [], o).

(** Records an event that is no call to the platform. *)
Definition mark {S} (ev : event) : M S unit := fun s => (s, [ev], Ret tt).

Definition get {S} : M S S := fun s => (s, [], Ret s).
Definition put {S} (s' : S) : M S unit := fun _ => (s', [], Ret tt).

(** Runs a computation on a component of the state. *)
Definition zoom {S T A} (proj : S -> T) (upd : T -> S -> S) (m : M T A) : M S A :=
  fun s => let '(t', tr, o) := m (proj s) in (upd t' s, tr, o).

(** ** Calls to the platform *)

Section PlatformCalls.
Context {W : Type} {platform : Platform W}.

Definition platform_call {A} (op : W -> W * outcome A) (ev : outcome A -> event) : M W A :=
  fun w => let '(w', r) := op w in (w', [ev r], r).

Definition call_app_lookup (name : string) : M W modal_app :=
  platform_call (fun w => app_lookup w name) (EvAppLookup name).

Definition call_volume_from_name (name : string) : M W modal_volume :=
  platform_call (fun w => volume_from_name w name) (EvVolume name).

Definition call_sandbox_create (req : create_request) : M W modal_sandbox :=
  platform_call (fun w => sandbox_create w req) (EvCreate req).

Definition call_exec (sb : modal_sandbox) (argv : list string) (timeout : Z) : M W proc :=
  platform_call (fun w => sandbox_exec w sb argv timeout) (EvExec sb argv timeout).

Definition call_recv (s : stream) (k : read_kind) (wait : option Z) : M W data :=
  platform_call (fun w => stream_recv w s k wait) (EvRecv s k wait).

Definition call_drain (wr : writer) : M W unit :=
  platform_call (fun w => writer_drain w wr) (EvDrain wr).

Definition call_wait (p : proc) : M W unit :=
  platform_call (fun w => proc_wait w p) (EvWait p).

Definition call_terminate (sb : modal_sandbox) : M W unit :=
  platform_call (fun w => sandbox_terminate w sb) (EvTerminate sb).

Definition call_returncode (p : proc) : M W (option json) :=
  fun w => (w, [], proc_returncode w p).
End PlatformCalls.

(** ** The [Sandbox] class *)

Record Sandbox : Type := {
  session_id : string;
  _sandbox : modal_sandbox;
  _python_proc : option proc
}.

(** [Sandbox.__init__] *)
Definition Sandbox_init (session_id : string) (sandbox : modal_sandbox) : Sandbox :=
  {| session_id := session_id; _sandbox := sandbox; _python_proc := None |}.

(** [_build_image] *)
Definition _build_image : modal_image :=
  {| python_version := "3.12";
     pip_packages :=
       [ "ipython>=8.0.0"; "numpy>=2.0.0"; "pandas>=2.0.0"; "yfinance>=0.2.66";
         "httpx>=0.28.1"; "aiohttp>=3.11.0"; "mcp>=1.22.0"; "pydantic-ai-slim" ] |}.

(** The bytes literal [_stop_python_session] writes. *)
Definition TERMINATE_LINE : bytes :=
  list_byte_of_string ("{" +:+ quoted "_terminate" +:+ ": true}" +:+ nl).

Definition resident_argv : list string := ["python3"; "-u"; "-c"; _PYTHON_SESSION_SCRIPT].
Definition bash_argv (command : string) : list string := ["bash"; "-c"; command].

Section SandboxMethods.
Context {codec : Codec} {W : Type} {platform : Platform W}.

(** The state a method runs in: the world and the fields of [self]. *)
Record St : Type := { world : W; self : Sandbox }.

Definition on_world {A} (m : M W A) : M St A :=
  zoom world (fun w st => {| world := w; self := self st |}) m.

Definition get_self : M St Sandbox := fun st => (st, [], Ret (self st)).

Definition set_python_proc (p : option proc) : M St unit :=
  fun st =>
    ({| world := world st;
        self := {| session_id := session_id (self st);
                   _sandbox := _sandbox (self st);
                   _python_proc := p |} |}, [], Ret tt).

Definition message_bytes (m : message) : bytes :=
  match m with
  | Encoded payload => encode_utf8 (json_dumps payload) ++ [Byte.x0a]
  | Literal b => b
  end.

(** [stdin.write(message)] *)
Definition call_write (wr : writer) (m : message) : M W unit :=
  platform_call (fun w => writer_write w wr (message_bytes m)) (EvWrite wr m).

(** [_decode_stream] *)
Definition _decode_stream (d : data) : string :=
  match d with
  | DNone => ""
  | DBytes b => decode_utf8_ignore b
  | DStr s => s
  end.

(** [_read_stream]; [wait] is the bound of an enclosing [wait_for]. *)
Definition _read_stream (stream : option stream) (wait : option Z) : M St data :=
  match stream with
  | None => ret (DBytes [])
  | Some s =>
      if s_read s then on_world (call_recv s ByRead wait) else ret (DBytes [])
  end.

(** [try: return await anext_fn()  except StopAsyncIteration: return b""] *)
Definition anext_or_empty (s : stream) (k : read_kind) (wait : option Z) : M St data :=
  try_except (on_world (call_recv s k wait))
    (fun e => match e with StopAsyncIteration => ret (DBytes []) | _ => raise e end).

(** [_readline] *)
Definition _readline (stream : option stream) (wait : option Z) : M St data :=
  match stream with
  | None => ret (DBytes [])
  | Some s =>
      if s_anext s then anext_or_empty s ByAnext wait
      else
        match s_aiter s with
        | Some true => anext_or_empty s ByAiter wait
        | _ =>
            if s_readline s then on_world (call_recv s ByReadline wait)
            else _read_stream (Some s) wait
        end
  end.

(** The end of [_communicate_with_python]: what is made of the line read. *)
Definition decode_response (line : data) : outcome json :=
  if falsy line then Raise (RuntimeError "Python session terminated unexpectedly")
  else
    let decoded := strip (_decode_stream line) in
    if str_empty decoded then Ret (response_record true "" "")
    else json_loads decoded.

(** [_communicate_with_python] *)
Definition _communicate_with_python (payload : json) (timeout : Z) : M St json :=
  me <- get_self ;;
  match _python_proc me with
  | None => raise (RuntimeError "Python session is not initialized")
  | Some p =>
      match stdin p, stdout p with
      | Some wr, Some rd =>
          on_world (call_write wr (Encoded payload)) ;;
          on_world (call_drain wr) ;;
          line <- _readline (Some rd) (Some timeout) ;;
          lift_outcome (decode_response line)
      | _, _ => raise (RuntimeError "Python session streams are unavailable")
      end
  end.

(** [_start_python_session] *)
Definition _start_python_session (timeout : Z) : M St unit :=
  me <- get_self ;;
  p <- on_world (call_exec (_sandbox me) resident_argv timeout) ;;
  set_python_proc (Some p) ;;
  _communicate_with_python (code_request (JStr _PYTHON_SESSION_INIT)) timeout ;;
  ret tt.

(** [_ensure_python_session] *)
Definition _ensure_python_session (timeout : Z) : M St unit :=
  me <- get_self ;;
  match _python_proc me with
  | Some _ => ret tt
  | None => _start_python_session timeout
  end.

(** [_stop_python_session] *)
Definition _stop_python_session : M St unit :=
  me <- get_self ;;
  match _python_proc me with
  | None => ret tt
  | Some p =>
      finally
        (try_except
           (match stdin p with
            | Some wr =>
                on_world (call_write wr (Literal TERMINATE_LINE)) ;;
                on_world (call_drain wr)
            | None => ret tt
            end ;;
            match stdout p with
            | Some rd =>
                suppress is_timeout (_readline (Some rd) (Some 5) ;; ret tt)
            | None => ret tt
            end)
           (fun _ => ret tt))
        (suppress (fun _ => true) (on_world (call_wait p)) ;;
         set_python_proc None)
  end.

(** [_restart_python_session]; the entry is marked in the trace. *)
Definition _restart_python_session (timeout : Z) : M St unit :=
  mark EvRestart ;;
  _stop_python_session ;;
  _start_python_session timeout.

(** The [ExecutionResult] built from the response; [response.get] raises
    when the response is not a dict. *)
Definition result_of_response (response : json) : outcome ExecutionResult :=
  match py_get response "ok" (JBool false) with
  | Raise e => Raise e
  | Ret ok =>
      match py_get response "stdout" (JStr "") with
      | Raise e => Raise e
      | Ret out =>
          match py_get response "stderr" (JStr "") with
          | Raise e => Raise e
          | Ret err =>
              Ret {| success := truthy ok; stdout_text := out; stderr_text := err;
                     error := None |}
          end
      end
  end.

(** The body of the [try] of [execute_python]. *)
Definition python_attempt (code : string) (timeout : Z) : M St ExecutionResult :=
  _ensure_python_session timeout ;;
  response <- _communicate_with_python (code_request (JStr code)) timeout ;;
  lift_outcome (result_of_response response).

(** How one round of the [for attempt in range(2)] loop ends. *)
Inductive flow : Type :=
| Return (r : ExecutionResult)
| Continue (last_error : exn).

Definition python_round (code : string) (timeout : Z) : M St flow :=
  try_except
    (r <- python_attempt code timeout ;; ret (Return r))
    (fun exc =>
       if is_timeout exc then ret (Return (timeout_result timeout))
       else _restart_python_session timeout ;; ret (Continue exc)).

Fixpoint execute_python_loop (attempts : nat) (last_error : option exn)
    (code : string) (timeout : Z) : M St ExecutionResult :=
  match attempts with
  | O =>
      ret (failure_result
             match last_error with
             | Some exc => str_exn exc
             | None => "Python session failed"
             end)
  | S n =>
      f <- python_round code timeout ;;
      match f with
      | Return r => ret r
      | Continue exc => execute_python_loop n (Some exc) code timeout
      end
  end.

(** [execute_python] *)
Definition execute_python (code : string) (timeout : Z) : M St ExecutionResult :=
  execute_python_loop 2 None code timeout.

(** [getattr(process, "returncode", 0) == 0] on the attribute's value. *)
Definition returncode_is_zero (rc : option json) : bool :=
  match rc with
  | None => true
  | Some (JNum z) => z =? 0
  | Some (JBool b) => negb b
  | Some _ => false
  end.

(** The body of the [try] of [execute_bash]. *)
Definition bash_attempt (command : string) (timeout : Z) : M St ExecutionResult :=
  me <- get_self ;;
  process <- on_world (call_exec (_sandbox me) (bash_argv command) timeout) ;;
  stdout_bytes <- _read_stream (stdout process) None ;;
  stderr_bytes <- _read_stream (stderr process) None ;;
  on_world (call_wait process) ;;
  rc <- on_world (call_returncode process) ;;
  ret {| success := returncode_is_zero rc;
         stdout_text := JStr (_decode_stream stdout_bytes);
         stderr_text := JStr (_decode_stream stderr_bytes);
         error := None |}.

(** [execute_bash] *)
Definition execute_bash (command : string) (timeout : Z) : M St ExecutionResult :=
  try_except (bash_attempt command timeout)
    (fun exc =>
       if is_timeout exc then ret (timeout_result timeout)
       else ret (failure_result (str_exn exc))).

(** [terminate] *)
Definition terminate : M St unit :=
  _stop_python_session ;;
  me <- get_self ;;
  on_world (call_terminate (_sandbox me)).
End SandboxMethods.

(** ** Creation and the one-off helpers *)

Section Helpers.
Context {codec : Codec} {W : Type} {platform : Platform W}.

(** [Sandbox.create] *)
Definition Sandbox_create (session_id : string) (timeout : Z) : M W Sandbox :=
  app <- call_app_lookup APP_NAME ;;
  let image := _build_image in
  volumes <- try_except
               (volume <- call_volume_from_name VOLUME_NAME ;;
                ret [(SERVERS_MOUNT, volume)])
               (fun _ => ret []) ;;
  sb <- call_sandbox_create
          {| req_app := app; req_image := image; req_timeout := timeout;
             req_cpu := 1; req_memory := 2048; req_volumes := volumes |} ;;
  ret (Sandbox_init session_id sb).

(** Runs methods on an object held in a local variable. *)
Definition with_object {A} (obj : Sandbox) (m : M St A) : M W A :=
  fun w => let '(st, tr, o) := m {| world := w; self := obj |} in (world st, tr, o).

(** [run_python] *)
Definition run_python (code : string) (session_id : string) : M W ExecutionResult :=
  sandbox <- Sandbox_create session_id 600 ;;
  with_object sandbox (finally (execute_python code DEFAULT_TIMEOUT) terminate).

(** [run_bash] *)
Definition run_bash (command : string) (session_id : string) : M W ExecutionResult :=
  sandbox <- Sandbox_create session_id 600 ;;
  with_object sandbox (finally (execute_bash command DEFAULT_TIMEOUT) terminate).
End Helpers.

(** ** The registry of [agents/base.py] *)

Section Registry.
Context {codec : Codec} {W : Type} {platform : Platform W}.

(** The interpreter's state: the platform's world, the [Sandbox] objects
    allocated so far, addressed by their position, and the global dict
    [_sandboxes], which holds references to them. *)
Record Global : Type := {
  g_world : W;
  heap : list Sandbox;
  _sandboxes : gmap string nat
}.

Definition on_platform {A} (m : M W A) : M Global A :=
  zoom g_world
    (fun w g => {| g_world := w; heap := heap g; _sandboxes := _sandboxes g |}) m.

(** Allocates an object and returns the reference to it. *)
Definition alloc (obj : Sandbox) : M Global nat :=
  fun g =>
    ({| g_world := g_world g; heap := heap g ++ [obj]; _sandboxes := _sandboxes g |},
     [], Ret (length (heap g))).

(** Runs a method on the object a reference points to. *)
Definition on_object {A} (ref : nat) (m : M St A) : M Global A :=
  fun g =>
    match heap g !! ref with
    | Some obj =>
        let '(st, tr, o) := m {| world := g_world g; self := obj |} in
        ({| g_world := world st; heap := <[ref := self st]> (heap g);
            _sandboxes := _sandboxes g |}, tr, o)
    | None => (g, [], Raise (RuntimeError "reference to no object"))
    end.

Definition registry_set (key : string) (ref : nat) : M Global unit :=
  fun g =>
    ({| g_world := g_world g; heap := heap g;
        _sandboxes := <[key := ref]> (_sandboxes g) |}, [], Ret tt).

Definition registry_del (key : string) : M Global unit :=
  fun g =>
    ({| g_world := g_world g; heap := heap g;
        _sandboxes := delete key (_sandboxes g) |}, [], Ret tt).

(** [_get_sandbox] *)
Definition _get_sandbox (session_id : string) : M Global nat :=
  g <- get ;;
  match _sandboxes g !! session_id with
  | Some ref => ret ref
  | None =>
      obj <- on_platform (Sandbox_create session_id 600) ;;
      ref <- alloc obj ;;
      registry_set session_id ref ;;
      ret ref
  end.

(** [cleanup_sandbox] *)
Definition cleanup_sandbox (session_id : string) : M Global unit :=
  g <- get ;;
  match _sandboxes g !! session_id with
  | Some ref =>
      on_object ref terminate ;;
      registry_del session_id
  | None => ret tt
  end.
End Registry.

(** ** The tools of [agents/base.py]

    [create_sandbox_tools(session_id)] returns two handlers, closures over
    the session id.  Each takes the dict of the tool's arguments, whose
    declared schema is [{"code": str}] (resp. [{"command": str}]): the
    arguments are modelled as a dict of strings.  A handler gets the
    session's sandbox from the registry, runs the call with the default
    timeout, makes a reply of the result, prints the reply on the host's
    standard output and returns it. *)

(** [str(v)] and the conversion of an f-string: the text itself for a
    [str]; for the other values it is [repr], which belongs to Python. *)
Class Formatter : Type := { py_repr : json -> string }.

Definition py_str {formatter : Formatter} (v : json) : string :=
  match v with
  | JStr s => s
  | _ => py_repr v
  end.

(** The host's standard output: [print(v)] may raise (a closed pipe). *)
Class Console (C : Type) : Type := { console_print : C -> json -> C * outcome unit }.

(** [v or default] *)
Definition or_else (v default : json) : json := if truthy v then v else default.

(** [bool(result.error)] *)
Definition is_set (error : option string) : bool :=
  match error with
  | Some msg => negb (str_empty msg)
  | None => false
  end.

(** [v += text] for a [str] operand [text]: concatenation on a [str]; a
    list is extended by the characters of the text; the other values have
    no [+] with a [str] ([TypeError]). *)
Definition iadd_str (v : json) (text : string) : outcome json :=
  match v with
  | JStr s => Ret (JStr (s +:+ text))
  | JArr l => Ret (JArr (l ++ map JStr (chars text)))
  | _ =>
      Raise (OtherError ("unsupported operand type(s) for +=: '" +:+ type_name v
                         +:+ "' and 'str'"))
  end.

(** The reply [{"content": [{"type": "text", "text": ...}], "is_error": ...}]. *)
Definition text_reply (text : json) (is_error : bool) : json :=
  JObj [ ("content", JArr [JObj [("type", JStr "text"); ("text", text)]]);
         ("is_error", JBool is_error) ].

Definition STDERR_MARK : string := nl +:+ "[stderr]: ".

(** The lines of a handler between the call and [print(out)]. *)
Definition tool_reply {formatter : Formatter} (result : ExecutionResult) : outcome json :=
  let output := or_else (stdout_text result) (JStr "") in
  match
    if truthy (stderr_text result)
    then iadd_str output (STDERR_MARK +:+ py_str (stderr_text result))
    else Ret output
  with
  | Raise e => Raise e
  | Ret output =>
      let output :=
        match error result with
        | Some msg => if str_empty msg then output else JStr ("Error: " +:+ msg)
        | None => output
        end in
      Ret (text_reply (or_else output (JStr "(no output)")) (is_set (error result)))
  end.

(** [args[key]]: [KeyError] when the key is absent. *)
Definition getitem (args : gmap string string) (key : string) : outcome string :=
  match args !! key with
  | Some v => Ret v
  | None => Raise (OtherError ("'" +:+ key +:+ "'"))
  end.

Section Tools.
Context {codec : Codec} {W : Type} {platform : Platform W}
  {formatter : Formatter} {C : Type} {console : Console C}.

(** The host process: the registry with its objects, and the console. *)
Record Host : Type := { registry : @Global W; stdout_console : C }.

Definition on_registry {A} (m : M (@Global W) A) : M Host A :=
  zoom registry (fun g h => {| registry := g; stdout_console := stdout_console h |}) m.

(** [print(v)] *)
Definition py_print (v : json) : M Host unit :=
  fun h =>
    let '(c, r) := console_print (stdout_console h) v in
    ({| registry := registry h; stdout_console := c |}, [], r).

(** The handler [execute_python] of [create_sandbox_tools(session_id)]. *)
Definition tool_execute_python (session_id : string) (args : gmap string string) :
    M Host json :=
  sandbox <- on_registry (_get_sandbox session_id) ;;
  code <- lift_outcome (getitem args "code") ;;
  result <- on_registry (on_object sandbox (execute_python code DEFAULT_TIMEOUT)) ;;
  out <- lift_outcome (tool_reply result) ;;
  py_print out ;;
  ret out.

(** The handler [execute_bash] of [create_sandbox_tools(session_id)]. *)
Definition tool_execute_bash (session_id : string) (args : gmap string string) :
    M Host json :=
  sandbox <- on_registry (_get_sandbox session_id) ;;
  command <- lift_outcome (getitem args "command") ;;
  result <- on_registry (on_object sandbox (execute_bash command DEFAULT_TIMEOUT)) ;;
  out <- lift_outcome (tool_reply result) ;;
  py_print out ;;
  ret out.

(** [create_sandbox_tools] *)
Definition create_sandbox_tools (session_id : string) :
    (gmap string string -> M Host json) * (gmap string string -> M Host json) :=
  (tool_execute_python session_id, tool_execute_bash session_id).
End Tools.

(** ** The resident loop of [_PYTHON_SESSION_SCRIPT] *)

(** What [exec(compile(code, ...), NAMESPACE, NAMESPACE)] does under the two
    redirections is Python's business; the loop is parametric in it.  The
    captured output comes with each way of ending: a return, an [Exception]
    (with the text [traceback.print_exc] writes), or an exception outside
    [Exception] ([SystemExit], [KeyboardInterrupt]).  A snippet that never
    ends has no place in this model. *)
Inductive exec_result : Type :=
| Finished (out err : string)
| Failed (out err traceback : string)
| Escaped.

Class Interpreter (NS : Type) : Type := {
  empty_namespace : NS;
  py_exec : json -> NS -> NS * exec_result
}.

(** Why the [for] loop is left. *)
Inductive loop_end : Type :=
| EndOfInput
| Terminated
| Crashed (e : exn)
| Exited.

Section ResidentLoop.
Context {codec : Codec} {NS : Type} {interpreter : Interpreter NS}.

(** [run]; [None] when the exception is not caught. *)
Definition run (code : json) (ns : NS) : NS * option json :=
  let response := [("ok", JBool true); ("stdout", JStr ""); ("stderr", JStr "")] in
  match py_exec code ns with
  | (ns', Finished out err) =>
      let response := items_set response "stdout" (JStr out) in
      let response := items_set response "stderr" (JStr err) in
      (ns', Some (JObj response))
  | (ns', Failed out err tb) =>
      let response := items_set response "ok" (JBool false) in
      let response := items_set response "stdout" (JStr out) in
      let response := items_set response "stderr" (JStr (err +:+ tb)) in
      (ns', Some (JObj response))
  | (ns', Escaped) => (ns', None)
  end.

(** One round of the loop on the line just read. *)
Inductive round : Type :=
| Skip
| Reply (line : string) (ns' : NS)
| ReplyAndBreak (line : string)
| Die (why : loop_end) (ns' : NS).

Definition loop_round (ns : NS) (line : string) : round :=
  let line := strip line in
  if str_empty line then Skip
  else
    match json_loads line with
    | Raise e => Die (Crashed e) ns
    | Ret message =>
        match py_get message "_terminate" JNull with
        | Raise e => Die (Crashed e) ns
        | Ret flag =>
            if truthy flag then
              ReplyAndBreak (json_dumps (response_record true "" "") +:+ nl)
            else
              match py_get message "code" (JStr "") with
              | Raise e => Die (Crashed e) ns
              | Ret code =>
                  match run code ns with
                  | (ns', Some payload) => Reply (json_dumps payload +:+ nl) ns'
                  | (ns', None) => Die Exited ns'
                  end
              end
        end
    end.

(** [for line in sys.stdin: ...]: the lines printed, the namespace at the
    end, why the loop ended and the lines never read. *)
Fixpoint session_loop (ns : NS) (input : list string) :
    list string * NS * loop_end * list string :=
  match input with
  | [] => ([], ns, EndOfInput, [])
  | line :: rest =>
      match loop_round ns line with
      | Skip => session_loop ns rest
      | Reply out ns' =>
          let '(outs, ns'', e, unread) := session_loop ns' rest in
          (out :: outs, ns'', e, unread)
      | ReplyAndBreak out => ([out], ns, Terminated, rest)
      | Die why ns' => ([], ns', why, rest)
      end
  end.
End ResidentLoop.

(** ** A concrete codec

    An executable reading of the four library functions, used to run the
    model on concrete wire lines.  [mini_loads] reads the JSON of the
    protocol: objects, arrays, strings of ASCII text with their escapes,
    integers and the three literals; it rejects everything else (text
    outside ASCII, fractions, exponents), and the text of its
    [JSONDecodeError] is not CPython's.  [mini_dumps] writes ASCII text the
    way [json.dumps] does by default. *)
Module MiniCodec.

Definition is_json_ws (c : ascii) : bool :=
  let n := nat_of_ascii c in
  (n =? 32)%nat || (n =? 9)%nat || (n =? 10)%nat || (n =? 13)%nat.

Fixpoint skip_ws (s : string) : string :=
  match s with
  | String c r => if is_json_ws c then skip_ws r else s
  | EmptyString => EmptyString
  end.

Definition unescape (c : ascii) : option ascii :=
  match c with
  | "b"%char => Some (ascii_of_nat 8)
  | "f"%char => Some (ascii_of_nat 12)
  | "n"%char => Some (ascii_of_nat 10)
  | "r"%char => Some (ascii_of_nat 13)
  | "t"%char => Some (ascii_of_nat 9)
  | "/"%char => Some "/"%char
  | "\"%char => Some "\"%char
  | _ => if Ascii.eqb c (ascii_of_nat 34) then Some c else None
  end.

Definition hex_value (c : ascii) : option nat :=
  let n := nat_of_ascii c in
  if ((48 <=? n) && (n <=? 57))%nat then Some (n - 48)%nat
  else if ((97 <=? n) && (n <=? 102))%nat then Some (n - 87)%nat
  else if ((65 <=? n) && (n <=? 70))%nat then Some (n - 55)%nat
  else None.

(** The character of a [\uXXXX] escape, for a code point within ASCII. *)
Definition unescape_unicode (a b c d : ascii) : option ascii :=
  match hex_value a, hex_value b, hex_value c, hex_value d with
  | Some 0%nat, Some 0%nat, Some h, Some l =>
      if (h <? 8)%nat then Some (ascii_of_nat (16 * h + l)) else None
  | _, _, _, _ => None
  end.

(** The text after an opening quote, up to the closing one. *)
Fixpoint read_string (s : string) : option (string * string) :=
  match s with
  | EmptyString => None
  | String c r =>
      if Ascii.eqb c (ascii_of_nat 34) then Some (EmptyString, r)
      else if Ascii.eqb c "\"%char then
        match r with
        | String "u"%char (String h1 (String h2 (String h3 (String h4 r')))) =>
            match unescape_unicode h1 h2 h3 h4, read_string r' with
            | Some c', Some (body, rest) => Some (String c' body, rest)
            | _, _ => None
            end
        | String e r' =>
            match unescape e, read_string r' with
            | Some c', Some (body, rest) => Some (String c' body, rest)
            | _, _ => None
            end
        | EmptyString => None
        end
      else if (nat_of_ascii c <? 32)%nat then None
      else
        match read_string r with
        | Some (body, rest) => Some (String c body, rest)
        | None => None
        end
  end.

Definition digit_of (c : ascii) : option Z :=
  let n := nat_of_ascii c in
  if ((48 <=? n) && (n <=? 57))%nat then Some (Z.of_nat n - 48) else None.

Fixpoint read_digits (acc : Z) (s : string) : Z * string :=
  match s with
  | String c r =>
      match digit_of c with
      | Some d => read_digits (10 * acc + d) r
      | None => (acc, s)
      end
  | EmptyString => (acc, s)
  end.

Definition starts_fraction (s : string) : bool :=
  match s with
  | String c _ => Ascii.eqb c "."%char || Ascii.eqb c "e"%char || Ascii.eqb c "E"%char
  | EmptyString => false
  end.

(** An integer without sign: no leading zero, no fraction, no exponent. *)
Definition read_natural (s : string) : option (Z * string) :=
  match s with
  | String c r =>
      match digit_of c with
      | Some 0 =>
          match r with
          | String c' _ =>
              match digit_of c' with
              | Some _ => None
              | None => if starts_fraction r then None else Some (0, r)
              end
          | EmptyString => Some (0, r)
          end
      | Some d =>
          let '(n, rest) := read_digits d r in
          if starts_fraction rest then None else Some (n, rest)
      | None => None
      end
  | EmptyString => None
  end.

Definition read_literal (word : string) (v : json) (s : string) : option (json * string) :=
  if String.prefix word s
  then Some (v, String.substring (String.length word)
                  (String.length s - String.length word) s)
  else None.

Fixpoint read_value (fuel : nat) (s : string) : option (json * string) :=
  match fuel with
  | O => None
  | S f =>
      match skip_ws s with
      | EmptyString => None
      | String c r =>
          if Ascii.eqb c "{"%char then
            match skip_ws r with
            | String "}"%char r' => Some (JObj [], r')
            | r1 => read_members f r1 []
            end
          else if Ascii.eqb c "["%char then
            match skip_ws r with
            | String "]"%char r' => Some (JArr [], r')
            | r1 => read_elements f r1 []
            end
          else if Ascii.eqb c (ascii_of_nat 34) then
            match read_string r with
            | Some (body, rest) => Some (JStr body, rest)
            | None => None
            end
          else if Ascii.eqb c "-"%char then
            match read_natural r with
            | Some (n, rest) => Some (JNum (- n), rest)
            | None => None
            end
          else if Ascii.eqb c "t"%char then read_literal "true" (JBool true) (String c r)
          else if Ascii.eqb c "f"%char then read_literal "false" (JBool false) (String c r)
          else if Ascii.eqb c "n"%char then read_literal "null" JNull (String c r)
          else
            match read_natural (String c r) with
            | Some (n, rest) => Some (JNum n, rest)
            | None => None
            end
      end
  end
with read_members (fuel : nat) (s : string) (acc : list (string * json)) :
    option (json * string) :=
  match fuel with
  | O => None
  | S f =>
      match skip_ws s with
      | String c r =>
          if Ascii.eqb c (ascii_of_nat 34) then
            match read_string r with
            | Some (key, r1) =>
                match skip_ws r1 with
                | String ":"%char r2 =>
                    match read_value f r2 with
                    | Some (v, r3) =>
                        match skip_ws r3 with
                        | String ","%char r4 => read_members f r4 (items_set acc key v)
                        | String "}"%char r4 => Some (JObj (items_set acc key v), r4)
                        | _ => None
                        end
                    | None => None
                    end
                | _ => None
                end
            | None => None
            end
          else None
      | EmptyString => None
      end
  end
with read_elements (fuel : nat) (s : string) (acc : list json) : option (json * string) :=
  match fuel with
  | O => None
  | S f =>
      match read_value f s with
      | Some (v, r1) =>
          match skip_ws r1 with
          | String ","%char r2 => read_elements f r2 (acc ++ [v])
          | String "]"%char r2 => Some (JArr (acc ++ [v]), r2)
          | _ => None
          end
      | None => None
      end
  end.

Definition mini_loads (s : string) : outcome json :=
  match read_value (S (String.length s)) s with
  | Some (v, rest) =>
      if str_empty (skip_ws rest) then Ret v
      else Raise (JSONDecodeError "Extra data")
  | None => Raise (JSONDecodeError "Expecting value")
  end.

Definition hex_digit (n : nat) : ascii :=
  if (n <? 10)%nat then ascii_of_nat (48 + n) else ascii_of_nat (87 + n).

Definition escape_char (c : ascii) : string :=
  let n := nat_of_ascii c in
  if (n =? 34)%nat then "\" +:+ dq
  else if (n =? 92)%nat then "\\"
  else if (n =? 10)%nat then "\n"
  else if (n =? 13)%nat then "\r"
  else if (n =? 9)%nat then "\t"
  else if (n =? 8)%nat then "\b"
  else if (n =? 12)%nat then "\f"
  else if ((n <? 32) || (n =? 127))%nat then
    "\u00" +:+ String (hex_digit (n / 16)) (String (hex_digit (n mod 16)) EmptyString)
  else String c EmptyString.

Fixpoint escape (s : string) : string :=
  match s with
  | EmptyString => EmptyString
  | String c r => escape_char c +:+ escape r
  end.

Definition join (sep : string) (parts : list string) : string :=
  match parts with
  | [] => ""
  | p :: ps => fold_left (fun acc q => acc +:+ sep +:+ q) ps p
  end.

Fixpoint mini_dumps (v : json) : string :=
  match v with
  | JNull => "null"
  | JBool true => "true"
  | JBool false => "false"
  | JNum z => pretty z
  | JStr s => quoted (escape s)
  | JArr l => "[" +:+ join ", " (List.map mini_dumps l) +:+ "]"
  | JObj items =>
      "{" +:+ join ", "
               (List.map (fun kv => quoted (escape (fst kv)) +:+ ": " +:+ mini_dumps (snd kv))
                  items)
      +:+ "}"
  end.

(** [bytes.decode("utf-8", errors="ignore")] on the byte-string model of
    text: the well-formed sequences are kept; an ill-formed one is dropped
    up to the byte that breaks it, a truncated one to the end of the data. *)
Definition in_range (lo hi : N) (b : Byte.byte) : bool :=
  ((lo <=? Byte.to_N b) && (Byte.to_N b <=? hi))%N.

Definition second_ok (lead : Byte.byte) (b : Byte.byte) : bool :=
  let l := Byte.to_N lead in
  if (l =? 224)%N then in_range 160 191 b
  else if (l =? 237)%N then in_range 128 159 b
  else if (l =? 240)%N then in_range 144 191 b
  else if (l =? 244)%N then in_range 128 143 b
  else in_range 128 191 b.

Fixpoint utf8_ignore (bs : bytes) : bytes :=
  match bs with
  | [] => []
  | b0 :: r0 =>
      if in_range 0 127 b0 then b0 :: utf8_ignore r0
      else if in_range 194 223 b0 then
        match r0 with
        | [] => []
        | b1 :: r1 =>
            if in_range 128 191 b1 then b0 :: b1 :: utf8_ignore r1 else utf8_ignore r0
        end
      else if in_range 224 239 b0 then
        match r0 with
        | [] => []
        | b1 :: r1 =>
            if second_ok b0 b1 then
              match r1 with
              | [] => []
              | b2 :: r2 =>
                  if in_range 128 191 b2 then b0 :: b1 :: b2 :: utf8_ignore r2
                  else utf8_ignore r1
              end
            else utf8_ignore r0
        end
      else if in_range 240 244 b0 then
        match r0 with
        | [] => []
        | b1 :: r1 =>
            if second_ok b0 b1 then
              match r1 with
              | [] => []
              | b2 :: r2 =>
                  if in_range 128 191 b2 then
                    match r2 with
                    | [] => []
                    | b3 :: r3 =>
                        if in_range 128 191 b3
                        then b0 :: b1 :: b2 :: b3 :: utf8_ignore r3
                        else utf8_ignore r2
                    end
                  else utf8_ignore r1
              end
            else utf8_ignore r0
        end
      else utf8_ignore r0
  end.

#[export] Instance mini_codec : Codec := {
  json_loads := mini_loads;
  json_dumps := mini_dumps;
  encode_utf8 := list_byte_of_string;
  decode_utf8_ignore := fun b => string_of_list_byte (utf8_ignore b)
}.
End MiniCodec.

(** ** A scripted platform

    A world that answers the calls it receives, in order, from a list of
    prepared replies: a way to write down one behaviour of the platform and
    run the code against it. *)
Module Scripted.

Inductive reply : Type :=
| RApp (a : modal_app)
| RVolume (v : modal_volume)
| RSandbox (sb : modal_sandbox)
| RProc (p : proc)
| RDone
| RData (d : data)
| RRaise (e : exn).

Record script_world : Type := {
  replies : list reply;
  returncode : outcome (option json)
}.

Definition exhausted : exn := OtherError "connection closed".
Definition mismatch : exn := OtherError "unexpected reply".

(** Takes the next reply and reads it as the result of the call. *)
Definition answer {A} (read : reply -> option A) (w : script_world) : script_world * outcome A :=
  match replies w with
  | [] => (w, Raise exhausted)
  | r :: rest =>
      ({| replies := rest; returncode := returncode w |},
       match r with
       | RRaise e => Raise e
       | _ => match read r with Some a => Ret a | None => Raise mismatch end
       end)
  end.

Definition as_app r := match r with RApp a => Some a | _ => None end.
Definition as_volume r := match r with RVolume v => Some v | _ => None end.
Definition as_sandbox r := match r with RSandbox sb => Some sb | _ => None end.
Definition as_proc r := match r with RProc p => Some p | _ => None end.
Definition as_done r := match r with RDone => Some tt | _ => None end.
Definition as_data r := match r with RData d => Some d | _ => None end.

#[export] Instance scripted_platform : Platform script_world := {
  app_lookup w _ := answer as_app w;
  volume_from_name w _ := answer as_volume w;
  sandbox_create w _ := answer as_sandbox w;
  sandbox_exec w _ _ _ := answer as_proc w;
  writer_write w _ _ := answer as_done w;
  writer_drain w _ := answer as_done w;
  stream_recv w _ _ _ := answer as_data w;
  proc_wait w _ := answer as_done w;
  proc_returncode w _ := returncode w;
  sandbox_terminate w _ := answer as_done w
}.

Definition script (rs : list reply) : script_world :=
  {| replies := rs; returncode := Ret (Some (JNum 0)) |}.

(** Handles to write scripts with: a process with the three streams, whose
    stdout is an asynchronous iterator. *)
Definition reader (n : nat) : stream :=
  {| stream_id := n; s_anext := true; s_aiter := Some true;
     s_readline := false; s_read := true |}.

Definition process (n : nat) : proc :=
  {| proc_id := n; stdin := Some {| writer_id := n |};
     stdout := Some (reader (2 * n)); stderr := Some (reader (2 * n + 1)) |}.

Definition the_sandbox : modal_sandbox := {| object_id := "sb-1" |}.

Definition line (s : string) : reply := RData (DBytes (list_byte_of_string (s +:+ nl))).
End Scripted.

(** A stand-in for Python, to run the resident loop on concrete input:
    every snippet returns, having printed its own text, and the namespace
    keeps the list of the snippets run. *)
Module Echo.
#[export] Instance echo_interpreter : Interpreter (list json) := {
  empty_namespace := [];
  py_exec code ns :=
    (ns ++ [code], Finished match code with JStr s => s | _ => "" end "")
}.
End Echo.

(** * Reasoning about runs *)

Definition state_of {S A} (r : S * list event * outcome A) : S := fst (fst r).
Definition trace_of {S A} (r : S * list event * outcome A) : list event := snd (fst r).
Definition outcome_of {S A} (r : S * list event * outcome A) : outcome A := snd r.

Lemma run_eta {S A} (r : S * list event * outcome A) :
  r = (state_of r, trace_of r, outcome_of r).
Proof. destruct r as [[s t] o]; reflexivity. Qed.

Lemma state_of_run {S A} (s : S) (t : list event) (o : outcome A) :
  state_of (s, t, o) = s.
Proof. reflexivity. Qed.

Lemma trace_of_run {S A} (s : S) (t : list event) (o : outcome A) :
  trace_of (s, t, o) = t.
Proof. reflexivity. Qed.

Lemma outcome_of_run {S A} (s : S) (t : list event) (o : outcome A) :
  outcome_of (s, t, o) = o.
Proof. reflexivity. Qed.

Ltac norm_run := rewrite ?state_of_run, ?trace_of_run, ?outcome_of_run in *.

Lemma bind_run {S A B} (m : M S A) (k : A -> M S B) (s : S) :
  bind m k s =
  match outcome_of (m s) with
  | Ret a =>
      (state_of (k a (state_of (m s))),
       trace_of (m s) ++ trace_of (k a (state_of (m s))),
       outcome_of (k a (state_of (m s))))
  | Raise e => (state_of (m s), trace_of (m s), Raise e)
  end.
Proof.
  unfold bind, state_of, trace_of, outcome_of.
  destruct (m s) as [[s1 t1] [a | e]]; simpl; [| reflexivity].
  destruct (k a s1) as [[s2 t2] o2]; reflexivity.
Qed.

Lemma try_except_run {S A} (m : M S A) (h : exn -> M S A) (s : S) :
  try_except m h s =
  match outcome_of (m s) with
  | Ret a => (state_of (m s), trace_of (m s), Ret a)
  | Raise e =>
      (state_of (h e (state_of (m s))),
       trace_of (m s) ++ trace_of (h e (state_of (m s))),
       outcome_of (h e (state_of (m s))))
  end.
Proof.
  unfold try_except, state_of, trace_of, outcome_of.
  destruct (m s) as [[s1 t1] [a | e]]; simpl; [reflexivity |].
  destruct (h e s1) as [[s2 t2] o2]; reflexivity.
Qed.

Lemma finally_run {S A} (m : M S A) (c : M S unit) (s : S) :
  finally m c s =
  (state_of (c (state_of (m s))),
   trace_of (m s) ++ trace_of (c (state_of (m s))),
   match outcome_of (c (state_of (m s))) with
   | Ret _ => outcome_of (m s)
   | Raise e => Raise e
   end).
Proof.
  unfold finally, state_of, trace_of, outcome_of.
  destruct (m s) as [[s1 t1] o]; simpl.
  destruct (c s1) as [[s2 t2] oc]; reflexivity.
Qed.

(** ** Monitors over the trace

    A monitor reads the trace event by event and may reject it.  A triple
    [triple P m Q] says: from a state and a monitor state related by [P],
    the trace of [m] is accepted and [Q] relates the outcome, the final
    state and the monitor state reached. *)
Section Monitors.
Context {S X : Type} (observe : X -> event -> option X).

Fixpoint scan (x : X) (tr : list event) : option X :=
  match tr with
  | [] => Some x
  | ev :: tr' =>
      match observe x ev with
      | Some x' => scan x' tr'
      | None => None
      end
  end.

Lemma scan_app (x : X) (t1 t2 : list event) :
  scan x (t1 ++ t2) =
  match scan x t1 with Some x' => scan x' t2 | None => None end.
Proof.
  revert x; induction t1 as [| ev t1 IH]; intros x; simpl; [reflexivity |].
  destruct (observe x ev); [apply IH | reflexivity].
Qed.

Definition triple {A} (P : S -> X -> Prop) (m : M S A)
    (Q : outcome A -> S -> X -> Prop) : Prop :=
  forall s x, P s x ->
    exists x', scan x (trace_of (m s)) = Some x' /\
               Q (outcome_of (m s)) (state_of (m s)) x'.

Lemma triple_conseq {A} (P P' : S -> X -> Prop) (Q Q' : outcome A -> S -> X -> Prop)
    (m : M S A) :
  triple P' m Q' ->
  (forall s x, P s x -> P' s x) ->
  (forall o s x, Q' o s x -> Q o s x) ->
  triple P m Q.
Proof.
  intros Hm HP HQ s x Hs.
  destruct (Hm s x (HP _ _ Hs)) as (x' & Hscan & Hq).
  exists x'; split; [assumption | apply HQ, Hq].
Qed.

Lemma triple_ret {A} (P : S -> X -> Prop) (Q : outcome A -> S -> X -> Prop) (a : A) :
  (forall s x, P s x -> Q (Ret a) s x) -> triple P (ret a) Q.
Proof. intros HQ s x Hs. exists x; split; [reflexivity | apply HQ, Hs]. Qed.

Lemma triple_raise {A} (P : S -> X -> Prop) (Q : outcome A -> S -> X -> Prop) (e : exn) :
  (forall s x, P s x -> Q (Raise e) s x) -> triple P (raise e) Q.
Proof. intros HQ s x Hs. exists x; split; [reflexivity | apply HQ, Hs]. Qed.

Lemma triple_lift {A} (P : S -> X -> Prop) (Q : outcome A -> S -> X -> Prop)
    (o : outcome A) :
  (forall s x, P s x -> Q o s x) -> triple P (lift_outcome o) Q.
Proof. intros HQ s x Hs. exists x; split; [reflexivity | apply HQ, Hs]. Qed.

Lemma triple_bind {A B} (P : S -> X -> Prop) (R : outcome A -> S -> X -> Prop)
    (Q : outcome B -> S -> X -> Prop) (m : M S A) (k : A -> M S B) :
  triple P m R ->
  (forall a, triple (R (Ret a)) (k a) Q) ->
  (forall e s x, R (Raise e) s x -> Q (Raise e) s x) ->
  triple P (bind m k) Q.
Proof.
  intros Hm Hk He s x Hs.
  destruct (Hm s x Hs) as (x1 & Hscan1 & Hr).
  rewrite bind_run.
  destruct (outcome_of (m s)) as [a | e].
  - destruct (Hk a _ _ Hr) as (x2 & Hscan2 & Hq).
    exists x2; split; [| exact Hq].
    unfold trace_of at 1; simpl. rewrite scan_app, Hscan1. exact Hscan2.
  - exists x1; split; [exact Hscan1 | apply He, Hr].
Qed.

Lemma triple_try {A} (P : S -> X -> Prop) (R Q : outcome A -> S -> X -> Prop)
    (m : M S A) (h : exn -> M S A) :
  triple P m R ->
  (forall a s x, R (Ret a) s x -> Q (Ret a) s x) ->
  (forall e, triple (R (Raise e)) (h e) Q) ->
  triple P (try_except m h) Q.
Proof.
  intros Hm Ha Hh s x Hs.
  destruct (Hm s x Hs) as (x1 & Hscan1 & Hr).
  rewrite try_except_run.
  destruct (outcome_of (m s)) as [a | e].
  - exists x1; split; [exact Hscan1 | apply Ha, Hr].
  - destruct (Hh e _ _ Hr) as (x2 & Hscan2 & Hq).
    exists x2; split; [| exact Hq].
    unfold trace_of at 1; simpl. rewrite scan_app, Hscan1. exact Hscan2.
Qed.

Lemma triple_finally {A} (P : S -> X -> Prop) (R Q : outcome A -> S -> X -> Prop)
    (m : M S A) (c : M S unit) :
  triple P m R ->
  (forall o,
      triple (R o) c
        (fun oc s x => Q match oc with Ret _ => o | Raise e => Raise e end s x)) ->
  triple P (finally m c) Q.
Proof.
  intros Hm Hc s x Hs.
  destruct (Hm s x Hs) as (x1 & Hscan1 & Hr).
  rewrite finally_run.
  destruct (Hc _ _ _ Hr) as (x2 & Hscan2 & Hq).
  exists x2; split; [| exact Hq].
  unfold trace_of at 1; simpl. rewrite scan_app, Hscan1. exact Hscan2.
Qed.

(** A computation keeps an invariant, however it ends. *)
Definition preserves {A} (I : S -> X -> Prop) (m : M S A) : Prop :=
  triple I m (fun _ => I).

Lemma preserves_ret {A} (I : S -> X -> Prop) (a : A) : preserves I (ret a).
Proof. apply triple_ret; auto. Qed.

Lemma preserves_raise {A} (I : S -> X -> Prop) (e : exn) : preserves I (@raise S A e).
Proof. apply triple_raise; auto. Qed.

Lemma preserves_lift {A} (I : S -> X -> Prop) (o : outcome A) :
  preserves I (@lift_outcome S A o).
Proof. apply triple_lift; auto. Qed.

Lemma preserves_bind {A B} (I : S -> X -> Prop) (m : M S A) (k : A -> M S B) :
  preserves I m -> (forall a, preserves I (k a)) -> preserves I (bind m k).
Proof. intros Hm Hk. eapply triple_bind; [exact Hm | exact Hk | auto]. Qed.

Lemma preserves_try {A} (I : S -> X -> Prop) (m : M S A) (h : exn -> M S A) :
  preserves I m -> (forall e, preserves I (h e)) -> preserves I (try_except m h).
Proof. intros Hm Hh. eapply triple_try; [exact Hm | auto | exact Hh]. Qed.

Lemma preserves_suppress (I : S -> X -> Prop) (cls : exn -> bool) (m : M S unit) :
  preserves I m -> preserves I (suppress cls m).
Proof.
  intros Hm. apply preserves_try; [exact Hm |].
  intros e; destruct (cls e); [apply preserves_ret | apply preserves_raise].
Qed.

Lemma preserves_finally {A} (I : S -> X -> Prop) (m : M S A) (c : M S unit) :
  preserves I m -> preserves I c -> preserves I (finally m c).
Proof.
  intros Hm Hc. eapply triple_finally; [exact Hm |].
  intros o. eapply triple_conseq; [exact Hc | auto | auto].
Qed.
End Monitors.

(** ** Rules for the methods' primitives *)

Section MethodRules.
Context {codec : Codec} {W : Type} {platform : Platform W}
  {X : Type} (observe : X -> event -> option X).

#[local] Abbreviation St := (@St W).

Lemma on_world_call_run {A} (op : W -> W * outcome A) (ev : outcome A -> event) (st : St) :
  on_world (platform_call op ev) st =
  ({| world := fst (op (world st)); self := self st |},
   [ev (snd (op (world st)))], snd (op (world st))).
Proof.
  unfold on_world, zoom, platform_call.
  destruct (op (world st)) as [w' r]; reflexivity.
Qed.

(** A call to the platform: the world moves, [self] stays, one event. *)
Lemma triple_call {A} (P : St -> X -> Prop) (Q : outcome A -> St -> X -> Prop)
    (op : W -> W * outcome A) (ev : outcome A -> event) :
  (forall st x w' r, P st x ->
     exists x', observe x (ev r) = Some x' /\ Q r {| world := w'; self := self st |} x') ->
  triple observe P (on_world (platform_call op ev)) Q.
Proof.
  intros Hleaf st x Hp. rewrite on_world_call_run.
  destruct (Hleaf st x (fst (op (world st))) (snd (op (world st))) Hp) as (x' & Hobs & Hq).
  exists x'; split; [| exact Hq].
  unfold trace_of; simpl. rewrite Hobs. reflexivity.
Qed.

Lemma triple_get_self {A} (P : St -> X -> Prop) (Q : outcome A -> St -> X -> Prop)
    (k : Sandbox -> M St A) :
  (forall me, triple observe (fun st x => P st x /\ self st = me) (k me) Q) ->
  triple observe P (bind get_self k) Q.
Proof.
  intros Hk st x Hp. rewrite bind_run. unfold get_self; simpl.
  destruct (Hk (self st) st x (conj Hp eq_refl)) as (x' & Hscan & Hq).
  exists x'; split; [exact Hscan | exact Hq].
Qed.

Lemma triple_set_python_proc (P : St -> X -> Prop) (Q : outcome unit -> St -> X -> Prop)
    (p : option proc) :
  (forall st x, P st x ->
     Q (Ret tt)
       {| world := world st;
          self := {| session_id := session_id (self st); _sandbox := _sandbox (self st);
                     _python_proc := p |} |} x) ->
  triple observe P (set_python_proc p) Q.
Proof. intros HQ st x Hp. exists x; split; [reflexivity | apply HQ, Hp]. Qed.

Lemma preserves_set_python_proc (I : St -> X -> Prop) (p : option proc) :
  (forall st x, I st x ->
     I {| world := world st;
          self := {| session_id := session_id (self st); _sandbox := _sandbox (self st);
                     _python_proc := p |} |} x) ->
  preserves observe I (set_python_proc p).
Proof. intros Hi. apply triple_set_python_proc. exact Hi. Qed.

(** An invariant that does not read the world. *)
Definition world_free (I : St -> X -> Prop) : Prop :=
  forall st x w, I st x -> I {| world := w; self := self st |} x.

(** An event the monitor lets pass unchanged. *)
Definition transparent (ev : event) : Prop := forall x, observe x ev = Some x.

Lemma preserves_call {A} (I : St -> X -> Prop)
    (op : W -> W * outcome A) (ev : outcome A -> event) :
  world_free I -> (forall r, transparent (ev r)) ->
  preserves observe I (on_world (platform_call op ev)).
Proof.
  intros Hwf Htr. apply triple_call. intros st x w' r Hi.
  exists x; split; [apply Htr | apply Hwf, Hi].
Qed.

Lemma preserves_get_self {A} (I : St -> X -> Prop) (k : Sandbox -> M St A) :
  (forall me, preserves observe I (k me)) -> preserves observe I (bind get_self k).
Proof.
  intros Hk. apply triple_get_self. intros me.
  eapply triple_conseq; [apply Hk | | auto]. intros st x [Hi _]; exact Hi.
Qed.

Lemma preserves_returncode (I : St -> X -> Prop) (p : proc) :
  preserves observe I (on_world (call_returncode p)).
Proof.
  intros st x Hi. exists x. split; [reflexivity |].
  unfold state_of, on_world, zoom, call_returncode; simpl. destruct st; exact Hi.
Qed.

Section Reads.
Variable I : St -> X -> Prop.
Hypothesis I_world_free : world_free I.
Hypothesis recv_transparent : forall s k wait r, transparent (EvRecv s k wait r).

Lemma preserves_recv (s : stream) (k : read_kind) (wait : option Z) :
  preserves observe I (on_world (call_recv s k wait)).
Proof. apply preserves_call; [assumption | intros r; apply recv_transparent]. Qed.

Lemma preserves_read_stream (stream : option stream) (wait : option Z) :
  preserves observe I (_read_stream stream wait).
Proof.
  unfold _read_stream. destruct stream as [s |]; [| apply preserves_ret].
  destruct (s_read s); [apply preserves_recv | apply preserves_ret].
Qed.

Lemma preserves_anext_or_empty (s : stream) (k : read_kind) (wait : option Z) :
  preserves observe I (anext_or_empty s k wait).
Proof.
  unfold anext_or_empty. apply preserves_try; [apply preserves_recv |].
  intros e; destruct e; first [apply preserves_ret | apply preserves_raise].
Qed.

Lemma preserves_readline (stream : option stream) (wait : option Z) :
  preserves observe I (_readline stream wait).
Proof.
  unfold _readline. destruct stream as [s |]; [| apply preserves_ret].
  destruct (s_anext s); [apply preserves_anext_or_empty |].
  destruct (s_aiter s) as [[|] |];
    first [ apply preserves_anext_or_empty
          | destruct (s_readline s);
            [apply preserves_recv | apply (preserves_read_stream (Some s))] ].
Qed.
End Reads.
End MethodRules.

(** ** Counting restarts *)

Definition is_restart (ev : event) : bool :=
  match ev with EvRestart => true | _ => false end.

(** The number of entries into [_restart_python_session] a trace records. *)
Definition restarts (tr : list event) : nat := length (List.filter is_restart tr).

Lemma restarts_app (t1 t2 : list event) :
  restarts (t1 ++ t2) = (restarts t1 + restarts t2)%nat.
Proof. unfold restarts. rewrite List.filter_app, length_app. reflexivity. Qed.

(** The monitor that counts them. *)
Definition count_restart (n : nat) (ev : event) : option nat :=
  Some (if is_restart ev then S n else n).

Lemma scan_count (n : nat) (tr : list event) :
  scan count_restart n tr = Some (n + restarts tr)%nat.
Proof.
  revert n; induction tr as [| ev tr IH]; intros n; simpl.
  - f_equal. unfold restarts; simpl. lia.
  - rewrite IH. f_equal. unfold restarts; simpl.
    destruct (is_restart ev); simpl; lia.
Qed.

Lemma count_transparent (ev : event) :
  is_restart ev = false -> transparent count_restart ev.
Proof. intros Hev n. unfold count_restart. rewrite Hev. reflexivity. Qed.

(** Shapes of a result. *)
Definition success_shaped (r : ExecutionResult) : Prop := error r = None.
Definition timeout_shaped (timeout : Z) (r : ExecutionResult) : Prop :=
  r = timeout_result timeout.
Definition failure_shaped (r : ExecutionResult) : Prop :=
  exists msg, r = failure_result msg.

(** Applies the structural rules for [preserves]; [leaf] closes the side
    conditions of the calls to the platform. *)
Ltac preserves_with leaf :=
  repeat
    lazymatch goal with
    | |- preserves _ _ (bind get_self _) => apply preserves_get_self; intros ?
    | |- preserves _ _ (bind _ _) => apply preserves_bind; [| intros ?]
    | |- preserves _ _ (try_except _ _) => apply preserves_try; [| intros ?]
    | |- preserves _ _ (finally _ _) => apply preserves_finally
    | |- preserves _ _ (suppress _ _) => apply preserves_suppress
    | |- preserves _ _ (ret _) => apply preserves_ret
    | |- preserves _ _ (raise _) => apply preserves_raise
    | |- preserves _ _ (lift_outcome _) => apply preserves_lift
    | |- preserves _ _ (_read_stream _ _) => apply preserves_read_stream; leaf
    | |- preserves _ _ (_readline _ _) => apply preserves_readline; leaf
    | |- preserves _ _ (on_world (call_returncode _)) => apply preserves_returncode
    | |- preserves _ _ (set_python_proc _) => apply preserves_set_python_proc; leaf
    | |- preserves _ _ (on_world _) => apply preserves_call; leaf
    | |- preserves _ _ (match ?x with _ => _ end) => destruct x
    | |- preserves _ _ (if ?x then _ else _) => destruct x
    end.

(** Unfolds the monad and the calls, for proofs that follow one run. *)
Ltac unfold_run :=
  unfold bind, get_self, set_python_proc, on_world, zoom, call_exec, call_recv, call_write,
    call_drain, call_wait, call_terminate, call_returncode, platform_call, ret, raise,
    lift_outcome, outcome_of, trace_of, state_of in *.

Ltac as_preserves :=
  match goal with |- triple ?o ?I ?m _ => change (preserves o I m) end.

Section Frames.
Context {codec : Codec} {W : Type} {platform : Platform W}.

#[local] Abbreviation St := (@St W).

(** [self] is the object [obj] and the count of restarts stands at [n]. *)
Definition untouched (obj : Sandbox) (n : nat) (st : St) (x : nat) : Prop :=
  self st = obj /\ x = n.

Lemma untouched_world_free obj n : world_free (untouched obj n).
Proof. intros st x w [Hs Hx]; split; assumption. Qed.

Ltac quiet_leaf :=
  first [ apply untouched_world_free
        | intros; apply count_transparent; reflexivity ].

Lemma bash_attempt_untouched (command : string) (timeout : Z) (obj : Sandbox) (n : nat) :
  preserves count_restart (untouched obj n) (bash_attempt command timeout).
Proof. unfold bash_attempt. preserves_with quiet_leaf. Qed.

Lemma communicate_untouched (payload : json) (timeout : Z) (obj : Sandbox) (n : nat) :
  preserves count_restart (untouched obj n) (_communicate_with_python payload timeout).
Proof. unfold _communicate_with_python. preserves_with quiet_leaf. Qed.

(** What a monitor-level fact about the count says of the trace. *)
Lemma untouched_run {A} (m : M St A) (st : St) :
  preserves count_restart (untouched (self st) 0) m ->
  self (state_of (m st)) = self st /\ restarts (trace_of (m st)) = 0%nat.
Proof.
  intros Hm. destruct (Hm st 0%nat (conj eq_refl eq_refl)) as (x' & Hscan & Hs & Hx).
  rewrite scan_count in Hscan. split; [exact Hs |]. simplify_eq. lia.
Qed.
End Frames.

(** * The command runner *)

Section CommandRunner.
Context {codec : Codec} {W : Type} {platform : Platform W}.

#[local] Abbreviation St := (@St W).

(** What [_read_stream] hands back for a stream, as the trace records it. *)
Definition captured (s : option stream) (d : data) (tr : list event) : Prop :=
  match s with
  | Some rd =>
      if s_read rd then In (EvRecv rd ByRead None (Ret d)) tr else d = DBytes []
  | None => d = DBytes []
  end.

(** The result [execute_bash] makes of the way its [try] body ends. *)
Definition bash_result (timeout : Z) (o : outcome ExecutionResult) : ExecutionResult :=
  match o with
  | Ret r => r
  | Raise exc =>
      if is_timeout exc then timeout_result timeout else failure_result (str_exn exc)
  end.

Lemma execute_bash_run (command : string) (timeout : Z) (st : St) :
  execute_bash command timeout st =
  (state_of (bash_attempt command timeout st),
   trace_of (bash_attempt command timeout st),
   Ret (bash_result timeout (outcome_of (bash_attempt command timeout st)))).
Proof.
  unfold execute_bash. rewrite try_except_run.
  destruct (outcome_of (bash_attempt command timeout st)) as [r | e]; simpl;
    [reflexivity |].
  destruct (is_timeout e); unfold state_of, trace_of, outcome_of; simpl;
    rewrite app_nil_r; reflexivity.
Qed.

Lemma bash_attempt_completes (command : string) (timeout : Z) (st : St)
    (r : ExecutionResult) :
  outcome_of (bash_attempt command timeout st) = Ret r ->
  exists process out err rc,
    let tr := trace_of (bash_attempt command timeout st) in
    In (EvExec (_sandbox (self st)) (bash_argv command) timeout (Ret process)) tr /\
    captured (stdout process) out tr /\
    captured (stderr process) err tr /\
    In (EvWait process (Ret tt)) tr /\
    proc_returncode (world (state_of (bash_attempt command timeout st))) process = Ret rc /\
    r = {| success := returncode_is_zero rc;
           stdout_text := JStr (_decode_stream out);
           stderr_text := JStr (_decode_stream err);
           error := None |}.
Proof.
  unfold bash_attempt, _read_stream. unfold_run. simpl.
  destruct (sandbox_exec _ _ _ _) as [w1 [process | e]]; simpl; [| discriminate].
  unfold captured.
  destruct (stdout process) as [so |] eqn:Hso, (stderr process) as [se |] eqn:Hse; simpl.
  all: repeat match goal with
       | |- context [s_read ?s] => destruct (s_read s) eqn:?; simpl
       | |- context [stream_recv ?w ?s ?k ?t] =>
           destruct (stream_recv w s k t) as [? [? | ?]]; simpl; [| discriminate]
       | |- context [proc_wait ?w ?p] =>
           destruct (proc_wait w p) as [? [[] | ?]]; simpl; [| discriminate]
       | |- context [proc_returncode ?w ?p] =>
           destruct (proc_returncode w p) as [? | ?] eqn:?; simpl; [| discriminate]
       end.
  all: intros [= <-]; exists process; rewrite Hso, Hse; eexists _, _, _; cbv zeta; simpl.
  all: repeat match goal with Hr : s_read _ = _ |- _ => rewrite Hr; clear Hr end.
  all: split; [left; reflexivity |].
  all: split; [first [reflexivity | eauto 10] |].
  all: split; [first [reflexivity | eauto 10] |].
  all: split; [eauto 10 |].
  all: split; [eassumption | reflexivity].
Qed.

(** [execute_bash] hands every way its body ends back as a result. *)
Lemma execute_bash_returns (command : string) (timeout : Z) (st : St) :
  exists r, outcome_of (execute_bash command timeout st) = Ret r /\
            (success_shaped r \/ timeout_shaped timeout r \/ failure_shaped r).
Proof.
  rewrite execute_bash_run. eexists; split; [reflexivity |].
  destruct (outcome_of (bash_attempt command timeout st)) as [r | e] eqn:Ho; simpl.
  - left. apply bash_attempt_completes in Ho.
    destruct Ho as (? & ? & ? & ? & Ho). cbv zeta in Ho.
    destruct Ho as (_ & _ & _ & _ & _ & ->). reflexivity.
  - destruct (is_timeout e); [right; left; reflexivity | right; right; eexists; reflexivity].
Qed.

(** C8.  What [execute_bash] returns: when the one-shot process is spawned,
    both streams are read and the wait returns, a success-shaped result
    whose flag says whether the return code is 0 and which carries the two
    captured streams, decoded; when a step raises [TimeoutError], the
    timeout result; when it raises anything else, the failure result with
    the text of the exception.  The fields of the object are not touched
    and no restart is made. *)
Theorem execute_bash_outcomes (command : string) (timeout : Z) (st : St) :
  let attempt := bash_attempt command timeout st in
  let run := execute_bash command timeout st in
  (self (state_of run) = self st /\ restarts (trace_of run) = 0%nat) /\
  (forall r, outcome_of attempt = Ret r ->
     outcome_of run = Ret r /\ success_shaped r /\
     exists process out err rc,
       In (EvExec (_sandbox (self st)) (bash_argv command) timeout (Ret process))
          (trace_of run) /\
       captured (stdout process) out (trace_of run) /\
       captured (stderr process) err (trace_of run) /\
       In (EvWait process (Ret tt)) (trace_of run) /\
       proc_returncode (world (state_of run)) process = Ret rc /\
       success r = returncode_is_zero rc /\
       (forall z, rc = Some (JNum z) -> (success r = true <-> z = 0)) /\
       stdout_text r = JStr (_decode_stream out) /\
       stderr_text r = JStr (_decode_stream err)) /\
  (forall e, outcome_of attempt = Raise e -> is_timeout e = true ->
     outcome_of run = Ret (timeout_result timeout)) /\
  (forall e, outcome_of attempt = Raise e -> is_timeout e = false ->
     outcome_of run = Ret (failure_result (str_exn e))).
Proof.
  cbv zeta. rewrite execute_bash_run.
  change (state_of (?s, ?t, ?o)) with s. change (trace_of (?s, ?t, ?o)) with t.
  change (outcome_of (?s, ?t, ?o)) with o.
  split; [apply untouched_run, bash_attempt_untouched |].
  split; [| split; intros e -> He; simpl; rewrite He; reflexivity].
  intros r Hr. rewrite Hr. split; [reflexivity |].
  destruct (bash_attempt_completes _ _ _ _ Hr) as (process & out & err & rc & Hc).
  cbv zeta in Hc. destruct Hc as (Hexec & Hout & Herr & Hwait & Hrc & ->).
  split; [reflexivity |].
  exists process, out, err, rc. repeat split; try assumption.
  - simpl. intros Hz. subst rc. simpl in Hz. lia.
  - intros ->. subst rc. reflexivity.
Qed.
End CommandRunner.

(** * The interpreter session *)

(** The monitor that accepts every trace. *)
Definition pass (x : unit) (ev : event) : option unit := Some x.

Lemma pass_transparent (ev : event) : transparent pass ev.
Proof. intros x; reflexivity. Qed.

Section Session.
Context {codec : Codec} {W : Type} {platform : Platform W}.
#[local] Abbreviation St := (@St W).

(** [self] is the object [obj]. *)
Definition self_is (obj : Sandbox) (st : St) (x : unit) : Prop := self st = obj.

Lemma self_is_world_free obj : world_free (self_is obj).
Proof. intros st x w Hs; exact Hs. Qed.

Ltac pass_leaf := first [ apply self_is_world_free | intros; apply pass_transparent ].

Lemma triple_suppress_all {X : Type} (observe : X -> event -> option X)
    (I : St -> X -> Prop) (m : M St unit) :
  preserves observe I m ->
  triple observe I (suppress (fun _ => true) m) (fun o st x => o = Ret tt /\ I st x).
Proof.
  intros Hm. unfold suppress. eapply triple_try; [exact Hm | |].
  - intros [] st x Hi. split; [reflexivity | exact Hi].
  - intros e. apply triple_ret. intros st x Hi. split; [reflexivity | exact Hi].
Qed.

Definition without_process (obj : Sandbox) : Sandbox :=
  {| session_id := session_id obj; _sandbox := _sandbox obj; _python_proc := None |}.

(** [_stop_python_session] never raises and leaves no process handle. *)
Lemma stop_triple (obj : Sandbox) :
  triple pass (self_is obj) _stop_python_session
    (fun o st _ => o = Ret tt /\ self st = without_process obj).
Proof.
  unfold _stop_python_session. apply triple_get_self. intros me.
  destruct (_python_proc me) as [p |] eqn:Hp.
  - eapply triple_finally with (R := fun o st _ => o = Ret tt /\ self st = obj).
    + eapply triple_try with (R := fun _ => self_is obj).
      * eapply triple_conseq
          with (P' := self_is obj) (Q' := fun _ => self_is obj);
          [| intros st x [Hs _]; exact Hs | auto].
        as_preserves.
        preserves_with pass_leaf.
      * intros [] st x Hs. split; [reflexivity | exact Hs].
      * intros e. apply triple_ret. intros st x Hs. split; [reflexivity | exact Hs].
    + intros o.
      eapply triple_bind
        with (R := fun o' st _ => o' = Ret tt /\ o = Ret tt /\ self st = obj).
      * eapply triple_conseq
          with (P' := fun st x => o = Ret tt /\ self_is obj st x)
               (Q' := fun o' st x => o' = Ret tt /\ o = Ret tt /\ self_is obj st x);
          [| auto | auto].
        intros st x [Ho Hs].
        destruct (triple_suppress_all pass (self_is obj) (on_world (call_wait p))
                    ltac:(preserves_with pass_leaf) st x Hs) as (x' & Hscan & Ho' & Hs').
        exists x'. auto.
      * intros []. apply triple_set_python_proc. intros st x (_ & -> & Hs). simpl.
        split; [reflexivity |]. rewrite Hs. reflexivity.
      * intros e st x (He & _). discriminate He.
  - apply triple_ret. intros st x [Hs <-]. split; [reflexivity |].
    unfold self_is in Hs. rewrite Hs in *. unfold without_process. rewrite <- Hp.
    destruct obj; reflexivity.
Qed.

Lemma stop_run (st : St) :
  outcome_of (_stop_python_session st) = Ret tt /\
  self (state_of (_stop_python_session st)) = without_process (self st).
Proof.
  destruct (stop_triple (self st) st tt eq_refl) as (_ & _ & Ho & Hs).
  split; assumption.
Qed.

(** The count of restarts stands at [n]. *)
Definition count_is (n : nat) (st : St) (x : nat) : Prop := x = n.

Lemma count_is_world_free n : world_free (count_is n).
Proof. intros st x w Hx; exact Hx. Qed.

Ltac count_leaf :=
  first [ apply count_is_world_free
        | intros; apply count_transparent; reflexivity
        | intros ? ? Hx; exact Hx ].

Lemma count_is_run {A} (m : M St A) (st : St) :
  preserves count_restart (count_is 0) m -> restarts (trace_of (m st)) = 0%nat.
Proof.
  intros Hm. destruct (Hm st 0%nat eq_refl) as (x' & Hscan & Hx).
  rewrite scan_count in Hscan. unfold count_is in Hx. simplify_eq. lia.
Qed.

Lemma communicate_no_restart (payload : json) (timeout : Z) (n : nat) :
  preserves count_restart (count_is n) (_communicate_with_python payload timeout).
Proof. unfold _communicate_with_python. preserves_with count_leaf. Qed.

Lemma start_no_restart (timeout : Z) (n : nat) :
  preserves count_restart (count_is n) (_start_python_session timeout).
Proof.
  unfold _start_python_session. preserves_with count_leaf.
  apply communicate_no_restart.
Qed.

Lemma stop_no_restart (n : nat) :
  preserves count_restart (count_is n) _stop_python_session.
Proof. unfold _stop_python_session. preserves_with count_leaf. Qed.

Lemma attempt_no_restart (code : string) (timeout : Z) (n : nat) :
  preserves count_restart (count_is n) (python_attempt code timeout).
Proof.
  unfold python_attempt, _ensure_python_session. preserves_with count_leaf.
  - apply start_no_restart.
  - apply communicate_no_restart.
Qed.

Lemma restart_once (timeout : Z) (st : St) :
  restarts (trace_of (_restart_python_session timeout st)) = 1%nat.
Proof.
  unfold _restart_python_session. rewrite bind_run. unfold mark at 1 2 3.
  norm_run. cbv beta iota. norm_run.
  rewrite restarts_app. rewrite count_is_run; [reflexivity |].
  preserves_with count_leaf; [apply stop_no_restart | apply start_no_restart].
Qed.

Section OneCall.
Variables (code : string) (timeout : Z) (st : St).

(** The steps of one call, each from the state the one before left. *)
Definition first_attempt := python_attempt code timeout st.
Definition first_restart := _restart_python_session timeout (state_of first_attempt).
Definition second_attempt := python_attempt code timeout (state_of first_restart).
Definition second_restart := _restart_python_session timeout (state_of second_attempt).

Lemma python_round_run (s : St) :
  python_round code timeout s =
  let A := python_attempt code timeout s in
  match outcome_of A with
  | Ret r => (state_of A, trace_of A, Ret (Return r))
  | Raise e =>
      if is_timeout e then (state_of A, trace_of A, Ret (Return (timeout_result timeout)))
      else
        let R := _restart_python_session timeout (state_of A) in
        (state_of R, trace_of A ++ trace_of R,
         match outcome_of R with
         | Ret _ => Ret (Continue e)
         | Raise e' => Raise e'
         end)
  end.
Proof.
  cbv zeta. unfold python_round. rewrite try_except_run, bind_run.
  destruct (outcome_of (python_attempt code timeout s)) as [r | e]; norm_run.
  - unfold ret; norm_run. rewrite app_nil_r. reflexivity.
  - destruct (is_timeout e).
    + unfold ret; norm_run. rewrite app_nil_r. reflexivity.
    + rewrite bind_run.
      destruct (outcome_of (_restart_python_session timeout _)); norm_run;
        [unfold ret; norm_run; rewrite app_nil_r |]; reflexivity.
Qed.

(** [execute_python], step by step. *)
Lemma execute_python_run :
  execute_python code timeout st =
  match outcome_of first_attempt with
  | Ret r => (state_of first_attempt, trace_of first_attempt, Ret r)
  | Raise e1 =>
      if is_timeout e1
      then (state_of first_attempt, trace_of first_attempt, Ret (timeout_result timeout))
      else
        match outcome_of first_restart with
        | Raise e => (state_of first_restart,
                      trace_of first_attempt ++ trace_of first_restart, Raise e)
        | Ret _ =>
            match outcome_of second_attempt with
            | Ret r =>
                (state_of second_attempt,
                 trace_of first_attempt ++ trace_of first_restart ++ trace_of second_attempt,
                 Ret r)
            | Raise e2 =>
                if is_timeout e2
                then
                  (state_of second_attempt,
                   trace_of first_attempt ++ trace_of first_restart
                     ++ trace_of second_attempt,
                   Ret (timeout_result timeout))
                else
                  match outcome_of second_restart with
                  | Raise e =>
                      (state_of second_restart,
                       trace_of first_attempt ++ trace_of first_restart
                         ++ trace_of second_attempt ++ trace_of second_restart,
                       Raise e)
                  | Ret _ =>
                      (state_of second_restart,
                       trace_of first_attempt ++ trace_of first_restart
                         ++ trace_of second_attempt ++ trace_of second_restart,
                       Ret (failure_result (str_exn e2)))
                  end
            end
        end
  end.
Proof.
  unfold execute_python, execute_python_loop.
  rewrite bind_run, python_round_run. cbv zeta. fold first_attempt.
  destruct (outcome_of first_attempt) as [r | e1]; norm_run.
  { unfold ret; norm_run. rewrite app_nil_r. reflexivity. }
  destruct (is_timeout e1); norm_run.
  { unfold ret; norm_run. rewrite app_nil_r. reflexivity. }
  fold first_restart.
  destruct (outcome_of first_restart) as [[] | e]; norm_run; [| reflexivity].
  rewrite bind_run, python_round_run. cbv zeta. fold second_attempt.
  destruct (outcome_of second_attempt) as [r | e2]; norm_run.
  { unfold ret; norm_run. rewrite app_nil_r, <- !app_assoc. reflexivity. }
  destruct (is_timeout e2); norm_run.
  { unfold ret; norm_run. rewrite app_nil_r, <- !app_assoc. reflexivity. }
  fold second_restart.
  destruct (outcome_of second_restart) as [[] | e]; norm_run.
  - unfold ret; norm_run. rewrite app_nil_r, <- !app_assoc. reflexivity.
  - rewrite <- !app_assoc. reflexivity.
Qed.
End OneCall.
End Session.

(** * Initialization before caller code *)

(** What the monitor of a session's trace remembers: the resident process
    spawned last, and whether the initialization request has been written
    to it since. *)
Record watch : Type := { current : option proc; initialised : bool }.

Definition is_resident (argv : list string) : bool := bool_decide (argv = resident_argv).

(** The payload [{"code": _PYTHON_SESSION_INIT}]. *)
Definition is_init_request (payload : json) : bool :=
  match payload with
  | JObj [(k, JStr c)] => String.eqb k "code" && String.eqb c _PYTHON_SESSION_INIT
  | _ => false
  end.

Definition writes_to_current (wr : writer) (x : watch) : bool :=
  match current x with
  | Some p => bool_decide (stdin p = Some wr)
  | None => false
  end.

(** The monitor: a control record is written only to the stdin of the
    process spawned last, and a record other than the initialization
    request only after that request was written to this process. *)
Definition init_first (x : watch) (ev : event) : option watch :=
  match ev with
  | EvExec _ argv _ (Ret p) =>
      if is_resident argv then Some {| current := Some p; initialised := false |}
      else Some x
  | EvWrite wr (Encoded payload) _ =>
      if writes_to_current wr x then
        if is_init_request payload
        then Some {| current := current x; initialised := true |}
        else if initialised x then Some x else None
      else None
  | _ => Some x
  end.

Lemma bash_not_resident (command : string) : is_resident (bash_argv command) = false.
Proof. apply bool_decide_eq_false. discriminate. Qed.

Lemma resident_is_resident : is_resident resident_argv = true.
Proof. apply bool_decide_eq_true. reflexivity. Qed.

Lemma init_request_is_init :
  is_init_request (code_request (JStr _PYTHON_SESSION_INIT)) = true.
Proof. unfold is_init_request, code_request. rewrite !String.eqb_refl. reflexivity. Qed.

(** A process spawned in the trace, when the monitor's process changed. *)
Lemma scan_current (tr : list event) (x x' : watch) (p : proc) :
  scan init_first x tr = Some x' -> current x' = Some p ->
  current x = Some p \/
  exists sb timeout, In (EvExec sb resident_argv timeout (Ret p)) tr.
Proof.
  revert x; induction tr as [| ev tr IH]; intros x Hscan Hp; simpl in Hscan.
  - left. congruence.
  - destruct (init_first x ev) as [x1 |] eqn:Hobs; [| discriminate].
    destruct (IH x1 Hscan Hp) as [Hc | (sb & t & Hin)].
    + destruct ev; simpl in Hobs; try (left; congruence).
      * destruct r as [q | e]; [| left; congruence].
        destruct (is_resident argv) eqn:Hres; [| left; congruence].
        apply bool_decide_eq_true in Hres. subst argv.
        right. exists sb, timeout. left. simplify_eq. simpl in Hc. congruence.
      * destruct m; [| left; congruence].
        destruct (writes_to_current w x); [| discriminate].
        destruct (is_init_request payload); [left; simplify_eq; exact Hc |].
        destruct (initialised x); [left; congruence | discriminate].
    + right. exists sb, t. right. exact Hin.
Qed.

(** The process an event spawns as the resident interpreter, if any. *)
Definition spawn_of (ev : event) : option proc :=
  match ev with
  | EvExec _ argv _ (Ret p) => if is_resident argv then Some p else None
  | _ => None
  end.

Definition no_spawn (tr : list event) : Prop := Forall (fun ev => spawn_of ev = None) tr.

Definition fresh_watch : watch := {| current := None; initialised := false |}.

Lemma spawn_of_Some (ev : event) (p : proc) :
  spawn_of ev = Some p ->
  exists sb timeout, ev = EvExec sb resident_argv timeout (Ret p).
Proof.
  destruct ev; simpl; try discriminate.
  destruct r as [q | e]; [| discriminate].
  destruct (is_resident argv) eqn:Hres; [| discriminate].
  apply bool_decide_eq_true in Hres. intros [= ->]. subst argv. eauto.
Qed.

(** What one accepted event does to the monitor. *)
Lemma init_first_cases (x x' : watch) (ev : event) :
  init_first x ev = Some x' ->
  match spawn_of ev with
  | Some p => x' = {| current := Some p; initialised := false |}
  | None =>
      current x' = current x /\
      (initialised x' = initialised x \/
       initialised x' = true /\
       exists wr c r, ev = EvWrite wr (Encoded c) r /\ is_init_request c = true /\
                      writes_to_current wr x = true)
  end.
Proof.
  destruct ev; simpl; try (intros [= <-]; auto).
  - destruct r as [q | e]; [| intros [= <-]; auto].
    destruct (is_resident argv); intros [= <-]; auto.
  - destruct m as [c | b]; [| intros [= <-]; auto].
    destruct (writes_to_current w x) eqn:Hw; [| discriminate].
    destruct (is_init_request c) eqn:Hc.
    + intros [= <-]. simpl. split; [reflexivity |]. right. split; [reflexivity |]. eauto 6.
    + destruct (initialised x) eqn:Hi; [intros [= <-]; auto | discriminate].
Qed.

(** The process the monitor holds was spawned in the trace, last. *)
Lemma scan_spawned (tr : list event) (x : watch) (p : proc) :
  scan init_first fresh_watch tr = Some x -> current x = Some p ->
  exists sb timeout ta tb,
    tr = ta ++ EvExec sb resident_argv timeout (Ret p) :: tb /\ no_spawn tb.
Proof.
  revert x p. induction tr as [| ev tr IH] using rev_ind; intros x p Hscan Hp.
  - simpl in Hscan. injection Hscan as <-. discriminate Hp.
  - rewrite scan_app in Hscan.
    destruct (scan init_first fresh_watch tr) as [xm |] eqn:Hm; [| discriminate].
    simpl in Hscan. destruct (init_first xm ev) as [x1 |] eqn:Hobs; [| discriminate].
    simplify_eq. apply init_first_cases in Hobs.
    destruct (spawn_of ev) as [q |] eqn:Hsp.
    + subst x. simpl in Hp. simplify_eq.
      destruct (spawn_of_Some _ _ Hsp) as (sb & t & ->).
      exists sb, t, tr, []. split; [reflexivity | constructor].
    + destruct Hobs as [Hc _]. rewrite Hc in Hp.
      destruct (IH xm p eq_refl Hp) as (sb & t & ta & tb & -> & Hns).
      exists sb, t, ta, (tb ++ [ev]). split.
      * rewrite <- app_assoc. reflexivity.
      * apply Forall_app. split; [exact Hns | constructor; [exact Hsp | constructor]].
Qed.

(** Once the monitor says "initialised", the initialization request was
    written to the stdin of the process spawned last, after its spawn. *)
Lemma scan_initialised (tr : list event) (x : watch) (p : proc) :
  scan init_first fresh_watch tr = Some x ->
  initialised x = true -> current x = Some p ->
  exists sb timeout ta tb wr c r tc,
    tr = ta ++ EvExec sb resident_argv timeout (Ret p)
            :: tb ++ EvWrite wr (Encoded c) r :: tc /\
    stdin p = Some wr /\ is_init_request c = true /\ no_spawn tb /\ no_spawn tc.
Proof.
  revert x p. induction tr as [| ev tr IH] using rev_ind; intros x p Hscan Hi Hp.
  - simpl in Hscan. injection Hscan as <-. discriminate Hi.
  - rewrite scan_app in Hscan.
    destruct (scan init_first fresh_watch tr) as [xm |] eqn:Hm; [| discriminate].
    simpl in Hscan. destruct (init_first xm ev) as [x1 |] eqn:Hobs; [| discriminate].
    simplify_eq. apply init_first_cases in Hobs.
    destruct (spawn_of ev) as [q |] eqn:Hsp; [subst x; discriminate Hi |].
    destruct Hobs as [Hc [Hsame | (_ & wr & c & r & -> & Hinit & Hw)]].
    + rewrite Hc in Hp. rewrite Hsame in Hi.
      destruct (IH xm p eq_refl Hi Hp)
        as (sb & t & ta & tb & wr & c & r & tc & -> & Hin & Hinit & Hb & Hcn).
      exists sb, t, ta, tb, wr, c, r, (tc ++ [ev]). repeat split; try assumption.
      * rewrite <- !app_assoc. simpl. rewrite <- !app_assoc. reflexivity.
      * apply Forall_app. split; [exact Hcn | constructor; [exact Hsp | constructor]].
    + rewrite Hc in Hp.
      destruct (scan_spawned tr xm p Hm Hp) as (sb & t & ta & tb & -> & Hb).
      unfold writes_to_current in Hw. rewrite Hp in Hw.
      apply bool_decide_eq_true in Hw.
      exists sb, t, ta, tb, wr, c, r, []. repeat split; try assumption.
      * rewrite <- !app_assoc. reflexivity.
      * constructor.
Qed.

(** In a trace the monitor accepts, a control record that is not the
    initialization request is written to the stdin of the process spawned
    last, and after the initialization request was written there. *)
Lemma accepted_caller_code (tr t1 t2 : list event) (x : watch)
    (wr : writer) (c : json) (r : outcome unit) :
  scan init_first fresh_watch tr = Some x ->
  tr = t1 ++ EvWrite wr (Encoded c) r :: t2 ->
  is_init_request c = false ->
  exists p sb timeout ta tb c0 r0 tc,
    t1 = ta ++ EvExec sb resident_argv timeout (Ret p)
            :: tb ++ EvWrite wr (Encoded c0) r0 :: tc /\
    stdin p = Some wr /\ is_init_request c0 = true /\ no_spawn tb /\ no_spawn tc.
Proof.
  intros Hscan -> Hc. rewrite scan_app in Hscan.
  destruct (scan init_first fresh_watch t1) as [x1 |] eqn:H1; [| discriminate].
  simpl in Hscan. rewrite Hc in Hscan.
  destruct (writes_to_current wr x1) eqn:Hw; [| discriminate].
  destruct (initialised x1) eqn:Hi; [| discriminate].
  unfold writes_to_current in Hw. destruct (current x1) as [p |] eqn:Hp; [| discriminate].
  apply bool_decide_eq_true in Hw.
  destruct (scan_initialised t1 x1 p H1 Hi Hp)
    as (sb & t & ta & tb & wr' & c0 & r0 & tc & -> & Hin & Hinit & Hb & Hcn).
  assert (wr' = wr) by congruence. subst wr'.
  exists p, sb, t, ta, tb, c0, r0, tc. repeat split; assumption.
Qed.

Section InitFirst.
Context {codec : Codec} {W : Type} {platform : Platform W}.
#[local] Abbreviation St := (@St W).

(** The invariant: the process [self] holds is the one spawned last, and
    either the initialization request has been written to it or one of its
    streams is missing, so that nothing is ever written to it. *)
Definition served (st : St) (x : watch) : Prop :=
  forall p, _python_proc (self st) = Some p ->
    current x = Some p /\ (initialised x = true \/ stdin p = None \/ stdout p = None).

Lemma served_world_free : world_free served.
Proof. intros st x w Hs; exact Hs. Qed.

Lemma EvDrain_transparent wr r : transparent init_first (EvDrain wr r).
Proof. intros x; reflexivity. Qed.
Lemma EvRecv_transparent s k wait r : transparent init_first (EvRecv s k wait r).
Proof. intros x; reflexivity. Qed.
Lemma EvWait_transparent p r : transparent init_first (EvWait p r).
Proof. intros x; reflexivity. Qed.
Lemma EvTerminate_transparent sb r : transparent init_first (EvTerminate sb r).
Proof. intros x; reflexivity. Qed.
Lemma EvWrite_literal_transparent wr b r : transparent init_first (EvWrite wr (Literal b) r).
Proof. intros x; reflexivity. Qed.
Lemma EvExec_bash_transparent sb command timeout r :
  transparent init_first (EvExec sb (bash_argv command) timeout r).
Proof.
  intros x; unfold init_first. destruct r; [rewrite bash_not_resident |]; reflexivity.
Qed.


Ltac served_leaf :=
  first [ apply served_world_free
        | intros; first [ apply EvDrain_transparent | apply EvRecv_transparent
                        | apply EvWait_transparent | apply EvTerminate_transparent
                        | apply EvWrite_literal_transparent
                        | apply EvExec_bash_transparent ] ].

(** Any control record may be sent once the invariant holds. *)
Lemma communicate_served (payload : json) (timeout : Z) :
  preserves init_first served (_communicate_with_python payload timeout).
Proof.
  unfold _communicate_with_python. apply triple_get_self. intros me.
  destruct (_python_proc me) as [p |] eqn:Hp;
    [| apply triple_raise; intros st x [Hs _]; exact Hs].
  destruct (stdin p) as [wr |] eqn:Hin, (stdout p) as [rd |] eqn:Hout;
    try (apply triple_raise; intros st x [Hs _]; exact Hs).
  eapply triple_bind with (R := fun _ => served); [| | auto].
  - apply triple_call. intros st x w' r [Hs <-].
    destruct (Hs p Hp) as [Hcur Hinit].
    assert (Hi : initialised x = true) by (destruct Hinit as [? | [? | ?]]; congruence).
    unfold init_first, writes_to_current. rewrite Hcur, Hin.
    rewrite bool_decide_eq_true_2 by reflexivity.
    destruct (is_init_request payload).
    + eexists; split; [reflexivity |]. intros q Hq. simpl in *.
      split; [congruence | left; reflexivity].
    + rewrite Hi. eexists; split; [reflexivity |]. exact Hs.
  - intros []. as_preserves. preserves_with served_leaf.
Qed.

(** [_start_python_session] re-establishes the invariant whatever the
    monitor held before; when it returns, [self] holds the process it
    spawned. *)
Lemma start_served (timeout : Z) :
  triple init_first served (_start_python_session timeout)
    (fun o st x =>
       served st x /\
       (o = Ret tt -> exists p, _python_proc (self st) = Some p /\ current x = Some p)).
Proof.
  unfold _start_python_session. apply triple_get_self. intros me.
  eapply triple_bind
    with (R := fun o st x =>
                 match o with
                 | Ret p => current x = Some p /\ initialised x = false
                 | Raise _ => served st x
                 end).
  - apply triple_call. intros st x w' r [Hs _].
    unfold init_first. destruct r as [p | e].
    + rewrite resident_is_resident. eexists; split; [reflexivity |]. split; reflexivity.
    + eexists; split; [reflexivity |]. exact Hs.
  - intros p.
    eapply triple_bind
      with (R := fun o st x =>
                   o = Ret tt /\ _python_proc (self st) = Some p /\ current x = Some p).
    + apply triple_set_python_proc. intros st x [Hc _]. repeat split. exact Hc.
    + intros [].
      eapply triple_conseq
        with (P' := fun st x => _python_proc (self st) = Some p /\ current x = Some p);
        [| intros st x (_ & Hp & Hc); auto | intros o st x Hq; exact Hq].
      eapply triple_bind
        with (R := fun _ st x =>
                     served st x /\ _python_proc (self st) = Some p /\ current x = Some p).
      * unfold _communicate_with_python. apply triple_get_self. intros me'.
        assert (Hserved : forall (st : St) x,
                   _python_proc (self st) = Some p -> current x = Some p ->
                   (initialised x = true \/ stdin p = None \/ stdout p = None) ->
                   served st x).
        { intros st x Hp Hc Hi q Hq. rewrite Hp in Hq. simplify_eq. auto. }
        destruct (_python_proc me') as [q |] eqn:Hq.
        2:{ apply triple_raise. intros st x [[Hp Hc] <-]. congruence. }
        destruct (stdin q) as [wr |] eqn:Hin.
        2:{ apply triple_raise. intros st x [[Hp Hc] <-].
            assert (q = p) by congruence. subst q. auto 6. }
        destruct (stdout q) as [rd |] eqn:Hout.
        2:{ apply triple_raise. intros st x [[Hp Hc] <-].
            assert (q = p) by congruence. subst q. auto 6. }
        eapply triple_bind
          with (R := fun _ st x =>
                       served st x /\ _python_proc (self st) = Some p /\ current x = Some p);
          [| | auto].
        -- apply triple_call. intros st x w' r [[Hp Hc] <-].
           assert (q = p) by congruence. subst q.
           unfold init_first, writes_to_current. rewrite Hc, Hin.
           rewrite bool_decide_eq_true_2 by reflexivity.
           rewrite init_request_is_init.
           eexists; split; [reflexivity |]. simpl. auto.
        -- intros [].
           assert (Hkeep : world_free
                     (fun (st : St) x =>
                        served st x /\ _python_proc (self st) = Some p /\ current x = Some p)).
           { intros st x w Hi; exact Hi. }
           as_preserves.
           preserves_with ltac:(first [exact Hkeep | served_leaf]).
      * intros r. apply triple_ret. intros st x (Hs & Hp & Hc).
        split; [exact Hs | intros _; eauto].
      * intros e st x (Hs & _). split; [exact Hs | discriminate].
    + intros e st x [Ho _]. discriminate Ho.
  - intros e st x Hs. split; [exact Hs | discriminate].
Qed.

Lemma EvRestart_transparent : transparent init_first EvRestart.
Proof. intros x; reflexivity. Qed.

Lemma preserves_mark_restart (I : St -> watch -> Prop) :
  preserves init_first I (mark EvRestart).
Proof. intros st x Hi. exists x. split; [reflexivity | exact Hi]. Qed.

Definition anything (st : St) (x : watch) : Prop := True.

Lemma anything_world_free : world_free anything.
Proof. intros st x w _; exact I. Qed.

Ltac anything_leaf :=
  first [ apply anything_world_free
        | intros; first [ apply EvDrain_transparent | apply EvRecv_transparent
                        | apply EvWait_transparent | apply EvWrite_literal_transparent ]
        | intros; exact I ].

(** The monitor accepts what [_stop_python_session] does, from any state. *)
Lemma stop_served :
  triple init_first anything _stop_python_session
    (fun o st x => o = Ret tt /\ served st x).
Proof.
  intros st x _.
  assert (Hp : preserves init_first anything (_stop_python_session (W := W))).
  { unfold _stop_python_session. preserves_with anything_leaf. }
  destruct (Hp st x I) as (x' & Hscan & _).
  destruct (stop_run st) as [Ho Hs].
  exists x'. split; [exact Hscan |]. split; [exact Ho |].
  intros p Hproc. rewrite Hs in Hproc. discriminate Hproc.
Qed.

Lemma restart_served (timeout : Z) :
  triple init_first anything (_restart_python_session timeout)
    (fun o st x =>
       served st x /\
       (o = Ret tt -> exists p, _python_proc (self st) = Some p /\ current x = Some p)).
Proof.
  unfold _restart_python_session.
  eapply triple_bind with (R := fun o st x => o = Ret tt); [| | intros e st x Ho; discriminate Ho].
  - intros st x _. exists x. split; reflexivity.
  - intros [].
    eapply triple_bind with (R := fun o st x => o = Ret tt /\ served st x);
      [| | intros e st x [Ho _]; discriminate Ho].
    + eapply triple_conseq; [apply stop_served | intros; exact I | auto].
    + intros []. eapply triple_conseq; [apply start_served | intros st x [_ Hs]; exact Hs | auto].
Qed.

Lemma attempt_served (code : string) (timeout : Z) :
  preserves init_first served (python_attempt code timeout).
Proof.
  unfold python_attempt, _ensure_python_session.
  preserves_with served_leaf.
  - eapply triple_conseq; [apply start_served | auto | intros o st x [Hs _]; exact Hs].
  - apply communicate_served.
Qed.

Lemma round_served (code : string) (timeout : Z) :
  preserves init_first served (python_round code timeout).
Proof.
  unfold python_round. preserves_with served_leaf.
  - apply attempt_served.
  - eapply triple_conseq;
      [apply restart_served | intros; exact I | intros o st x [Hs _]; exact Hs].
Qed.

Lemma execute_python_served (code : string) (timeout : Z) :
  preserves init_first served (execute_python code timeout).
Proof.
  unfold execute_python. generalize (@None exn). generalize 2%nat.
  intros n; induction n as [| n IH]; intros last; simpl.
  - apply preserves_ret.
  - apply preserves_bind; [apply round_served |].
    intros [r | exc]; [apply preserves_ret | apply IH].
Qed.

Lemma execute_bash_served (command : string) (timeout : Z) :
  preserves init_first served (execute_bash command timeout).
Proof. unfold execute_bash, bash_attempt. preserves_with served_leaf. Qed.

Lemma terminate_served : preserves init_first served (terminate (W := W)).
Proof.
  unfold terminate. apply preserves_bind.
  - eapply triple_conseq;
      [apply stop_served | intros; exact I | intros o st x [_ Hs]; exact Hs].
  - intros []. preserves_with served_leaf.
Qed.

(** A caller's use of one [Sandbox]. *)
Inductive call : Type :=
| ExecutePython (code : string) (timeout : Z)
| ExecuteBash (command : string) (timeout : Z)
| Terminate.

(** One call, whose result or exception the caller takes note of. *)
Definition perform (c : call) (st : St) : St * list event :=
  match c with
  | ExecutePython code timeout =>
      let r := execute_python code timeout st in (state_of r, trace_of r)
  | ExecuteBash command timeout =>
      let r := execute_bash command timeout st in (state_of r, trace_of r)
  | Terminate => let r := terminate st in (state_of r, trace_of r)
  end.

(** The calls of a session, one after the other on the same object. *)
Fixpoint session (calls : list call) (st : St) : St * list event :=
  match calls with
  | [] => (st, [])
  | c :: rest =>
      let '(st1, t1) := perform c st in
      let '(st2, t2) := session rest st1 in
      (st2, t1 ++ t2)
  end.

Lemma perform_served (c : call) (st : St) (x : watch) :
  served st x ->
  exists x', scan init_first x (snd (perform c st)) = Some x' /\
             served (fst (perform c st)) x'.
Proof.
  intros Hs. destruct c as [code t | command t |]; simpl.
  - apply (execute_python_served code t st x Hs).
  - apply (execute_bash_served command t st x Hs).
  - apply (terminate_served st x Hs).
Qed.

Lemma session_served (calls : list call) (st : St) (x : watch) :
  served st x ->
  exists x', scan init_first x (snd (session calls st)) = Some x' /\
             served (fst (session calls st)) x'.
Proof.
  revert st x. induction calls as [| c rest IH]; intros st x Hs; simpl.
  - exists x. split; [reflexivity | exact Hs].
  - destruct (perform_served c st x Hs) as (x1 & Hscan1 & Hs1).
    destruct (perform c st) as [st1 t1]. simpl in *.
    destruct (IH st1 x1 Hs1) as (x2 & Hscan2 & Hs2).
    destruct (session rest st1) as [st2 t2]. simpl in *.
    exists x2. split; [| exact Hs2]. rewrite scan_app, Hscan1. exact Hscan2.
Qed.

End InitFirst.

Arguments _readline : simpl never.
Arguments on_world : simpl never.
Arguments _communicate_with_python : simpl never.
Arguments _restart_python_session : simpl never.
Arguments python_attempt : simpl never.

(** ** The initialization exchange

    [init_first] orders the writes the host issues.  Whether the
    initialization request was delivered and answered is what
    [_start_python_session] waits for: the write, the flush and the read of
    the response, each of which may raise. *)

(** How far the initialization exchange with a process has come. *)
Inductive stage : Type :=
| Spawned
| Written
| Flushed
| Answered
| Lost.

Record progress : Type := { held : option proc; reached : stage }.

Definition no_process_yet : progress := {| held := None; reached := Lost |}.

Definition is_ret {A} (o : outcome A) : bool :=
  match o with Ret _ => true | Raise _ => false end.

Section InitExchange.
Context {codec : Codec} {W : Type} {platform : Platform W}.
#[local] Abbreviation St := (@St W).

(** The stage after an event that is no spawn, for the process [p]: the
    exchange advances by the write of the initialization request on the
    stdin of [p], then the flush, then the read of a line from its stdout
    that [_communicate_with_python] decodes, each having returned and one
    right after the other; anything else in between loses it. *)
Definition advance (p : proc) (s : stage) (ev : event) : stage :=
  match s, ev with
  | Answered, _ => Answered
  | Spawned, EvWrite wr (Encoded c) (Ret _) =>
      if is_init_request c && bool_decide (stdin p = Some wr) then Written else Lost
  | Written, EvDrain wr (Ret _) =>
      if bool_decide (stdin p = Some wr) then Flushed else Lost
  | Flushed, EvRecv rd _ _ (Ret line) =>
      if bool_decide (stdout p = Some rd) && is_ret (decode_response line)
      then Answered else Lost
  | _, _ => Lost
  end.

Definition follow (x : progress) (ev : event) : progress :=
  match held x with
  | Some p => {| held := Some p; reached := advance p (reached x) ev |}
  | None => x
  end.

Definition answered_on (wr : writer) (x : progress) : bool :=
  match held x, reached x with
  | Some p, Answered => bool_decide (stdin p = Some wr)
  | _, _ => false
  end.

(** The monitor: a control record other than the initialization request
    is written only to the stdin of the process spawned last, and only
    once the initialization exchange with that process has returned a
    response. *)
Definition init_answered (x : progress) (ev : event) : option progress :=
  match spawn_of ev with
  | Some p => Some {| held := Some p; reached := Spawned |}
  | None =>
      match ev with
      | EvWrite wr (Encoded c) _ =>
          if is_init_request c then Some (follow x ev)
          else if answered_on wr x then Some x else None
      | _ => Some (follow x ev)
      end
  end.

(** What the stage reached says of the trace read so far. *)
Definition evidence (p : proc) (s : stage) (tr : list event) : Prop :=
  match s with
  | Lost => True
  | Spawned =>
      exists sb t ta, tr = ta ++ [EvExec sb resident_argv t (Ret p)]
  | Written =>
      exists sb t ta wr c,
        tr = ta ++ [EvExec sb resident_argv t (Ret p); EvWrite wr (Encoded c) (Ret tt)] /\
        stdin p = Some wr /\ is_init_request c = true
  | Flushed =>
      exists sb t ta wr c,
        tr = ta ++ [EvExec sb resident_argv t (Ret p); EvWrite wr (Encoded c) (Ret tt);
                    EvDrain wr (Ret tt)] /\
        stdin p = Some wr /\ is_init_request c = true
  | Answered =>
      exists sb t ta wr c rd k wait line tb,
        tr = ta ++ EvExec sb resident_argv t (Ret p) :: EvWrite wr (Encoded c) (Ret tt)
                :: EvDrain wr (Ret tt) :: EvRecv rd k wait (Ret line) :: tb /\
        stdin p = Some wr /\ is_init_request c = true /\ stdout p = Some rd /\
        is_ret (decode_response line) = true /\ no_spawn tb
  end.

Lemma advance_evidence (p : proc) (s : stage) (ev : event) (tr : list event) :
  spawn_of ev = None -> evidence p s tr -> evidence p (advance p s ev) (tr ++ [ev]).
Proof.
  intros Hsp Hev. destruct s; simpl in *.
  - (* Spawned *)
    destruct ev; try exact I. destruct m as [c | b]; [| exact I].
    destruct r as [[] | e]; [| exact I].
    destruct (is_init_request c) eqn:Hc; [| exact I].
    destruct (bool_decide (stdin p = Some w)) eqn:Hw; [| exact I].
    apply bool_decide_eq_true in Hw. simpl.
    destruct Hev as (sb & t & ta & ->).
    exists sb, t, ta, w, c. rewrite <- app_assoc. auto.
  - (* Written *)
    destruct ev; try exact I. destruct r as [[] | e]; [| exact I].
    destruct (bool_decide (stdin p = Some w)) eqn:Hw; [| exact I].
    apply bool_decide_eq_true in Hw. simpl.
    destruct Hev as (sb & t & ta & wr & c & -> & Hin & Hc).
    assert (w = wr) by congruence. subst w.
    exists sb, t, ta, wr, c. rewrite <- app_assoc. auto.
  - (* Flushed *)
    destruct ev; try exact I. destruct r as [line | e]; [| exact I].
    destruct (bool_decide (stdout p = Some s)) eqn:Hs; [| exact I].
    destruct (is_ret (decode_response line)) eqn:Hd; [| exact I].
    apply bool_decide_eq_true in Hs. simpl.
    destruct Hev as (sb & t & ta & wr & c & -> & Hin & Hc).
    exists sb, t, ta, wr, c, s, k, wait, line, []. rewrite <- app_assoc.
    repeat split; try assumption. constructor.
  - (* Answered *)
    destruct Hev as (sb & t & ta & wr & c & rd & k & wait & line & tb & -> & H).
    destruct H as (Hin & Hc & Hout & Hd & Hns).
    exists sb, t, ta, wr, c, rd, k, wait, line, (tb ++ [ev]).
    rewrite <- app_assoc. simpl. repeat split; try assumption.
    apply Forall_app. split; [exact Hns | constructor; [exact Hsp | constructor]].
  - exact I.
Qed.

(** In a trace the monitor accepts, the stage reached is backed by the
    trace. *)
Lemma scan_evidence (tr : list event) (x : progress) (p : proc) :
  scan init_answered no_process_yet tr = Some x -> held x = Some p ->
  evidence p (reached x) tr.
Proof.
  revert x p. induction tr as [| ev tr IH] using rev_ind; intros x p Hscan Hp.
  - simpl in Hscan. injection Hscan as <-. discriminate Hp.
  - rewrite scan_app in Hscan.
    destruct (scan init_answered no_process_yet tr) as [xm |] eqn:Hm; [| discriminate].
    simpl in Hscan. destruct (init_answered xm ev) as [x1 |] eqn:Hobs; [| discriminate].
    assert (x1 = x) by congruence. subst x1. clear Hscan. unfold init_answered in Hobs.
    destruct (spawn_of ev) as [q |] eqn:Hsp.
    + injection Hobs as <-. simpl in *. injection Hp as ->.
      destruct (spawn_of_Some _ _ Hsp) as (sb & t & ->). exists sb, t, tr. reflexivity.
    + assert (Hfollow : x = follow xm ev -> evidence p (reached x) (tr ++ [ev])).
      { intros ->. unfold follow in *. destruct (held xm) as [p' |] eqn:Hh.
        - simpl in *. injection Hp as ->.
          apply advance_evidence; [exact Hsp | exact (IH xm p eq_refl Hh)].
        - rewrite Hh in Hp. discriminate Hp. }
      destruct ev; try (injection Hobs as <-; apply Hfollow; reflexivity).
      destruct m as [c | b]; [| injection Hobs as <-; apply Hfollow; reflexivity].
      destruct (is_init_request c); [injection Hobs as <-; apply Hfollow; reflexivity |].
      destruct (answered_on w xm) eqn:Ha; [| discriminate].
      assert (xm = x) by congruence. subst xm. clear Hobs.
      unfold answered_on in Ha. rewrite Hp in Ha.
      destruct (reached x) eqn:Hr; try discriminate.
      change Answered with (advance p Answered (EvWrite w (Encoded c) r)).
      apply advance_evidence; [reflexivity |].
      rewrite <- Hr. exact (IH x p eq_refl Hp).
Qed.

(** In a trace the monitor accepts, a control record with caller code
    comes after a whole initialization exchange with the process it is
    written to, which follows the spawn of that process at once. *)
Lemma accepted_after_answer (tr t1 t2 : list event) (x : progress)
    (wr : writer) (c : json) (r : outcome unit) :
  scan init_answered no_process_yet tr = Some x ->
  tr = t1 ++ EvWrite wr (Encoded c) r :: t2 ->
  is_init_request c = false ->
  exists p sb t ta c0 rd k wait line tb,
    t1 = ta ++ EvExec sb resident_argv t (Ret p) :: EvWrite wr (Encoded c0) (Ret tt)
            :: EvDrain wr (Ret tt) :: EvRecv rd k wait (Ret line) :: tb /\
    stdin p = Some wr /\ is_init_request c0 = true /\ stdout p = Some rd /\
    is_ret (decode_response line) = true /\ no_spawn tb.
Proof.
  intros Hscan -> Hc. rewrite scan_app in Hscan.
  destruct (scan init_answered no_process_yet t1) as [x1 |] eqn:H1; [| discriminate].
  cbn [scan] in Hscan. unfold init_answered in Hscan. cbn [spawn_of] in Hscan.
  rewrite Hc in Hscan.
  destruct (answered_on wr x1) eqn:Ha; [| discriminate].
  unfold answered_on in Ha.
  destruct (held x1) as [p |] eqn:Hp; [| discriminate].
  destruct (reached x1) eqn:Hr; try discriminate.
  apply bool_decide_eq_true in Ha.
  pose proof (scan_evidence t1 x1 p H1 Hp) as Hev. rewrite Hr in Hev.
  destruct Hev as (sb & t & ta & wr' & c0 & rd & k & wait & line & tb & -> & H).
  destruct H as (Hin & Hc0 & Hout & Hd & Hns).
  assert (wr' = wr) by congruence. subst wr'.
  exists p, sb, t, ta, c0, rd, k, wait, line, tb. repeat split; assumption.
Qed.
End InitExchange.

(** ** Events that move the monitor

    The rules for the reads and the calls when the monitor's state changes
    with an event: the invariant is kept across the event. *)
Section MovingRules.
Context {codec : Codec} {W : Type} {platform : Platform W}
  {X : Type} (observe : X -> event -> option X).
#[local] Abbreviation St := (@St W).

Definition kept (I : St -> X -> Prop) (ev : event) : Prop :=
  forall st x w, I st x ->
    exists x', observe x ev = Some x' /\ I {| world := w; self := self st |} x'.

Lemma kept_call {A} (I : St -> X -> Prop) (op : W -> W * outcome A)
    (ev : outcome A -> event) :
  (forall r, kept I (ev r)) -> preserves observe I (on_world (platform_call op ev)).
Proof. intros Hk. apply triple_call. intros st x w' r Hi. exact (Hk r st x w' Hi). Qed.

Lemma kept_mark (I : St -> X -> Prop) (ev : event) :
  kept I ev -> preserves observe I (mark ev).
Proof.
  intros Hk st x Hi. destruct (Hk st x (world st) Hi) as (x' & Hobs & Hi').
  exists x'. unfold mark, trace_of, state_of. simpl. rewrite Hobs.
  split; [reflexivity |]. destruct st; exact Hi'.
Qed.

Section MovingReads.
Variable I : St -> X -> Prop.
Hypothesis recv_kept : forall s k wait r, kept I (EvRecv s k wait r).

Lemma kept_recv (s : stream) (k : read_kind) (wait : option Z) :
  preserves observe I (on_world (call_recv s k wait)).
Proof. apply kept_call. intros r. apply recv_kept. Qed.

Lemma kept_read_stream (o : option stream) (wait : option Z) :
  preserves observe I (_read_stream o wait).
Proof.
  unfold _read_stream. destruct o as [s |]; [| apply preserves_ret].
  destruct (s_read s); [apply kept_recv | apply preserves_ret].
Qed.

Lemma kept_anext_or_empty (s : stream) (k : read_kind) (wait : option Z) :
  preserves observe I (anext_or_empty s k wait).
Proof.
  unfold anext_or_empty. apply preserves_try; [apply kept_recv |].
  intros e; destruct e; first [apply preserves_ret | apply preserves_raise].
Qed.

Lemma kept_readline (o : option stream) (wait : option Z) :
  preserves observe I (_readline o wait).
Proof.
  unfold _readline. destruct o as [s |]; [| apply preserves_ret].
  destruct (s_anext s); [apply kept_anext_or_empty |].
  destruct (s_aiter s) as [[|] |];
    first [ apply kept_anext_or_empty
          | destruct (s_readline s);
            [apply kept_recv | apply (kept_read_stream (Some s))] ].
Qed.
End MovingReads.
End MovingRules.

(** Applies the structural rules for [preserves] with the rules above;
    [leaf] closes the side conditions of the events. *)
Ltac keeps_with leaf :=
  repeat
    lazymatch goal with
    | |- preserves _ _ (bind get_self _) => apply preserves_get_self; intros ?
    | |- preserves _ _ (bind _ _) => apply preserves_bind; [| intros ?]
    | |- preserves _ _ (try_except _ _) => apply preserves_try; [| intros ?]
    | |- preserves _ _ (finally _ _) => apply preserves_finally
    | |- preserves _ _ (suppress _ _) => apply preserves_suppress
    | |- preserves _ _ (ret _) => apply preserves_ret
    | |- preserves _ _ (raise _) => apply preserves_raise
    | |- preserves _ _ (lift_outcome _) => apply preserves_lift
    | |- preserves _ _ (mark _) => apply kept_mark; leaf
    | |- preserves _ _ (_read_stream _ _) => apply kept_read_stream; leaf
    | |- preserves _ _ (_readline _ _) => apply kept_readline; leaf
    | |- preserves _ _ (on_world (call_returncode _)) => apply preserves_returncode
    | |- preserves _ _ (set_python_proc _) => apply preserves_set_python_proc; leaf
    | |- preserves _ _ (on_world _) => apply kept_call; leaf
    | |- preserves _ _ (match ?x with _ => _ end) => destruct x
    | |- preserves _ _ (if ?x then _ else _) => destruct x
    end.

Section InitAnswered.
Context {codec : Codec} {W : Type} {platform : Platform W}.
#[local] Abbreviation St := (@St W).

(** The process [self] holds, if any, is the one spawned last, and its
    initialization exchange has returned a response. *)
Definition ready_session (st : St) (x : progress) : Prop :=
  forall p, _python_proc (self st) = Some p -> held x = Some p /\ reached x = Answered.

(** [self] holds [p], the process spawned last, at the stage [s]. *)
Definition holding (p : proc) (s : stage) (st : St) (x : progress) : Prop :=
  _python_proc (self st) = Some p /\ held x = Some p /\ reached x = s.

Definition whatever (st : St) (x : progress) : Prop := True.

(** Anything but a control record with caller code is accepted. *)
Lemma accepted_unless_caller_code (x : progress) (ev : event) :
  match ev with
  | EvWrite _ (Encoded c) _ => is_init_request c = true
  | _ => True
  end ->
  exists x', init_answered x ev = Some x'.
Proof.
  intros Hev. unfold init_answered. destruct (spawn_of ev); [eauto |].
  destruct ev; eauto. destruct m as [c | b]; eauto. rewrite Hev. eauto.
Qed.

Lemma whatever_kept (ev : event) :
  match ev with
  | EvWrite _ (Encoded c) _ => is_init_request c = true
  | _ => True
  end ->
  kept init_answered whatever ev.
Proof.
  intros Hev st x w _. destruct (accepted_unless_caller_code x ev Hev) as (x' & Hx).
  exists x'. split; [exact Hx | exact I].
Qed.

(** Once the exchange is answered, every event of an exchange with the
    process keeps it so. *)
Lemma answered_kept (p : proc) (ev : event) :
  spawn_of ev = None ->
  match ev with
  | EvWrite wr (Encoded _) _ => stdin p = Some wr
  | _ => True
  end ->
  kept init_answered (holding p Answered) ev.
Proof.
  intros Hsp Hev st x w (Hp & Hh & Hr).
  unfold init_answered. rewrite Hsp.
  assert (Hf : holding p Answered {| world := w; self := self st |} (follow x ev)).
  { unfold follow. rewrite Hh. repeat split; [exact Hp |]. simpl. rewrite Hr. reflexivity. }
  destruct ev; try (eexists; split; [reflexivity | exact Hf]).
  destruct m as [c | b]; [| eexists; split; [reflexivity | exact Hf]].
  destruct (is_init_request c); [eexists; split; [reflexivity | exact Hf] |].
  unfold answered_on. rewrite Hh, Hr, Hev.
  rewrite bool_decide_eq_true_2 by reflexivity.
  eexists; split; [reflexivity |]. repeat split; assumption.
Qed.

Lemma advance_written (p : proc) (wr : writer) :
  stdin p = Some wr ->
  advance p Spawned (EvWrite wr (Encoded (code_request (JStr _PYTHON_SESSION_INIT))) (Ret tt))
  = Written.
Proof.
  intros Hin. unfold advance. rewrite init_request_is_init, Hin.
  rewrite bool_decide_eq_true_2 by reflexivity. reflexivity.
Qed.

Lemma advance_flushed (p : proc) (wr : writer) :
  stdin p = Some wr -> advance p Written (EvDrain wr (Ret tt)) = Flushed.
Proof.
  intros Hin. unfold advance. rewrite Hin.
  rewrite bool_decide_eq_true_2 by reflexivity. reflexivity.
Qed.

(** Any control record may be sent to an initialised session. *)
Lemma communicate_answered (payload : json) (timeout : Z) :
  preserves init_answered ready_session (_communicate_with_python payload timeout).
Proof.
  unfold _communicate_with_python. apply triple_get_self. intros me.
  destruct (_python_proc me) as [p |] eqn:Hp;
    [| apply triple_raise; intros st x [Hs _]; exact Hs].
  destruct (stdin p) as [wr |] eqn:Hin, (stdout p) as [rd |] eqn:Hout;
    try (apply triple_raise; intros st x [Hs _]; exact Hs).
  eapply triple_conseq with (P' := holding p Answered)
                            (Q' := fun _ => holding p Answered).
  - as_preserves.
    keeps_with ltac:(first [ intros; apply answered_kept; [reflexivity | first [exact Hin | exact I]]
                           | intros ? ? Hi; exact Hi ]).
  - intros st x [Hs <-]. destruct (Hs p Hp) as [Hh Hr]. repeat split; assumption.
  - intros o st x (Hp' & Hh & Hr) q Hq. rewrite Hp' in Hq. injection Hq as <-. auto.
Qed.

(** The read of the response to the initialization request. *)
Lemma readline_answer (p : proc) (rd : stream) (wait : option Z) :
  stdout p = Some rd ->
  triple init_answered (holding p Flushed) (_readline (Some rd) wait)
    (fun o st x =>
       _python_proc (self st) = Some p /\ held x = Some p /\
       forall line, o = Ret line -> is_ret (decode_response line) = true ->
         reached x = Answered).
Proof.
  intros Hout.
  assert (Hempty : forall (st : St) x,
            _python_proc (self st) = Some p /\ held x = Some p ->
            _python_proc (self st) = Some p /\ held x = Some p /\
            forall line, Ret (DBytes []) = Ret line ->
              is_ret (decode_response line) = true -> reached x = Answered).
  { intros st x [Hp Hh]. repeat split; try assumption.
    intros line [= <-]. unfold decode_response. simpl. discriminate. }
  assert (Hrecv : forall k,
            triple init_answered (holding p Flushed) (on_world (call_recv rd k wait))
              (fun o st x =>
                 _python_proc (self st) = Some p /\ held x = Some p /\
                 forall line, o = Ret line -> is_ret (decode_response line) = true ->
                   reached x = Answered)).
  { intros k. apply triple_call. intros st x w' r (Hp & Hh & Hr).
    exists (follow x (EvRecv rd k wait r)). split; [reflexivity |].
    unfold follow. rewrite Hh. simpl. repeat split; try assumption.
    intros line -> Hd. rewrite Hr. simpl. rewrite Hout.
    rewrite bool_decide_eq_true_2 by reflexivity. rewrite Hd. reflexivity. }
  assert (Hnext : forall k,
            triple init_answered (holding p Flushed) (anext_or_empty rd k wait)
              (fun o st x =>
                 _python_proc (self st) = Some p /\ held x = Some p /\
                 forall line, o = Ret line -> is_ret (decode_response line) = true ->
                   reached x = Answered)).
  { intros k. unfold anext_or_empty.
    eapply triple_try; [apply Hrecv | intros a st x Hq; exact Hq |].
    intros e. destruct e;
      first [ apply triple_raise; intros st x (Hp & Hh & _); repeat split; try assumption;
              intros line Heq; discriminate Heq
            | apply triple_ret; intros st x (Hp & Hh & _); apply Hempty; auto ]. }
  unfold _readline. destruct (s_anext rd); [apply Hnext |].
  assert (Hrest :
            triple init_answered (holding p Flushed)
              (if s_readline rd then on_world (call_recv rd ByReadline wait)
               else _read_stream (Some rd) wait)
              (fun o st x =>
                 _python_proc (self st) = Some p /\ held x = Some p /\
                 forall line, o = Ret line -> is_ret (decode_response line) = true ->
                   reached x = Answered)).
  { destruct (s_readline rd); [apply Hrecv |].
    unfold _read_stream. destruct (s_read rd); [apply Hrecv |].
    apply triple_ret. intros st x (Hp & Hh & _). apply Hempty; auto. }
  destruct (s_aiter rd) as [[|] |]; first [apply Hnext | exact Hrest].
Qed.

(** [_start_python_session], from any state: when it returns, [self]
    holds the process it spawned and the exchange has been answered. *)
Lemma start_answered (timeout : Z) :
  triple init_answered whatever (_start_python_session timeout)
    (fun o st x => o = Ret tt -> ready_session st x).
Proof.
  assert (Hready : forall p (st : St) x, holding p Answered st x -> ready_session st x).
  { intros p st x (Hp & Hh & Hr) q Hq. rewrite Hp in Hq. injection Hq as <-. auto. }
  unfold _start_python_session. apply triple_get_self. intros me.
  eapply triple_bind
    with (R := fun o st x =>
                 match o with
                 | Ret p => held x = Some p /\ reached x = Spawned
                 | Raise _ => True
                 end).
  - apply triple_call. intros st x w' r _.
    unfold init_answered. destruct r as [p | e]; cbn [spawn_of].
    + rewrite resident_is_resident. eexists; split; [reflexivity |]. split; reflexivity.
    + eexists; split; [reflexivity | exact I].
  - intros p.
    eapply triple_bind with (R := fun o st x => o = Ret tt /\ holding p Spawned st x).
    + apply triple_set_python_proc. intros st x [Hh Hr]. repeat split; assumption.
    + intros [].
      eapply triple_bind
        with (R := fun o st x => forall a, o = Ret a -> holding p Answered st x).
      * unfold _communicate_with_python. apply triple_get_self. intros me'.
        destruct (_python_proc me') as [q |] eqn:Hq;
          [| apply triple_raise; intros st x _ a Ha; discriminate Ha].
        destruct (stdin q) as [wr |] eqn:Hin;
          [| apply triple_raise; intros st x _ a Ha; discriminate Ha].
        destruct (stdout q) as [rd |] eqn:Hout;
          [| apply triple_raise; intros st x _ a Ha; discriminate Ha].
        eapply triple_bind
          with (R := fun o st x => o = Ret tt -> q = p /\ holding p Written st x).
        -- apply triple_call. intros st x w' r [[_ (Hp & Hh & Hr)] <-].
           assert (q = p) by congruence. subst q.
           exists (follow x (EvWrite wr (Encoded (code_request (JStr _PYTHON_SESSION_INIT))) r)).
           split.
           { unfold init_answered. cbn [spawn_of]. rewrite init_request_is_init. reflexivity. }
           intros ->. split; [reflexivity |].
           unfold follow. rewrite Hh. repeat split; [exact Hp |]. cbn [reached].
           rewrite Hr. apply advance_written. exact Hin.
        -- intros [].
           eapply triple_bind
             with (R := fun o st x => o = Ret tt -> q = p /\ holding p Flushed st x).
           ++ apply triple_call. intros st x w' r Hw.
              destruct (Hw eq_refl) as [-> (Hp & Hh & Hr)].
              exists (follow x (EvDrain wr r)). split; [reflexivity |].
              intros ->. split; [reflexivity |].
              unfold follow. rewrite Hh. repeat split; [exact Hp |]. cbn [reached].
              rewrite Hr. apply advance_flushed. exact Hin.
           ++ intros [].
              eapply triple_bind
                with (R := fun o st x =>
                             q = p /\ _python_proc (self st) = Some p /\ held x = Some p /\
                             forall line, o = Ret line ->
                               is_ret (decode_response line) = true -> reached x = Answered).
              ** intros st x Hd. destruct (Hd eq_refl) as [-> Hhold].
                 destruct (readline_answer p rd (Some timeout) Hout st x Hhold)
                   as (x' & Hscan & Hq').
                 exists x'. split; [exact Hscan |]. split; [reflexivity | exact Hq'].
              ** intros line. apply triple_lift. intros st x (-> & Hp & Hh & Hans) a Ha.
                 repeat split; try assumption. apply (Hans line eq_refl).
                 rewrite Ha. reflexivity.
              ** intros e st x _ a Ha. discriminate Ha.
           ++ intros e st x _ a Ha. discriminate Ha.
        -- intros e st x _ a Ha. discriminate Ha.
      * intros response. apply triple_ret. intros st x Hans _.
        exact (Hready p st x (Hans response eq_refl)).
      * intros e st x _ Ho. discriminate Ho.
    + intros e st x [Ho _]. discriminate Ho.
  - intros e st x _ Ho. discriminate Ho.
Qed.

Ltac whatever_leaf :=
  first [ intros; apply whatever_kept; exact I
        | intros; exact I ].

Lemma stop_accepted :
  preserves init_answered whatever (_stop_python_session (W := W)).
Proof. unfold _stop_python_session. keeps_with whatever_leaf. Qed.

Lemma restart_answered (timeout : Z) :
  triple init_answered whatever (_restart_python_session timeout)
    (fun o st x => o = Ret tt -> ready_session st x).
Proof.
  unfold _restart_python_session.
  eapply triple_bind with (R := fun _ => whatever);
    [apply kept_mark; apply whatever_kept; exact I | | intros e st x _ Ho; discriminate Ho].
  intros [].
  eapply triple_bind with (R := fun _ => whatever);
    [apply stop_accepted | | intros e st x _ Ho; discriminate Ho].
  intros []. apply start_answered.
Qed.

Lemma attempt_answered (code : string) (timeout : Z) :
  triple init_answered ready_session (python_attempt code timeout) (fun _ => whatever).
Proof.
  unfold python_attempt.
  eapply triple_bind with (R := fun o st x => o = Ret tt -> ready_session st x);
    [| | intros; exact I].
  - unfold _ensure_python_session. apply triple_get_self. intros me.
    destruct (_python_proc me) as [p |].
    + apply triple_ret. intros st x [Hs _] _. exact Hs.
    + eapply triple_conseq; [apply start_answered | intros; exact I | auto].
  - intros [].
    eapply triple_bind with (R := fun _ => whatever); [| | intros; exact I].
    + eapply triple_conseq;
        [apply communicate_answered | intros st x Hs; exact (Hs eq_refl) | intros; exact I].
    + intros response. apply triple_lift. intros; exact I.
Qed.

Lemma round_answered (code : string) (timeout : Z) :
  triple init_answered ready_session (python_round code timeout)
    (fun o st x => forall exc, o = Ret (Continue exc) -> ready_session st x).
Proof.
  unfold python_round.
  eapply triple_try
    with (R := fun o st x => match o with Ret (Continue _) => False | _ => True end).
  - eapply triple_bind with (R := fun _ => whatever); [apply attempt_answered | |].
    + intros r. apply triple_ret. intros; exact I.
    + intros; exact I.
  - intros [r | exc] st x H; [intros exc Heq; discriminate Heq | contradiction].
  - intros e. destruct (is_timeout e).
    + apply triple_ret. intros st x _ exc Heq. discriminate Heq.
    + eapply triple_bind with (R := fun o st x => o = Ret tt -> ready_session st x).
      * eapply triple_conseq; [apply restart_answered | intros; exact I | auto].
      * intros []. apply triple_ret. intros st x Hs exc _. exact (Hs eq_refl).
      * intros e' st x _ exc Heq. discriminate Heq.
Qed.

Lemma execute_python_answered (code : string) (timeout : Z) :
  triple init_answered ready_session (execute_python code timeout) (fun _ => whatever).
Proof.
  unfold execute_python. generalize (@None exn). generalize 2%nat.
  intros n; induction n as [| n IH]; intros last; simpl.
  - apply triple_ret. intros; exact I.
  - eapply triple_bind; [apply round_answered | | intros; exact I].
    intros [r | exc].
    + apply triple_ret. intros; exact I.
    + eapply triple_conseq; [apply IH | intros st x Hs; exact (Hs exc eq_refl) | auto].
Qed.
End InitAnswered.

Section InitClaim.
Context {codec : Codec} {W : Type} {platform : Platform W}.
#[local] Abbreviation St := (@St W).

End InitClaim.

(** * Restart and retry *)


Section RestartAndRetry.
Context {codec : Codec} {W : Type} {platform : Platform W}.
#[local] Abbreviation St := (@St W).

(** On a session that holds a process, an attempt is one exchange. *)
Lemma attempt_ready_run (code : string) (timeout : Z) (st : St) (p : proc) :
  _python_proc (self st) = Some p ->
  python_attempt code timeout st =
  let C := _communicate_with_python (code_request (JStr code)) timeout st in
  (state_of C, trace_of C,
   match outcome_of C with
   | Ret response => result_of_response response
   | Raise e => Raise e
   end).
Proof.
  intros Hp. cbv zeta.
  unfold python_attempt, _ensure_python_session, bind, get_self. rewrite Hp.
  unfold ret, lift_outcome, state_of, trace_of, outcome_of.
  destruct (_communicate_with_python _ _ st) as [[s1 t1] [response | e]]; simpl;
    [| reflexivity].
  rewrite app_nil_r. reflexivity.
Qed.

(** One exchange on a process whose two streams are there, step by step. *)
Lemma communicate_ready_run (payload : json) (timeout : Z) (st : St)
    (p : proc) (wr : writer) (rd : stream) :
  _python_proc (self st) = Some p -> stdin p = Some wr -> stdout p = Some rd ->
  _communicate_with_python payload timeout st =
  let Wr := on_world (call_write wr (Encoded payload)) st in
  match outcome_of Wr with
  | Raise e => (state_of Wr, trace_of Wr, Raise e)
  | Ret _ =>
      let Dr := on_world (call_drain wr) (state_of Wr) in
      match outcome_of Dr with
      | Raise e => (state_of Dr, trace_of Wr ++ trace_of Dr, Raise e)
      | Ret _ =>
          let Rd := _readline (Some rd) (Some timeout) (state_of Dr) in
          (state_of Rd, trace_of Wr ++ trace_of Dr ++ trace_of Rd,
           match outcome_of Rd with
           | Raise e => Raise e
           | Ret line => decode_response line
           end)
      end
  end.
Proof.
  intros Hp Hin Hout. cbv zeta.
  unfold _communicate_with_python, bind, get_self. rewrite Hp, Hin, Hout.
  unfold lift_outcome, state_of, trace_of, outcome_of.
  destruct (on_world (call_write wr (Encoded payload)) st) as [[s1 t1] [[] | e]]; simpl;
    [| reflexivity].
  destruct (on_world (call_drain wr) s1) as [[s2 t2] [[] | e]]; simpl; [| reflexivity].
  destruct (_readline (Some rd) (Some timeout) s2) as [[s3 t3] [line | e]]; simpl;
    [| reflexivity].
  rewrite app_nil_r. reflexivity.
Qed.

Lemma attempt_restarts (code : string) (timeout : Z) (st : St) :
  restarts (trace_of (python_attempt code timeout st)) = 0%nat.
Proof. apply count_is_run, attempt_no_restart. Qed.

(** A restart that returns leaves [self] with a process it spawned. *)
Lemma restart_spawns (timeout : Z) (st : St) :
  outcome_of (_restart_python_session timeout st) = Ret tt ->
  exists p sb t ta tb,
    _python_proc (self (state_of (_restart_python_session timeout st))) = Some p /\
    trace_of (_restart_python_session timeout st)
    = ta ++ EvExec sb resident_argv t (Ret p) :: tb /\
    no_spawn tb.
Proof.
  intros Ho.
  destruct (restart_served timeout st fresh_watch I) as (x & Hscan & _ & Hp).
  destruct (Hp Ho) as (p & Hproc & Hcur).
  destruct (scan_spawned _ _ _ Hscan Hcur) as (sb & t & ta & tb & Htr & Hns).
  exists p, sb, t, ta, tb. auto.
Qed.

(** C2, as the code has it.  Every attempt that fails with an exception
    other than [TimeoutError] is followed by a restart, the retry included:
    a call makes at most two restarts, one when the retry returns or times
    out, two when it fails as well.  After the first restart returns, the
    retry is one exchange of the same request with the process that restart
    spawned.  When the retry fails too and the second restart returns, the
    call returns the failure result with the text of the retry's error. *)
Theorem execute_python_restart_and_retry (code : string) (timeout : Z) (st : St) :
  let A1 := first_attempt code timeout st in
  let R1 := first_restart code timeout st in
  let A2 := second_attempt code timeout st in
  let R2 := second_restart code timeout st in
  let run := execute_python code timeout st in
  (restarts (trace_of run) <= 2)%nat /\
  (forall e1, outcome_of A1 = Raise e1 -> is_timeout e1 = false ->
     (exists rest, trace_of run = trace_of A1 ++ trace_of R1 ++ rest) /\
     restarts (trace_of R1) = 1%nat /\
     (outcome_of R1 = Ret tt ->
        (exists p sb t ta tb,
           _python_proc (self (state_of R1)) = Some p /\
           trace_of R1 = ta ++ EvExec sb resident_argv t (Ret p) :: tb /\ no_spawn tb) /\
        trace_of A2
        = trace_of (_communicate_with_python (code_request (JStr code)) timeout
                      (state_of R1)) /\
        (forall r, outcome_of A2 = Ret r ->
           outcome_of run = Ret r /\ restarts (trace_of run) = 1%nat) /\
        (forall e2, outcome_of A2 = Raise e2 -> is_timeout e2 = true ->
           outcome_of run = Ret (timeout_result timeout) /\
           restarts (trace_of run) = 1%nat) /\
        (forall e2, outcome_of A2 = Raise e2 -> is_timeout e2 = false ->
           restarts (trace_of run) = 2%nat /\
           (outcome_of R2 = Ret tt ->
              outcome_of run = Ret (failure_result (str_exn e2)))))).
Proof.
  cbv zeta. rewrite execute_python_run.
  pose proof (attempt_restarts code timeout st) as HA1.
  pose proof (restart_once timeout (state_of (first_attempt code timeout st))) as HR1.
  pose proof (attempt_restarts code timeout (state_of (first_restart code timeout st)))
    as HA2.
  pose proof (restart_once timeout (state_of (second_attempt code timeout st))) as HR2.
  fold (first_attempt code timeout st) in HA1.
  fold (first_restart code timeout st) in HR1.
  fold (second_attempt code timeout st) in HA2.
  fold (second_restart code timeout st) in HR2.
  split.
  - destruct (outcome_of (first_attempt code timeout st)) as [r | e1]; norm_run; [lia |].
    destruct (is_timeout e1); norm_run; [lia |].
    destruct (outcome_of (first_restart code timeout st)) as [[] | e]; norm_run;
      [| rewrite restarts_app; lia].
    destruct (outcome_of (second_attempt code timeout st)) as [r | e2]; norm_run;
      [rewrite !restarts_app; lia |].
    destruct (is_timeout e2); norm_run; [rewrite !restarts_app; lia |].
    destruct (outcome_of (second_restart code timeout st)) as [[] | e]; norm_run;
      rewrite !restarts_app; lia.
  - intros e1 He1 Ht1. rewrite He1, Ht1.
    split; [| split; [exact HR1 |]].
    { destruct (outcome_of (first_restart code timeout st)) as [[] | e]; norm_run;
        [| exists []; rewrite app_nil_r; reflexivity].
      destruct (outcome_of (second_attempt code timeout st)) as [r | e2]; norm_run;
        [eexists; reflexivity |].
      destruct (is_timeout e2); norm_run; [eexists; reflexivity |].
      destruct (outcome_of (second_restart code timeout st)) as [[] | e]; norm_run;
        eexists; reflexivity. }
    intros HoR1. rewrite HoR1.
    destruct (restart_spawns _ _ HoR1) as (p & sb & t & ta & tb & Hp & Htr & Hns).
    split; [exists p, sb, t, ta, tb; auto |].
    split.
    { unfold second_attempt. fold (first_restart code timeout st).
      rewrite (attempt_ready_run _ _ _ p Hp). reflexivity. }
    split; [| split].
    + intros r Hr. rewrite Hr. norm_run. split; [reflexivity |].
      rewrite !restarts_app. lia.
    + intros e2 He2 Ht2. rewrite He2, Ht2. norm_run. split; [reflexivity |].
      rewrite !restarts_app. lia.
    + intros e2 He2 Ht2. rewrite He2, Ht2. split.
      * destruct (outcome_of (second_restart code timeout st)) as [[] | e]; norm_run;
          rewrite !restarts_app; lia.
      * intros HoR2. rewrite HoR2. reflexivity.
Qed.

(** What an attempt makes of the line it reads. *)
Definition received (line : data) : outcome ExecutionResult :=
  match decode_response line with
  | Ret response => result_of_response response
  | Raise e => Raise e
  end.

(** An attempt on a session whose process has its two streams. *)
Lemma attempt_exchange_run (code : string) (timeout : Z) (st : St)
    (p : proc) (wr : writer) (rd : stream) :
  _python_proc (self st) = Some p -> stdin p = Some wr -> stdout p = Some rd ->
  python_attempt code timeout st =
  let Wr := on_world (call_write wr (Encoded (code_request (JStr code)))) st in
  match outcome_of Wr with
  | Raise e => (state_of Wr, trace_of Wr, Raise e)
  | Ret _ =>
      let Dr := on_world (call_drain wr) (state_of Wr) in
      match outcome_of Dr with
      | Raise e => (state_of Dr, trace_of Wr ++ trace_of Dr, Raise e)
      | Ret _ =>
          let Rd := _readline (Some rd) (Some timeout) (state_of Dr) in
          (state_of Rd, trace_of Wr ++ trace_of Dr ++ trace_of Rd,
           match outcome_of Rd with
           | Raise e => Raise e
           | Ret line => received line
           end)
      end
  end.
Proof.
  intros Hp Hin Hout. cbv zeta.
  rewrite (attempt_ready_run _ _ _ p Hp). cbv zeta.
  rewrite (communicate_ready_run _ _ _ p wr rd Hp Hin Hout). cbv zeta.
  destruct (outcome_of (on_world (call_write wr _) st)) as [[] | e]; norm_run;
    [| reflexivity].
  destruct (outcome_of (on_world (call_drain wr) _)) as [[] | e]; norm_run;
    [| reflexivity].
  destruct (outcome_of (_readline (Some rd) (Some timeout) _)) as [line | e]; norm_run;
    reflexivity.
Qed.

Lemma write_trace (wr : writer) (m : message) (st : St) :
  trace_of (on_world (call_write wr m) st)
  = [EvWrite wr m (outcome_of (on_world (call_write wr m) st))].
Proof. unfold call_write. rewrite on_world_call_run. reflexivity. Qed.

Lemma drain_trace (wr : writer) (st : St) :
  trace_of (on_world (call_drain wr) st)
  = [EvDrain wr (outcome_of (on_world (call_drain wr) st))].
Proof. unfold call_drain. rewrite on_world_call_run. reflexivity. Qed.

Lemma attempt_ready_untouched (code : string) (timeout : Z) (st : St) (p : proc) :
  _python_proc (self st) = Some p ->
  self (state_of (python_attempt code timeout st)) = self st.
Proof.
  intros Hp. rewrite (attempt_ready_run _ _ _ p Hp). cbv zeta. norm_run.
  apply untouched_run, communicate_untouched.
Qed.

Lemma execute_python_first_returns (code : string) (timeout : Z) (st : St)
    (r : ExecutionResult) :
  outcome_of (python_attempt code timeout st) = Ret r ->
  execute_python code timeout st =
  (state_of (python_attempt code timeout st),
   trace_of (python_attempt code timeout st), Ret r).
Proof.
  intros Hr. rewrite execute_python_run. unfold first_attempt. rewrite Hr. reflexivity.
Qed.

Lemma execute_python_first_timeout (code : string) (timeout : Z) (st : St) (e : exn) :
  outcome_of (python_attempt code timeout st) = Raise e -> is_timeout e = true ->
  execute_python code timeout st =
  (state_of (python_attempt code timeout st),
   trace_of (python_attempt code timeout st), Ret (timeout_result timeout)).
Proof.
  intros He Ht. rewrite execute_python_run. unfold first_attempt. rewrite He, Ht.
  reflexivity.
Qed.

(** C3.  When an attempt of [execute_python] ends in [TimeoutError], the
    call returns the timeout result at once: nothing is done after that
    attempt, and the timeout brings no restart.  If it is the first
    attempt, on a session that holds a process, the fields of the object,
    the process handle among them, stay as they were, and a later call for
    which the platform delivers a response returns it, from the same
    process and without a restart.  If it is the retry, the handle stays
    the one the restart before it left. *)
Theorem execute_python_timeout (code : string) (timeout : Z) (st : St) (msg : string) :
  let A1 := first_attempt code timeout st in
  let R1 := first_restart code timeout st in
  let A2 := second_attempt code timeout st in
  let run := execute_python code timeout st in
  (outcome_of A1 = Raise (TimeoutError msg) ->
   outcome_of run = Ret (timeout_result timeout) /\
   state_of run = state_of A1 /\
   trace_of run = trace_of A1 /\
   restarts (trace_of run) = 0%nat /\
   (forall p, _python_proc (self st) = Some p ->
      self (state_of run) = self st /\
      forall code' timeout' r,
        outcome_of (python_attempt code' timeout' (state_of run)) = Ret r ->
        let run' := execute_python code' timeout' (state_of run) in
        outcome_of run' = Ret r /\ self (state_of run') = self st /\
        restarts (trace_of run') = 0%nat)) /\
  (forall e1, outcome_of A1 = Raise e1 -> is_timeout e1 = false ->
   outcome_of R1 = Ret tt ->
   outcome_of A2 = Raise (TimeoutError msg) ->
   outcome_of run = Ret (timeout_result timeout) /\
   state_of run = state_of A2 /\
   trace_of run = trace_of A1 ++ trace_of R1 ++ trace_of A2 /\
   restarts (trace_of run) = 1%nat /\
   self (state_of run) = self (state_of R1)).
Proof.
  cbv zeta. split.
  - unfold first_attempt. intros Ht.
    rewrite (execute_python_first_timeout _ _ _ _ Ht eq_refl). norm_run.
    split; [reflexivity |]. split; [reflexivity |]. split; [reflexivity |].
    split; [apply attempt_restarts |].
    intros p Hp.
    pose proof (attempt_ready_untouched code timeout st p Hp) as Hself.
    split; [exact Hself |].
    intros code' timeout' r Hr.
    assert (Hp' : _python_proc (self (state_of (python_attempt code timeout st))) = Some p)
      by (rewrite Hself; exact Hp).
    rewrite (execute_python_first_returns _ _ _ _ Hr). norm_run.
    split; [reflexivity |]. split; [| apply attempt_restarts].
    rewrite (attempt_ready_untouched _ _ _ p Hp'). exact Hself.
  - intros e1 He1 Ht1 HR1 HA2.
    rewrite execute_python_run, He1, Ht1, HR1, HA2.
    simpl is_timeout. cbv iota. norm_run.
    split; [reflexivity |]. split; [reflexivity |]. split; [reflexivity |].
    split.
    + rewrite !restarts_app.
      pose proof (attempt_restarts code timeout st) as C1.
      pose proof (restart_once timeout (state_of (first_attempt code timeout st))) as C2.
      pose proof (attempt_restarts code timeout (state_of (first_restart code timeout st)))
        as C3.
      fold (first_attempt code timeout st) in C1.
      fold (first_restart code timeout st) in C2.
      fold (second_attempt code timeout st) in C3.
      lia.
    + destruct (restart_spawns _ _ HR1) as (p & _ & _ & _ & _ & Hp & _).
      apply (attempt_ready_untouched _ _ _ p Hp).
Qed.

(** The result built from a dict, absent keys taking their defaults. *)
Definition result_of_items (items : list (string * json)) : ExecutionResult :=
  {| success := truthy (items_get items "ok" (JBool false));
     stdout_text := items_get items "stdout" (JStr "");
     stderr_text := items_get items "stderr" (JStr "");
     error := None |}.

Definition is_object (v : json) : bool :=
  match v with JObj _ => true | _ => false end.

(** What is made of a line, case by case. *)
Lemma received_cases (line : data) :
  let decoded := strip (_decode_stream line) in
  (falsy line = true ->
     received line = Raise (RuntimeError "Python session terminated unexpectedly")) /\
  (falsy line = false -> str_empty decoded = true ->
     received line = Ret {| success := true; stdout_text := JStr "";
                            stderr_text := JStr ""; error := None |}) /\
  (falsy line = false -> str_empty decoded = false ->
     forall e, json_loads decoded = Raise e -> received line = Raise e) /\
  (falsy line = false -> str_empty decoded = false ->
     forall v, json_loads decoded = Ret v -> is_object v = false ->
       received line
       = Raise (AttributeError ("'" +:+ type_name v +:+ "' object has no attribute 'get'"))) /\
  (falsy line = false -> str_empty decoded = false ->
     forall items, json_loads decoded = Ret (JObj items) ->
       received line = Ret (result_of_items items)).
Proof.
  cbv zeta. unfold received, decode_response.
  repeat split.
  - intros ->. reflexivity.
  - intros -> ->. reflexivity.
  - intros -> -> e ->. reflexivity.
  - intros -> -> v -> Hv. destruct v; try discriminate Hv; reflexivity.
  - intros -> -> items ->. reflexivity.
Qed.

(** C5, as the code has it.  On a session whose process has its streams,
    once the request is written and flushed and a line is read: the attempt
    ends as [received] says.  An empty line, a line that is not JSON and a
    JSON value that is no object raise, and unless the exception is a
    [TimeoutError] a restart follows; a line that is blank once stripped is
    returned as a success with empty output, and every JSON object is
    returned as a result, a missing field taking its default, without any
    restart. *)
Theorem response_line_handling (code : string) (timeout : Z) (st : St)
    (p : proc) (wr : writer) (rd : stream) (line : data) :
  _python_proc (self st) = Some p -> stdin p = Some wr -> stdout p = Some rd ->
  let Wr := on_world (call_write wr (Encoded (code_request (JStr code)))) st in
  outcome_of Wr = Ret tt ->
  let Dr := on_world (call_drain wr) (state_of Wr) in
  outcome_of Dr = Ret tt ->
  let Rd := _readline (Some rd) (Some timeout) (state_of Dr) in
  outcome_of Rd = Ret line ->
  let run := execute_python code timeout st in
  let decoded := strip (_decode_stream line) in
  outcome_of (python_attempt code timeout st) = received line /\
  (forall e, received line = Raise e -> is_timeout e = false ->
     (1 <= restarts (trace_of run))%nat) /\
  (forall r, received line = Ret r ->
     outcome_of run = Ret r /\ restarts (trace_of run) = 0%nat /\
     self (state_of run) = self st) /\
  (falsy line = true -> exists e, received line = Raise e /\ is_timeout e = false) /\
  (falsy line = false -> str_empty decoded = true ->
     received line = Ret {| success := true; stdout_text := JStr "";
                            stderr_text := JStr ""; error := None |}) /\
  (falsy line = false -> str_empty decoded = false ->
     forall e, json_loads decoded = Raise e -> received line = Raise e) /\
  (falsy line = false -> str_empty decoded = false ->
     forall v, json_loads decoded = Ret v -> is_object v = false ->
       exists e, received line = Raise e /\ is_timeout e = false) /\
  (falsy line = false -> str_empty decoded = false ->
     forall items, json_loads decoded = Ret (JObj items) ->
       received line = Ret (result_of_items items)).
Proof.
  intros Hp Hin Hout Wr HWr Dr HDr Rd HRd run decoded.
  assert (HA : outcome_of (python_attempt code timeout st) = received line).
  { rewrite (attempt_exchange_run _ _ _ p wr rd Hp Hin Hout). cbv zeta.
    fold Wr. rewrite HWr. fold Dr. rewrite HDr. fold Rd. rewrite HRd. reflexivity. }
  destruct (received_cases line) as (C1 & C2 & C3 & C4 & C5).
  split; [exact HA |].
  split; [| split; [| split; [| split; [| split; [| split]]]]].
  - intros e He Ht. subst run. rewrite execute_python_run.
    unfold first_attempt. rewrite HA, He, Ht.
    pose proof (restart_once timeout (state_of (python_attempt code timeout st))) as HR.
    fold (first_attempt code timeout st) in HR |- *.
    fold (first_restart code timeout st) in HR |- *.
    repeat match goal with
           | |- context [match outcome_of ?x with _ => _ end] =>
               destruct (outcome_of x) as [? | ?]
           | |- context [if is_timeout ?x then _ else _] => destruct (is_timeout x)
           end; norm_run; rewrite ?restarts_app; lia.
  - intros r Hr. rewrite <- HA in Hr. subst run.
    rewrite (execute_python_first_returns _ _ _ _ Hr). norm_run.
    split; [reflexivity |]. split; [apply attempt_restarts |].
    apply (attempt_ready_untouched _ _ _ p Hp).
  - intros Hf. eexists. split; [apply C1, Hf | reflexivity].
  - exact C2.
  - exact C3.
  - intros Hf He v Hv Ho. eexists. split; [apply (C4 Hf He v Hv Ho) | reflexivity].
  - exact C5.
Qed.
End RestartAndRetry.

(** * A response that arrives after the timeout *)

Section StaleResponse.
Context {codec : Codec} {W : Type} {platform : Platform W}
  {NS : Type} {interpreter : Interpreter NS}.
#[local] Abbreviation St := (@St W).

(** The record [run] returns, by the way the snippet ended. *)
Lemma run_payload (code : json) (ns ns' : NS) (payload : json) :
  run code ns = (ns', Some payload) ->
  (exists out err,
      py_exec code ns = (ns', Finished out err) /\
      payload = response_record true out err) \/
  (exists out err tb,
      py_exec code ns = (ns', Failed out err tb) /\
      payload = response_record false out (err +:+ tb)).
Proof.
  unfold run. destruct (py_exec code ns) as [ns1 [out err | out err tb |]]; simpl.
  - intros [= <- <-]. left. eauto.
  - intros [= <- <-]. right. eauto.
  - discriminate.
Qed.

Lemma result_of_record (ok : bool) (out err : string) :
  result_of_response (response_record ok out err)
  = Ret {| success := ok; stdout_text := JStr out; stderr_text := JStr err;
           error := None |}.
Proof. reflexivity. Qed.

(** C9.  A session holds a process with its streams; a first request is
    written and flushed and the wait for its response ends in
    [TimeoutError].  The call returns the timeout result, and its trace
    ends with that wait: nothing more is read.  The next call writes and
    flushes its own request and reads one line; when that line is the
    resident loop's response to the first request, it is what the second
    call returns, as the result of its own request. *)
Theorem stale_response_consumed (code code' : string) (timeout timeout' : Z) (st : St)
    (p : proc) (wr : writer) (rd : stream) (msg : string) (line : data)
    (ns ns' : NS) (payload : json) :
  _python_proc (self st) = Some p -> stdin p = Some wr -> stdout p = Some rd ->
  let request := Encoded (code_request (JStr code)) in
  let Wr := on_world (call_write wr request) st in
  outcome_of Wr = Ret tt ->
  let Dr := on_world (call_drain wr) (state_of Wr) in
  outcome_of Dr = Ret tt ->
  let Rd := _readline (Some rd) (Some timeout) (state_of Dr) in
  outcome_of Rd = Raise (TimeoutError msg) ->
  let run1 := execute_python code timeout st in
  let request' := Encoded (code_request (JStr code')) in
  let Wr' := on_world (call_write wr request') (state_of run1) in
  outcome_of Wr' = Ret tt ->
  let Dr' := on_world (call_drain wr) (state_of Wr') in
  outcome_of Dr' = Ret tt ->
  let Rd' := _readline (Some rd) (Some timeout') (state_of Dr') in
  outcome_of Rd' = Ret line ->
  run (JStr code) ns = (ns', Some payload) ->
  decode_response line = Ret payload ->
  let run2 := execute_python code' timeout' (state_of run1) in
  outcome_of run1 = Ret (timeout_result timeout) /\
  self (state_of run1) = self st /\
  trace_of run1 = [EvWrite wr request (Ret tt); EvDrain wr (Ret tt)] ++ trace_of Rd /\
  trace_of run2 = [EvWrite wr request' (Ret tt); EvDrain wr (Ret tt)] ++ trace_of Rd' /\
  restarts (trace_of run1 ++ trace_of run2) = 0%nat /\
  outcome_of run2 = result_of_response payload /\
  exists ok out err,
    payload = response_record ok out err /\
    outcome_of run2 = Ret {| success := ok; stdout_text := JStr out;
                             stderr_text := JStr err; error := None |}.
Proof.
  intros Hp Hin Hout request Wr HWr Dr HDr Rd HRd run1 request' Wr' HWr' Dr' HDr'
    Rd' HRd' Hrun Hline run2.
  assert (HA : python_attempt code timeout st
               = (state_of Rd, trace_of Wr ++ trace_of Dr ++ trace_of Rd,
                  Raise (TimeoutError msg))).
  { rewrite (attempt_exchange_run _ _ _ p wr rd Hp Hin Hout). cbv zeta.
    fold request Wr. rewrite HWr. fold Dr. rewrite HDr. fold Rd. rewrite HRd.
    reflexivity. }
  assert (Hfirst : run1 = (state_of Rd, trace_of Wr ++ trace_of Dr ++ trace_of Rd,
                       Ret (timeout_result timeout))).
  { subst run1. rewrite (execute_python_first_timeout code timeout st (TimeoutError msg));
      [rewrite HA; reflexivity | rewrite HA; reflexivity | reflexivity]. }
  assert (Hself : self (state_of run1) = self st).
  { rewrite Hfirst. norm_run.
    pose proof (attempt_ready_untouched code timeout st p Hp) as Hs.
    rewrite HA in Hs. exact Hs. }
  assert (Hp1 : _python_proc (self (state_of run1)) = Some p) by (rewrite Hself; exact Hp).
  assert (HA' : python_attempt code' timeout' (state_of run1)
                = (state_of Rd', trace_of Wr' ++ trace_of Dr' ++ trace_of Rd',
                   result_of_response payload)).
  { rewrite (attempt_exchange_run _ _ _ p wr rd Hp1 Hin Hout). cbv zeta.
    fold request' Wr'. rewrite HWr'. fold Dr'. rewrite HDr'. fold Rd'. rewrite HRd'.
    unfold received. rewrite Hline. reflexivity. }
  assert (Hres : exists ok out err,
             payload = response_record ok out err /\
             result_of_response payload
             = Ret {| success := ok; stdout_text := JStr out; stderr_text := JStr err;
                      error := None |}).
  { destruct (run_payload _ _ _ _ Hrun) as [(out & err & _ & ->) | (out & err & tb & _ & ->)];
      eexists _, _, _; split; reflexivity. }
  destruct Hres as (ok & out & err & Hpay & Hres).
  assert (Hsecond : run2 = (state_of Rd', trace_of Wr' ++ trace_of Dr' ++ trace_of Rd',
                       result_of_response payload)).
  { subst run2. rewrite Hres.
    rewrite (execute_python_first_returns code' timeout' (state_of run1)
               {| success := ok; stdout_text := JStr out; stderr_text := JStr err;
                  error := None |});
      [rewrite HA'; rewrite Hres; reflexivity | rewrite HA'; exact Hres]. }
  assert (HtWr : trace_of Wr = [EvWrite wr request (Ret tt)])
    by (unfold Wr; rewrite write_trace; fold Wr; rewrite HWr; reflexivity).
  assert (HtDr : trace_of Dr = [EvDrain wr (Ret tt)])
    by (unfold Dr; rewrite drain_trace; fold Dr; rewrite HDr; reflexivity).
  assert (HtWr' : trace_of Wr' = [EvWrite wr request' (Ret tt)])
    by (unfold Wr'; rewrite write_trace; fold Wr'; rewrite HWr'; reflexivity).
  assert (HtDr' : trace_of Dr' = [EvDrain wr (Ret tt)])
    by (unfold Dr'; rewrite drain_trace; fold Dr'; rewrite HDr'; reflexivity).
  split; [rewrite Hfirst; reflexivity |].
  split; [exact Hself |].
  split; [rewrite Hfirst; norm_run; rewrite HtWr, HtDr; reflexivity |].
  split; [rewrite Hsecond; norm_run; rewrite HtWr', HtDr'; reflexivity |].
  split.
  { rewrite restarts_app.
    pose proof (attempt_restarts code timeout st) as R1.
    pose proof (attempt_restarts code' timeout' (state_of run1)) as R2.
    rewrite HA in R1. rewrite HA' in R2. rewrite Hfirst, Hsecond. norm_run. lia. }
  split; [rewrite Hsecond; reflexivity |].
  exists ok, out, err. split; [exact Hpay |]. rewrite Hsecond. norm_run. exact Hres.
Qed.
End StaleResponse.

(** * Termination by the one-off helpers *)

Section OneOff.
Context {codec : Codec} {W : Type} {platform : Platform W}.
#[local] Abbreviation St := (@St W).

(** The sandbox handle of [self] is [sb]. *)
Definition handle_is (sb : modal_sandbox) (st : St) (x : unit) : Prop :=
  _sandbox (self st) = sb.

Lemma handle_is_world_free sb : world_free (handle_is sb).
Proof. intros st x w Hs; exact Hs. Qed.

Ltac handle_leaf :=
  first [ apply handle_is_world_free
        | intros; apply pass_transparent
        | intros ? ? Hs; exact Hs ].

Lemma communicate_keeps_handle sb payload timeout :
  preserves pass (handle_is sb) (_communicate_with_python payload timeout).
Proof. unfold _communicate_with_python. preserves_with handle_leaf. Qed.

Lemma start_keeps_handle sb timeout :
  preserves pass (handle_is sb) (_start_python_session timeout).
Proof.
  unfold _start_python_session. preserves_with handle_leaf.
  apply communicate_keeps_handle.
Qed.

Lemma stop_keeps_handle sb :
  preserves pass (handle_is sb) (_stop_python_session (W := W)).
Proof. unfold _stop_python_session. preserves_with handle_leaf. Qed.

Lemma restart_keeps_handle sb timeout :
  preserves pass (handle_is sb) (_restart_python_session timeout).
Proof.
  unfold _restart_python_session.
  apply preserves_bind; [intros st x Hs; exists x; split; [reflexivity | exact Hs] |].
  intros []. apply preserves_bind; [apply stop_keeps_handle |].
  intros []. apply start_keeps_handle.
Qed.

Lemma execute_python_keeps_handle sb code timeout :
  preserves pass (handle_is sb) (execute_python code timeout).
Proof.
  unfold execute_python. generalize (@None exn). generalize 2%nat.
  intros n; induction n as [| n IH]; intros last; simpl.
  - apply preserves_ret.
  - apply preserves_bind.
    + unfold python_round, python_attempt, _ensure_python_session.
      preserves_with handle_leaf;
        first [ apply start_keeps_handle | apply communicate_keeps_handle
              | apply restart_keeps_handle ].
    + intros [r | exc]; [apply preserves_ret | apply IH].
Qed.

Lemma execute_bash_keeps_handle sb command timeout :
  preserves pass (handle_is sb) (execute_bash command timeout).
Proof. unfold execute_bash, bash_attempt. preserves_with handle_leaf. Qed.

(** [terminate]: the session is stopped, then the platform is asked to
    terminate the sandbox, whose answer is the outcome. *)
Lemma terminate_run (st : St) :
  trace_of (terminate st)
  = trace_of (_stop_python_session st)
      ++ [EvTerminate (_sandbox (self st)) (outcome_of (terminate st))].
Proof.
  destruct (stop_run st) as [Ho Hs].
  assert (Hsb : _sandbox (self (state_of (_stop_python_session st))) = _sandbox (self st))
    by (rewrite Hs; reflexivity).
  unfold terminate, bind, get_self, state_of, trace_of, outcome_of in *.
  destruct (_stop_python_session st) as [[s1 t1] o1]; simpl in *. subst o1.
  unfold call_terminate. 
  pose proof (on_world_call_run (fun w => sandbox_terminate w (_sandbox (self s1)))
                (EvTerminate (_sandbox (self s1))) s1) as Hcall.
  destruct (on_world _ s1) as [[s2 t2] o2]. 
  injection Hcall as -> -> ->. simpl. rewrite Hsb. reflexivity.
Qed.

(** [terminate] leaves the object without a process. *)
Lemma terminate_self (st : St) :
  self (state_of (terminate st)) = without_process (self st).
Proof.
  destruct (stop_run st) as [Ho Hs].
  unfold terminate. rewrite bind_run, Ho. norm_run.
  unfold bind at 1. unfold get_self. unfold call_terminate.
  rewrite on_world_call_run. norm_run. simpl. exact Hs.
Qed.

(** A [try ... finally: await sandbox.terminate()] on a local object: the
    last thing done is the request to terminate its sandbox, however the
    body ended. *)
Lemma finally_terminate_run {A} (m : M St A) (obj : Sandbox) (w : W) :
  preserves pass (handle_is (_sandbox obj)) m ->
  let inner := m {| world := w; self := obj |} in
  let whole := with_object obj (finally m terminate) w in
  exists tr r,
    trace_of whole = trace_of inner ++ tr ++ [EvTerminate (_sandbox obj) r] /\
    outcome_of whole = match r with Ret _ => outcome_of inner | Raise e => Raise e end.
Proof.
  intros Hm. cbv zeta.
  destruct (Hm {| world := w; self := obj |} tt eq_refl) as (x' & _ & Hsb).
  unfold with_object. rewrite finally_run.
  rewrite (terminate_run (state_of (m {| world := w; self := obj |}))).
  unfold handle_is in Hsb. rewrite Hsb. norm_run.
  exists (trace_of (_stop_python_session (state_of (m {| world := w; self := obj |})))),
         (outcome_of (terminate (state_of (m {| world := w; self := obj |})))).
  split; [reflexivity |].
  destruct (outcome_of (terminate _)) as [[] | e]; reflexivity.
Qed.

Lemma helper_run {A} (body : M St A) (id : string) (w : W) (obj : Sandbox) :
  outcome_of (Sandbox_create id 600 w) = Ret obj ->
  let created := Sandbox_create id 600 w in
  let whole := with_object obj (finally body terminate) (state_of created) in
  trace_of
    ((sandbox <- Sandbox_create id 600 ;; with_object sandbox (finally body terminate)) w)
  = trace_of created ++ trace_of whole /\
  outcome_of
    ((sandbox <- Sandbox_create id 600 ;; with_object sandbox (finally body terminate)) w)
  = outcome_of whole.
Proof.
  intros Hc. cbv zeta. rewrite bind_run, Hc. norm_run. split; reflexivity.
Qed.

End OneOff.

(** * The registry *)

Section RegistryProperties.
Context {codec : Codec} {W : Type} {platform : Platform W}.
#[local] Abbreviation Global := (@Global W).

(** Every registered reference points to an allocated object. *)
Definition registry_wf (g : Global) : Prop :=
  forall id ref, _sandboxes g !! id = Some ref -> (ref < length (heap g))%nat.

Lemma get_sandbox_registered (id : string) (g : Global) (ref : nat) :
  _sandboxes g !! id = Some ref -> _get_sandbox id g = (g, [], Ret ref).
Proof.
  intros Hreg. unfold _get_sandbox, bind, get. rewrite Hreg. reflexivity.
Qed.

Lemma get_sandbox_new (id : string) (g : Global) :
  _sandboxes g !! id = None ->
  let created := Sandbox_create id 600 (g_world g) in
  _get_sandbox id g =
  match outcome_of created with
  | Ret obj =>
      ({| g_world := state_of created; heap := heap g ++ [obj];
          _sandboxes := <[id := length (heap g)]> (_sandboxes g) |},
       trace_of created, Ret (length (heap g)))
  | Raise e =>
      ({| g_world := state_of created; heap := heap g; _sandboxes := _sandboxes g |},
       trace_of created, Raise e)
  end.
Proof.
  intros Hreg. cbv zeta.
  unfold _get_sandbox, bind, get, on_platform, zoom, alloc, registry_set, ret,
    state_of, trace_of, outcome_of.
  rewrite Hreg.
  destruct (Sandbox_create id 600 (g_world g)) as [[w1 t1] [obj | e]]; simpl;
    [| reflexivity].
  rewrite !app_nil_r. reflexivity.
Qed.

Lemma cleanup_unregistered (id : string) (g : Global) :
  _sandboxes g !! id = None -> cleanup_sandbox id g = (g, [], Ret tt).
Proof.
  intros Hreg. unfold cleanup_sandbox, bind, get. rewrite Hreg. reflexivity.
Qed.

Lemma cleanup_registered (id : string) (g : Global) (ref : nat) (obj : Sandbox) :
  _sandboxes g !! id = Some ref -> heap g !! ref = Some obj ->
  let ended := terminate {| world := g_world g; self := obj |} in
  cleanup_sandbox id g =
  match outcome_of ended with
  | Ret _ =>
      ({| g_world := world (state_of ended);
          heap := <[ref := self (state_of ended)]> (heap g);
          _sandboxes := delete id (_sandboxes g) |},
       trace_of ended, Ret tt)
  | Raise e =>
      ({| g_world := world (state_of ended);
          heap := <[ref := self (state_of ended)]> (heap g);
          _sandboxes := _sandboxes g |},
       trace_of ended, Raise e)
  end.
Proof.
  intros Hreg Hobj. cbv zeta.
  unfold cleanup_sandbox, bind, get, on_object, registry_del, state_of, trace_of,
    outcome_of.
  rewrite Hreg, Hobj.
  destruct (terminate {| world := g_world g; self := obj |}) as [[s1 t1] [[] | e]]; simpl;
    [| reflexivity].
  rewrite app_nil_r. reflexivity.
Qed.

Lemma get_sandbox_wf (id : string) (g : Global) :
  registry_wf g -> registry_wf (state_of (_get_sandbox id g)).
Proof.
  intros Hwf. destruct (_sandboxes g !! id) as [ref |] eqn:Hreg.
  - rewrite (get_sandbox_registered _ _ _ Hreg). exact Hwf.
  - rewrite (get_sandbox_new _ _ Hreg). cbv zeta.
    destruct (outcome_of (Sandbox_create id 600 (g_world g))) as [obj | e]; norm_run.
    + intros id' ref' Hl. simpl in *. rewrite length_app. simpl.
      destruct (decide (id = id')) as [-> | Hne].
      * rewrite lookup_insert_eq in Hl. simplify_eq. lia.
      * rewrite lookup_insert_ne in Hl by exact Hne. apply Hwf in Hl. lia.
    + exact Hwf.
Qed.

Lemma cleanup_wf (id : string) (g : Global) :
  registry_wf g -> registry_wf (state_of (cleanup_sandbox id g)).
Proof.
  intros Hwf. destruct (_sandboxes g !! id) as [ref |] eqn:Hreg.
  - destruct (heap g !! ref) as [obj |] eqn:Hobj.
    + rewrite (cleanup_registered _ _ _ _ Hreg Hobj). cbv zeta.
      destruct (outcome_of (terminate _)) as [[] | e]; norm_run;
        intros id' ref' Hl; simpl in *; rewrite length_insert.
      * destruct (decide (id = id')) as [-> | Hne].
        -- rewrite lookup_delete_eq in Hl. discriminate Hl.
        -- rewrite lookup_delete_ne in Hl by exact Hne. exact (Hwf _ _ Hl).
      * exact (Hwf _ _ Hl).
    + apply Hwf in Hreg. apply lookup_ge_None in Hobj. lia.
  - rewrite (cleanup_unregistered _ _ Hreg). exact Hwf.
Qed.

End RegistryProperties.

(** * The resident loop *)

Section LoopProperties.
Context {codec : Codec} {NS : Type} {interpreter : Interpreter NS}.

(** One more line in front of what the rest of the loop prints. *)
Definition emit (out : string) (r : list string * NS * loop_end * list string) :
    list string * NS * loop_end * list string :=
  let '(outs, ns, e, unread) := r in (out :: outs, ns, e, unread).

Definition printed (r : list string * NS * loop_end * list string) : list string :=
  fst (fst (fst r)).
Definition unread (r : list string * NS * loop_end * list string) : list string := snd r.

Lemma session_loop_cons (ns : NS) (line : string) (rest : list string) :
  session_loop ns (line :: rest) =
  match loop_round ns line with
  | Skip => session_loop ns rest
  | Reply out ns' => emit out (session_loop ns' rest)
  | ReplyAndBreak out => ([out], ns, Terminated, rest)
  | Die why ns' => ([], ns', why, rest)
  end.
Proof.
  simpl. destruct (loop_round ns line); reflexivity.
Qed.

(** The loop prints at most one line for each line it reads. *)
Lemma one_response_per_line (ns : NS) (input : list string) :
  (length (printed (session_loop ns input)) + length (unread (session_loop ns input))
   <= length input)%nat.
Proof.
  revert ns; induction input as [| line rest IH]; intros ns; [simpl; lia |].
  rewrite session_loop_cons. destruct (loop_round ns line) as [| out ns' | out | why ns'].
  - specialize (IH ns). simpl length. lia.
  - specialize (IH ns'). unfold emit, printed, unread in *.
    destruct (session_loop ns' rest) as [[[outs ns''] e] un]. simpl in *. lia.
  - unfold printed, unread. simpl. lia.
  - unfold printed, unread. simpl. lia.
Qed.

(** C4, as the code has it.  For the line the loop reads: a line that is
    blank once stripped is skipped without a response; a line that decodes
    to an object is answered by exactly one line, printed before the next
    line is read, provided the snippet returns or raises an [Exception]
    (the termination request is answered and ends the loop); a line that
    does not decode is not skipped: [json.loads] raises, the loop ends
    without a response and reads no further line, and so it does for a
    value that is no object and for a snippet that raises outside
    [Exception]. *)
Theorem resident_loop_round (ns : NS) (line : string) (rest : list string) :
  let text := strip line in
  (str_empty text = true ->
     session_loop ns (line :: rest) = session_loop ns rest) /\
  (str_empty text = false ->
   forall items, json_loads text = Ret (JObj items) ->
     (truthy (items_get items "_terminate" JNull) = true ->
        session_loop ns (line :: rest)
        = ([json_dumps (response_record true "" "") +:+ nl], ns, Terminated, rest)) /\
     (truthy (items_get items "_terminate" JNull) = false ->
        (forall ns' payload,
           run (items_get items "code" (JStr "")) ns = (ns', Some payload) ->
           session_loop ns (line :: rest)
           = emit (json_dumps payload +:+ nl) (session_loop ns' rest)) /\
        (forall ns',
           run (items_get items "code" (JStr "")) ns = (ns', None) ->
           session_loop ns (line :: rest) = ([], ns', Exited, rest)))) /\
  (str_empty text = false ->
   forall e, json_loads text = Raise e ->
     session_loop ns (line :: rest) = ([], ns, Crashed e, rest)) /\
  (str_empty text = false ->
   forall v, json_loads text = Ret v -> is_object v = false ->
     session_loop ns (line :: rest)
     = ([], ns,
        Crashed (AttributeError ("'" +:+ type_name v +:+ "' object has no attribute 'get'")),
        rest)).
Proof.
  cbv zeta. rewrite session_loop_cons. unfold loop_round.
  split; [intros ->; reflexivity |].
  split; [| split].
  - intros -> items ->. simpl py_get. cbv iota. split.
    + intros ->. reflexivity.
    + intros ->. split.
      * intros ns' payload ->. reflexivity.
      * intros ns' ->. reflexivity.
  - intros -> e ->. reflexivity.
  - intros -> v -> Hv. destruct v; try discriminate Hv; reflexivity.
Qed.
End LoopProperties.

(** * Concrete runs *)

Module Scenarios.
Import MiniCodec Scripted Echo.

#[local] Abbreviation St := (@St script_world).

(** A [Sandbox] as [__init__] leaves it, on a platform that follows [rs]. *)
Definition fresh (rs : list reply) : St :=
  {| world := script rs; self := Sandbox_init "agent-1" the_sandbox |}.

(** The same with a resident process already held. *)
Definition ready (rs : list reply) : St :=
  {| world := script rs;
     self := {| session_id := "agent-1"; _sandbox := the_sandbox;
                _python_proc := Some (process 1) |} |}.

(** The response line to a snippet that printed [out]. *)
Definition response_line (ok : bool) (out err : string) : reply :=
  line (mini_dumps (response_record ok out err)).

(** End of stream: the process is gone. *)
Definition eof : reply := RData (DBytes []).

Definition gone : exn := OtherError "Sandbox has already shut down".

(** The platform refuses every [exec]: the sandbox has outlived its
    lifetime. *)
Definition expired : St := fresh [RRaise gone; RRaise gone].

(** Both attempts find the process dead; both restarts go through. *)
Definition dies_twice : St :=
  ready [ RDone; RDone; eof;                                   (* first attempt *)
          RDone; RDone; eof; RDone;                            (* stop *)
          RProc (process 2); RDone; RDone; response_line true "" "";  (* start *)
          RDone; RDone; eof;                                   (* retry *)
          RDone; RDone; eof; RDone;                            (* stop *)
          RProc (process 3); RDone; RDone; response_line true "" "" ].

(** The wait for the first response times out; the next call is answered. *)
Definition slow_then_fast : St :=
  ready [ RDone; RDone; RRaise (TimeoutError "");
          RDone; RDone; response_line true ("1" +:+ nl) "" ].

(** The process answers with a record that has only the [ok] field. *)
Definition answers_ok_only : St :=
  ready [ RDone; RDone; line ("{" +:+ quoted "ok" +:+ ": true}") ].

Definition sleep_code : string := "import time; time.sleep(600)".
Definition print_code : string := "print(1)".

(** The line the resident loop prints for [sleep_code], had it finished. *)
Definition stale_line : data :=
  DBytes (list_byte_of_string (mini_dumps (response_record true sleep_code "") +:+ nl)).

(** The wait times out; the response to the first request is the next line
    on the process's stdout. *)
Definition slow_then_stale : St :=
  ready [ RDone; RDone; RRaise (TimeoutError ""); RDone; RDone; RData stale_line ].

(** A world in which [Sandbox.create] goes through and every [exec] is
    refused. *)
Definition creates_then_refuses : script_world :=
  script [ RApp {| app_name := APP_NAME |}; RVolume {| volume_name := VOLUME_NAME |};
           RSandbox the_sandbox; RRaise gone; RRaise gone; RDone ].

(** A world in which a sandbox is created and later terminated. *)
Definition creates_then_terminates : script_world :=
  script [ RApp {| app_name := APP_NAME |}; RVolume {| volume_name := VOLUME_NAME |};
           RSandbox the_sandbox; RDone ].

(** A one-shot process prints a line and exits with code 0. *)
Definition echo_hi : St :=
  fresh [ RProc (process 7); line "hi"; RData (DBytes []); RDone ].
End Scenarios.

Import MiniCodec Scripted Echo Scenarios.

(** C1 fails for [execute_python]: the restart sits in the [except] clause,
    outside any [try], so when the first attempt fails with something other
    than [TimeoutError] and the restart raises, that exception is the
    outcome of the call. *)
Theorem execute_python_propagates_restart_failure
    {codec : Codec} {W : Type} {platform : Platform W}
    (code : string) (timeout : Z) (st : @St W) (e1 e : exn) :
  outcome_of (first_attempt code timeout st) = Raise e1 ->
  is_timeout e1 = false ->
  outcome_of (first_restart code timeout st) = Raise e ->
  outcome_of (execute_python code timeout st) = Raise e.
Proof.
  intros He1 Ht He. rewrite execute_python_run, He1, Ht, He. reflexivity.
Qed.

(** An exception leaves [execute_python] only from one of its restarts. *)
Lemma execute_python_raises_from_restart
    {codec : Codec} {W : Type} {platform : Platform W}
    (code : string) (timeout : Z) (st : @St W) (e : exn) :
  outcome_of (execute_python code timeout st) = Raise e ->
  outcome_of (first_restart code timeout st) = Raise e \/
  outcome_of (second_restart code timeout st) = Raise e.
Proof.
  rewrite execute_python_run.
  destruct (outcome_of (first_attempt code timeout st)) as [r | e1]; norm_run;
    [discriminate |].
  destruct (is_timeout e1); norm_run; [discriminate |].
  destruct (outcome_of (first_restart code timeout st)) as [[] | e'] eqn:HR1; norm_run;
    [| intros [= <-]; left; reflexivity].
  destruct (outcome_of (second_attempt code timeout st)) as [r | e2]; norm_run;
    [discriminate |].
  destruct (is_timeout e2); norm_run; [discriminate |].
  destruct (outcome_of (second_restart code timeout st)) as [[] | e'']; norm_run;
    [discriminate | intros [= <-]; right; reflexivity].
Qed.

(** On a sandbox that refuses every [exec], [execute_python] raises. *)
Lemma restart_failure_reaches_caller :
  outcome_of (execute_python "x = 1" DEFAULT_TIMEOUT expired) = Raise gone.
Proof.
  apply (execute_python_propagates_restart_failure "x = 1" DEFAULT_TIMEOUT expired gone gone);
    vm_compute; reflexivity.
Defined.

(** C2 as stated fails: when the retry fails as well, a second restart is
    made within the same call. *)
Lemma second_failure_restarts_again :
  let run := execute_python print_code DEFAULT_TIMEOUT dies_twice in
  restarts (trace_of run) = 2%nat /\
  outcome_of run = Ret (failure_result "Python session terminated unexpectedly").
Proof. vm_compute. split; reflexivity. Qed.

(** The same run, read off the general statement: two restarts, and the
    failure result carries the text of the retry's error. *)
Lemma restart_and_retry_on_dead_process :
  let run := execute_python print_code DEFAULT_TIMEOUT dies_twice in
  (restarts (trace_of run) <= 2)%nat /\
  restarts (trace_of run) = 2%nat /\
  outcome_of run = Ret (failure_result "Python session terminated unexpectedly").
Proof.
  cbv zeta.
  pose proof (execute_python_restart_and_retry print_code DEFAULT_TIMEOUT dies_twice)
    as Hthm.
  cbv zeta in Hthm. destruct Hthm as [Hle Hfail].
  split; [exact Hle |].
  destruct (Hfail (RuntimeError "Python session terminated unexpectedly")
              ltac:(vm_compute; reflexivity) eq_refl) as (_ & _ & Hretry).
  destruct (Hretry ltac:(vm_compute; reflexivity)) as (_ & _ & _ & _ & Hboth).
  destruct (Hboth (RuntimeError "Python session terminated unexpectedly")
              ltac:(vm_compute; reflexivity) eq_refl) as [Htwo Hres].
  split; [exact Htwo |].
  apply Hres. vm_compute; reflexivity.
Defined.

(** A wait that times out on a running session, then a call that is
    answered by the same process. *)
Lemma timeout_then_fast_call :
  let run := execute_python sleep_code 5 slow_then_fast in
  outcome_of run = Ret (timeout_result 5) /\
  self (state_of run) = self slow_then_fast /\
  restarts (trace_of run) = 0%nat /\
  outcome_of (execute_python print_code DEFAULT_TIMEOUT (state_of run))
  = Ret {| success := true; stdout_text := JStr ("1" +:+ nl); stderr_text := JStr "";
           error := None |}.
Proof.
  cbv zeta.
  pose proof (execute_python_timeout sleep_code 5 slow_then_fast "") as Hthm.
  cbv zeta in Hthm. destruct Hthm as [Hfirst _].
  destruct (Hfirst ltac:(vm_compute; reflexivity)) as (Ho & _ & _ & Hr & Hready).
  destruct (Hready (process 1) eq_refl) as [Hself Hnext].
  split; [exact Ho |]. split; [exact Hself |]. split; [exact Hr |].
  apply (Hnext print_code DEFAULT_TIMEOUT). vm_compute; reflexivity.
Defined.

(** The response record as the protocol describes it: an object with a
    boolean [ok] and the strings [stdout] and [stderr]. *)
Definition complete_record (v : json) : bool :=
  match v with
  | JObj items =>
      match items_get items "ok" JNull, items_get items "stdout" JNull,
            items_get items "stderr" JNull with
      | JBool _, JStr _, JStr _ => true
      | _, _, _ => false
      end
  | _ => false
  end.

(** C5 as stated fails: a record with the [ok] field alone is no complete
    response record, yet it is returned as a success and no restart is
    made. *)
Lemma incomplete_record_accepted :
  let run := execute_python print_code DEFAULT_TIMEOUT answers_ok_only in
  json_loads ("{" +:+ quoted "ok" +:+ ": true}") = Ret (JObj [("ok", JBool true)]) /\
  complete_record (JObj [("ok", JBool true)]) = false /\
  outcome_of run = Ret {| success := true; stdout_text := JStr ""; stderr_text := JStr "";
                          error := None |} /\
  restarts (trace_of run) = 0%nat.
Proof. vm_compute. repeat split; reflexivity. Qed.

(** The same run, read off the general statement. *)
Lemma ok_only_record_returned :
  let run := execute_python print_code DEFAULT_TIMEOUT answers_ok_only in
  outcome_of run = Ret {| success := true; stdout_text := JStr ""; stderr_text := JStr "";
                          error := None |} /\
  restarts (trace_of run) = 0%nat /\
  self (state_of run) = self answers_ok_only.
Proof.
  cbv zeta.
  pose proof (response_line_handling print_code DEFAULT_TIMEOUT answers_ok_only
                (process 1) {| writer_id := 1 |} (reader 2)
                (DBytes (list_byte_of_string ("{" +:+ quoted "ok" +:+ ": true}" +:+ nl))))
    as Hthm.
  cbv zeta in Hthm.
  destruct (Hthm eq_refl eq_refl eq_refl
              ltac:(vm_compute; reflexivity) ltac:(vm_compute; reflexivity)
              ltac:(vm_compute; reflexivity))
    as (_ & _ & Hret & _).
  apply Hret. vm_compute; reflexivity.
Defined.

(** The first request times out; its response is what the second call
    returns. *)
Lemma timed_out_request_answers_next_call :
  let run1 := execute_python sleep_code 5 slow_then_stale in
  let run2 := execute_python print_code DEFAULT_TIMEOUT (state_of run1) in
  outcome_of run1 = Ret (timeout_result 5) /\
  restarts (trace_of run1 ++ trace_of run2) = 0%nat /\
  outcome_of run2
  = Ret {| success := true; stdout_text := JStr sleep_code; stderr_text := JStr "";
           error := None |}.
Proof.
  cbv zeta.
  pose proof (stale_response_consumed sleep_code print_code 5 DEFAULT_TIMEOUT
                slow_then_stale (process 1) {| writer_id := 1 |} (reader 2) ""
                stale_line (empty_namespace (NS := list json)) [JStr sleep_code]
                (response_record true sleep_code ""))
    as Hthm.
  cbv zeta in Hthm.
  destruct (Hthm eq_refl eq_refl eq_refl
              ltac:(vm_compute; reflexivity) ltac:(vm_compute; reflexivity)
              ltac:(vm_compute; reflexivity) ltac:(vm_compute; reflexivity)
              ltac:(vm_compute; reflexivity) ltac:(vm_compute; reflexivity)
              ltac:(vm_compute; reflexivity) ltac:(vm_compute; reflexivity))
    as (Ho1 & _ & _ & _ & Hr & _ & ok & out & err & Hpay & Ho2).
  split; [exact Ho1 |]. split; [exact Hr |].
  injection Hpay as <- <- <-. exact Ho2.
Defined.


(** C4 as stated fails: a line that does not decode ends the loop; the
    request behind it is never read, though the loop serves it when it
    comes alone. *)
Lemma corrupted_line_ends_loop :
  let request := json_dumps (code_request (JStr "x = 1")) +:+ nl in
  session_loop empty_namespace ["not json" +:+ nl; request]
  = ([], [], Crashed (JSONDecodeError "Expecting value"), [request]) /\
  session_loop empty_namespace [request]
  = ([json_dumps (response_record true "x = 1" "") +:+ nl], [JStr "x = 1"],
     EndOfInput, []).
Proof. vm_compute. split; reflexivity. Qed.

(** A request, a corrupted line, a request: one response, then the loop is
    over. *)
Lemma loop_serves_then_dies :
  let request := json_dumps (code_request (JStr "x = 1")) +:+ nl in
  session_loop empty_namespace [request; "not json" +:+ nl; request]
  = ([json_dumps (response_record true "x = 1" "") +:+ nl], [JStr "x = 1"],
     Crashed (JSONDecodeError "Expecting value"), [request]).
Proof.
  cbv zeta.
  pose proof (resident_loop_round (empty_namespace (NS := list json))
                (json_dumps (code_request (JStr "x = 1")) +:+ nl)
                ["not json" +:+ nl; json_dumps (code_request (JStr "x = 1")) +:+ nl])
    as Hfirst.
  cbv zeta in Hfirst. destruct Hfirst as (_ & Hobj & _).
  destruct (Hobj ltac:(vm_compute; reflexivity) [("code", JStr "x = 1")]
              ltac:(vm_compute; reflexivity)) as [_ Hcode].
  destruct (Hcode eq_refl) as [Hreply _].
  rewrite (Hreply [JStr "x = 1"] (response_record true "x = 1" ""))
    by (vm_compute; reflexivity).
  pose proof (resident_loop_round [JStr "x = 1"] ("not json" +:+ nl)
                [json_dumps (code_request (JStr "x = 1")) +:+ nl])
    as Hsecond.
  cbv zeta in Hsecond. destruct Hsecond as (_ & _ & Hbad & _).
  rewrite (Hbad ltac:(vm_compute; reflexivity) (JSONDecodeError "Expecting value"))
    by (vm_compute; reflexivity).
  reflexivity.
Defined.

(** [echo hi]: a success with the captured line. *)
Lemma echo_hi_succeeds :
  outcome_of (execute_bash "echo hi" DEFAULT_TIMEOUT echo_hi)
  = Ret {| success := true; stdout_text := JStr ("hi" +:+ nl); stderr_text := JStr "";
           error := None |} /\
  self (state_of (execute_bash "echo hi" DEFAULT_TIMEOUT echo_hi)) = self echo_hi.
Proof.
  pose proof (execute_bash_outcomes "echo hi" DEFAULT_TIMEOUT echo_hi) as Hthm.
  cbv zeta in Hthm. destruct Hthm as ([Hself _] & Hdone & _).
  split; [| exact Hself].
  destruct (Hdone {| success := true; stdout_text := JStr ("hi" +:+ nl);
                     stderr_text := JStr ""; error := None |}
              ltac:(vm_compute; reflexivity)) as [Ho _].
  exact Ho.
Defined.

(** The monitor of C6 at work: it accepts a session in which the process
    dies and is restarted, and rejects a trace in which caller code is the
    first record written to a process. *)
Example monitor_accepts_session :
  exists x,
    scan init_first fresh_watch
      (snd (session [ExecutePython print_code 120; ExecutePython "x = 1" 120]
              (fresh [ RProc (process 1); RDone; RDone; response_line true "" "";
                       RDone; RDone; response_line true ("1" +:+ nl) "";
                       RDone; RDone; eof;
                       RDone; RDone; eof; RDone;
                       RProc (process 2); RDone; RDone; response_line true "" "";
                       RDone; RDone; response_line true "" "" ])))
    = Some x /\ current x = Some (process 2) /\ initialised x = true.
Proof. eexists. vm_compute. repeat split; reflexivity. Qed.

Example monitor_rejects_uninitialised :
  scan init_first fresh_watch
    [ EvExec the_sandbox resident_argv 120 (Ret (process 1));
      EvWrite {| writer_id := 1 |} (Encoded (code_request (JStr "x = 1"))) (Ret tt) ]
  = None.
Proof. vm_compute. reflexivity. Qed.




(** Cutting a text into its characters loses nothing. *)
Lemma chars_concat (s : string) : String.concat "" (chars s) = s.
Proof.
  induction s as [| c s IH]; [reflexivity |].
  cbn [chars]. destruct (chars s) as [| [| d tail] more].
  - simpl in *. subst s. reflexivity.
  - simpl in *. destruct more; rewrite <- IH; reflexivity.
  - destruct (is_continuation d).
    + rewrite <- IH. destruct more; reflexivity.
    + rewrite <- IH. destruct more; reflexivity.
Qed.

(** Whitespace beyond ASCII is whitespace to [str.strip()]: a line that
    holds only a no-break space (U+00A0) is blank.  The resident loop skips
    it, and the host takes it for the empty response. *)
Definition nbsp : string := String (ascii_of_nat 194) (String (ascii_of_nat 160) EmptyString).

Example blank_line_beyond_ascii :
  strip (nbsp +:+ nl) = "" /\
  strip (nbsp +:+ "{}" +:+ nbsp +:+ nl) = "{}" /\
  loop_round empty_namespace (nbsp +:+ nl) = Skip /\
  decode_response (DStr (nbsp +:+ nl)) = Ret (response_record true "" "") /\
  decode_response (DBytes (list_byte_of_string (nbsp +:+ nl)))
  = Ret (response_record true "" "").
Proof. vm_compute. repeat split; reflexivity. Qed.


(** The two ends of the pipe together: the bytes the host writes for the
    initialization request and for a caller's request are lines the
    resident loop decodes, and it runs them in the order written. *)
Example init_runs_first :
  let wire payload := string_of_list_byte (message_bytes (Encoded payload)) in
  session_loop empty_namespace
    [ wire (code_request (JStr _PYTHON_SESSION_INIT)); wire (code_request (JStr "x = 1")) ]
  = ([ json_dumps (response_record true _PYTHON_SESSION_INIT "") +:+ nl;
       json_dumps (response_record true "x = 1" "") +:+ nl ],
     [JStr _PYTHON_SESSION_INIT; JStr "x = 1"], EndOfInput, []).
Proof. vm_compute. reflexivity. Qed.

(** * Further properties of the session

    What the methods never do, and what they leave behind when they fail. *)

(** ** Traces that stay within a set of events *)

(** The monitor that accepts the events [allowed] lets through. *)
Definition only (allowed : event -> bool) (x : unit) (ev : event) : option unit :=
  if allowed ev then Some x else None.

Lemma scan_only (allowed : event -> bool) (tr : list event) (x x' : unit) :
  scan (only allowed) x tr = Some x' -> Forall (fun ev => allowed ev = true) tr.
Proof.
  revert x; induction tr as [| ev tr IH]; intros x; simpl; [constructor |].
  unfold only at 1. destruct (allowed ev) eqn:Hev; [| discriminate].
  intros Hscan. constructor; [exact Hev | exact (IH _ Hscan)].
Qed.

Lemma only_transparent (allowed : event -> bool) (ev : event) :
  allowed ev = true -> transparent (only allowed) ev.
Proof. intros Hev x. unfold only. rewrite Hev. reflexivity. Qed.

(** The monitor that counts the events [counted] selects. *)
Definition tally (counted : event -> bool) (n : nat) (ev : event) : option nat :=
  Some (if counted ev then S n else n).

Definition count_events (counted : event -> bool) (tr : list event) : nat :=
  length (List.filter counted tr).

Lemma count_events_app (counted : event -> bool) (t1 t2 : list event) :
  count_events counted (t1 ++ t2)
  = (count_events counted t1 + count_events counted t2)%nat.
Proof. unfold count_events. rewrite List.filter_app, length_app. reflexivity. Qed.

Lemma scan_tally (counted : event -> bool) (n : nat) (tr : list event) :
  scan (tally counted) n tr = Some (n + count_events counted tr)%nat.
Proof.
  revert n; induction tr as [| ev tr IH]; intros n; simpl.
  - f_equal. unfold count_events; simpl. lia.
  - rewrite IH. f_equal. unfold count_events; simpl.
    destruct (counted ev); simpl; lia.
Qed.

Lemma tally_transparent (counted : event -> bool) (ev : event) :
  counted ev = false -> transparent (tally counted) ev.
Proof. intros Hev n. unfold tally. rewrite Hev. reflexivity. Qed.

Section SelfRules.
Context {codec : Codec} {W : Type} {platform : Platform W}
  {X : Type} (observe : X -> event -> option X).
#[local] Abbreviation St := (@St W).

(** Reading [self] under an invariant: the object read is one the
    invariant holds of. *)
Lemma preserves_get_self_of {A} (I : St -> X -> Prop) (k : Sandbox -> M St A) :
  (forall me, (exists st x, I st x /\ self st = me) -> preserves observe I (k me)) ->
  preserves observe I (bind get_self k).
Proof.
  intros Hk st x Hi. rewrite bind_run. unfold get_self; simpl.
  exact (Hk (self st) (ex_intro _ st (ex_intro _ x (conj Hi eq_refl))) st x Hi).
Qed.

Lemma preserves_mark (I : St -> X -> Prop) (ev : event) :
  transparent observe ev -> preserves observe I (mark ev).
Proof.
  intros Hev st x Hi. exists x. split; [| exact Hi].
  unfold trace_of, mark; simpl. rewrite Hev. reflexivity.
Qed.

(** The reads, for a monitor that looks at the stream read and at the
    bound of the wait. *)
Lemma preserves_read_stream_at (I : St -> X -> Prop) (o : option stream) (wait : option Z) :
  world_free I ->
  (forall s r, o = Some s -> transparent observe (EvRecv s ByRead wait r)) ->
  preserves observe I (_read_stream o wait).
Proof.
  intros Hwf Htr. unfold _read_stream. destruct o as [s |]; [| apply preserves_ret].
  destruct (s_read s); [| apply preserves_ret].
  apply preserves_call; [exact Hwf | intros r; apply Htr; reflexivity].
Qed.

Lemma preserves_readline_at (I : St -> X -> Prop) (o : option stream) (wait : option Z) :
  world_free I ->
  (forall s k r, o = Some s -> transparent observe (EvRecv s k wait r)) ->
  preserves observe I (_readline o wait).
Proof.
  intros Hwf Htr. unfold _readline. destruct o as [s |]; [| apply preserves_ret].
  assert (Hcall : forall k, preserves observe I (on_world (call_recv s k wait))).
  { intros k. apply preserves_call; [exact Hwf | intros r; apply Htr; reflexivity]. }
  assert (Hnext : forall k, preserves observe I (anext_or_empty s k wait)).
  { intros k. unfold anext_or_empty. apply preserves_try; [apply Hcall |].
    intros e; destruct e; first [apply preserves_ret | apply preserves_raise]. }
  destruct (s_anext s); [apply Hnext |].
  destruct (s_aiter s) as [[|] |]; first
    [ apply Hnext
    | destruct (s_readline s);
      [ apply Hcall
      | apply preserves_read_stream_at;
        [exact Hwf | intros s' r [= <-]; apply Htr; reflexivity] ] ].
Qed.
End SelfRules.

(** The structural rules again, keeping what is known of [self]. *)
Ltac preserves_of leaf :=
  repeat
    lazymatch goal with
    | |- preserves _ _ (bind get_self _) => apply preserves_get_self_of; intros ? ?
    | |- preserves _ _ (bind _ _) => apply preserves_bind; [| intros ?]
    | |- preserves _ _ (try_except _ _) => apply preserves_try; [| intros ?]
    | |- preserves _ _ (finally _ _) => apply preserves_finally
    | |- preserves _ _ (suppress _ _) => apply preserves_suppress
    | |- preserves _ _ (ret _) => apply preserves_ret
    | |- preserves _ _ (raise _) => apply preserves_raise
    | |- preserves _ _ (lift_outcome _) => apply preserves_lift
    | |- preserves _ _ (mark _) => apply preserves_mark; leaf
    | |- preserves _ _ (_read_stream _ _) => apply preserves_read_stream_at; leaf
    | |- preserves _ _ (_readline _ _) => apply preserves_readline_at; leaf
    | |- preserves _ _ (on_world (call_returncode _)) => apply preserves_returncode
    | |- preserves _ _ (set_python_proc _) => apply preserves_set_python_proc; leaf
    | |- preserves _ _ (on_world _) => apply preserves_call; leaf
    | |- preserves _ _ (match ?x with _ => _ end) => destruct x eqn:?
    | |- preserves _ _ (if ?x then _ else _) => destruct x eqn:?
    end.

(** ** One object, one sandbox *)

(** The events of an object whose sandbox is [sb]: processes are spawned in
    [sb], [sb] is the sandbox terminated, and nothing is looked up or
    created. *)
Definition in_sandbox (sb : modal_sandbox) (ev : event) : bool :=
  match ev with
  | EvExec sb' _ _ _ | EvTerminate sb' _ => bool_decide (sb' = sb)
  | EvAppLookup _ _ | EvVolume _ _ | EvCreate _ _ => false
  | _ => true
  end.

Section Identity.
Context {codec : Codec} {W : Type} {platform : Platform W}.
#[local] Abbreviation St := (@St W).

(** [self] has the session id and the sandbox it was built with. *)
Definition identity_is (id : string) (sb : modal_sandbox) (st : St) (x : unit) : Prop :=
  session_id (self st) = id /\ _sandbox (self st) = sb.

Lemma identity_is_world_free id sb : world_free (identity_is id sb).
Proof. intros st x w Hs; exact Hs. Qed.

Ltac identity_leaf :=
  first [ apply identity_is_world_free
        | intros ? ? Hs; exact Hs
        | intros; apply only_transparent; simpl;
          repeat match goal with
                 | H : exists _ _, identity_is _ _ _ _ /\ _ |- _ =>
                     destruct H as (? & ? & [? ?] & ?); subst
                 end;
          rewrite ?bool_decide_eq_true_2 by reflexivity; reflexivity ].

Lemma communicate_identity id sb payload timeout :
  preserves (only (in_sandbox sb)) (identity_is id sb)
    (_communicate_with_python payload timeout).
Proof. unfold _communicate_with_python. preserves_of identity_leaf. Qed.

Lemma start_identity id sb timeout :
  preserves (only (in_sandbox sb)) (identity_is id sb) (_start_python_session timeout).
Proof.
  unfold _start_python_session. preserves_of identity_leaf.
  apply communicate_identity.
Qed.

Lemma stop_identity id sb :
  preserves (only (in_sandbox sb)) (identity_is id sb) (_stop_python_session (W := W)).
Proof. unfold _stop_python_session. preserves_of identity_leaf. Qed.

Lemma restart_identity id sb timeout :
  preserves (only (in_sandbox sb)) (identity_is id sb) (_restart_python_session timeout).
Proof.
  unfold _restart_python_session. preserves_of identity_leaf;
    [apply stop_identity | apply start_identity].
Qed.

Lemma execute_python_identity id sb code timeout :
  preserves (only (in_sandbox sb)) (identity_is id sb) (execute_python code timeout).
Proof.
  unfold execute_python. generalize (@None exn). generalize 2%nat.
  intros n; induction n as [| n IH]; intros last; simpl.
  - apply preserves_ret.
  - apply preserves_bind.
    + unfold python_round, python_attempt, _ensure_python_session.
      preserves_of identity_leaf;
        first [ apply start_identity | apply communicate_identity
              | apply restart_identity ].
    + intros [r | exc]; [apply preserves_ret | apply IH].
Qed.

Lemma execute_bash_identity id sb command timeout :
  preserves (only (in_sandbox sb)) (identity_is id sb) (execute_bash command timeout).
Proof. unfold execute_bash, bash_attempt. preserves_of identity_leaf. Qed.

Lemma terminate_identity id sb :
  preserves (only (in_sandbox sb)) (identity_is id sb) (terminate (W := W)).
Proof.
  unfold terminate. preserves_of identity_leaf. apply stop_identity.
Qed.

Lemma perform_identity id sb (c : call) (st : St) :
  identity_is id sb st tt ->
  Forall (fun ev => in_sandbox sb ev = true) (snd (perform c st)) /\
  identity_is id sb (fst (perform c st)) tt.
Proof.
  intros Hs.
  assert (H : exists x', scan (only (in_sandbox sb)) tt (snd (perform c st)) = Some x' /\
                         identity_is id sb (fst (perform c st)) x').
  { destruct c as [code t | command t |]; simpl.
    - apply (execute_python_identity id sb code t st tt Hs).
    - apply (execute_bash_identity id sb command t st tt Hs).
    - apply (terminate_identity id sb st tt Hs). }
  destruct H as ([] & Hscan & Hid). split; [exact (scan_only _ _ _ _ Hscan) | exact Hid].
Qed.

(** X1.  Through any calls of [execute_python], [execute_bash] and
    [terminate], whatever the platform answers, an object keeps the session
    id and the sandbox it was built with: every process is spawned in that
    sandbox, it is the only sandbox asked to terminate, and no app, volume
    or sandbox is looked up or created. *)
Theorem session_stays_in_sandbox (calls : list call) (w : W) (obj : Sandbox) :
  let run := session calls {| world := w; self := obj |} in
  Forall (fun ev => in_sandbox (_sandbox obj) ev = true) (snd run) /\
  session_id (self (fst run)) = session_id obj /\
  _sandbox (self (fst run)) = _sandbox obj.
Proof.
  cbv zeta.
  assert (Hgen : forall st, identity_is (session_id obj) (_sandbox obj) st tt ->
            Forall (fun ev => in_sandbox (_sandbox obj) ev = true) (snd (session calls st)) /\
            identity_is (session_id obj) (_sandbox obj) (fst (session calls st)) tt).
  { induction calls as [| c rest IH]; intros st Hs; simpl.
    - split; [constructor | exact Hs].
    - destruct (perform_identity _ _ c st Hs) as [Hev1 Hs1].
      destruct (perform c st) as [st1 t1]. simpl in *.
      destruct (IH st1 Hs1) as [Hev2 Hs2].
      destruct (session rest st1) as [st2 t2]. simpl in *.
      split; [apply Forall_app; split; assumption | exact Hs2]. }
  destruct (Hgen {| world := w; self := obj |} (conj eq_refl eq_refl)) as [Hev [Hid Hsb]].
  auto.
Qed.
End Identity.

(** ** Stopping the interpreter *)

#[global] Instance byte_dec : EqDecision Byte.byte := Byte.byte_eq_dec.

(** What [_stop_python_session] does before it waits for the process [p]:
    it writes the termination literal to the stdin of [p] and flushes it,
    and reads from the stdout of [p] under a bound of five seconds. *)
Definition stop_event (p : proc) (ev : event) : bool :=
  match ev with
  | EvWrite wr (Literal b) _ =>
      bool_decide (stdin p = Some wr) && bool_decide (b = TERMINATE_LINE)
  | EvDrain wr _ => bool_decide (stdin p = Some wr)
  | EvRecv s _ wait _ => bool_decide (stdout p = Some s) && bool_decide (wait = Some 5)
  | _ => false
  end.

Section Shutdown.
Context {codec : Codec} {W : Type} {platform : Platform W}.
#[local] Abbreviation St := (@St W).

Definition always (st : St) (x : unit) : Prop := True.

Lemma always_world_free : world_free always.
Proof. intros st x w _; exact I. Qed.

(** The trace of the wait at the end of [_stop_python_session]. *)
Lemma wait_and_clear_run (p : proc) (st : St) :
  exists r,
    (suppress (fun _ => true) (on_world (call_wait p)) ;; set_python_proc None) st
    = ({| world := fst (proc_wait (world st) p); self := without_process (self st) |},
       [EvWait p r], Ret tt).
Proof.
  unfold suppress, try_except, bind, call_wait. rewrite on_world_call_run.
  exists (snd (proc_wait (world st) p)).
  destruct (snd (proc_wait (world st) p)) as [[] | e]; reflexivity.
Qed.

(** X2.  [_stop_python_session] never raises and leaves the object without
    a process handle.  Without a handle it does nothing.  With a handle to
    [p], whatever the platform answers: the only thing written is the
    termination literal, to the stdin of [p]; the acknowledgement is read
    from the stdout of [p] under a bound of five seconds; and the last
    thing done is one wait for [p].  A second stop does nothing. *)
Theorem stop_python_session_shutdown (st : St) :
  let run := _stop_python_session st in
  outcome_of run = Ret tt /\
  self (state_of run) = without_process (self st) /\
  (_python_proc (self st) = None -> run = (st, [], Ret tt)) /\
  (forall p, _python_proc (self st) = Some p ->
     exists tr r,
       trace_of run = tr ++ [EvWait p r] /\
       Forall (fun ev => stop_event p ev = true) tr) /\
  _stop_python_session (state_of run) = (state_of run, [], Ret tt).
Proof.
  cbv zeta. destruct (stop_run st) as [Ho Hs].
  assert (Hnone : forall s : St, _python_proc (self s) = None ->
                    _stop_python_session s = (s, [], Ret tt)).
  { intros s Hp. unfold _stop_python_session, bind, get_self. rewrite Hp. reflexivity. }
  split; [exact Ho |]. split; [exact Hs |]. split; [apply Hnone |].
  split; [| apply Hnone; rewrite Hs; reflexivity].
  intros p Hp. unfold _stop_python_session.
  unfold bind at 1. unfold get_self. rewrite Hp.
  rewrite finally_run. norm_run. simpl app.
  match goal with
  | |- context [trace_of (try_except ?b ?h st)] => set (body := try_except b h)
  end.
  destruct (wait_and_clear_run p (state_of (body st))) as (r & ->). norm_run.
  exists (trace_of (body st)), r. split; [reflexivity |].
  assert (Hbody : preserves (only (stop_event p)) always body).
  { subst body.
    preserves_of ltac:(first [ apply always_world_free
                             | intros; simplify_eq; apply only_transparent; simpl;
                               rewrite ?bool_decide_eq_true_2 by (reflexivity || assumption);
                               reflexivity
                             | intros; exact I ]). }
  destruct (Hbody st tt I) as ([] & Hscan & _).
  exact (scan_only _ _ _ _ Hscan).
Qed.
End Shutdown.

(** ** How often the caller's code is sent *)

(** A control record other than the initialization request is written. *)
Definition is_caller_write (ev : event) : bool :=
  match ev with
  | EvWrite _ (Encoded c) _ => negb (is_init_request c)
  | _ => false
  end.

(** The payload [{"code": code}]. *)
Definition carries (code : string) (payload : json) : bool :=
  match payload with
  | JObj [(k, JStr c)] => String.eqb k "code" && String.eqb c code
  | _ => false
  end.

(** The control records of a call with [code]: the initialization request
    and the request that carries [code]. *)
Definition request_of (code : string) (ev : event) : bool :=
  match ev with
  | EvWrite _ (Encoded c) _ => is_init_request c || carries code c
  | _ => true
  end.

Lemma carries_code_request (code : string) : carries code (code_request (JStr code)) = true.
Proof. unfold carries, code_request. rewrite !String.eqb_refl. reflexivity. Qed.

Lemma carries_inv (code : string) (payload : json) :
  carries code payload = true -> payload = code_request (JStr code).
Proof.
  destruct payload as [| | | | | [| [k [| | | c | |]] [|]]]; simpl; try discriminate.
  intros H. apply andb_true_iff in H. destruct H as [Hk Hc].
  apply String.eqb_eq in Hk, Hc. subst. reflexivity.
Qed.

Section Deliveries.
Context {codec : Codec} {W : Type} {platform : Platform W}.
#[local] Abbreviation St := (@St W).

Ltac quiet_leaf :=
  first [ apply count_is_world_free
        | intros; apply tally_transparent; simpl; rewrite ?init_request_is_init; reflexivity
        | intros ? ? Hx; exact Hx ].

(** The count of caller writes is at most [n]. *)
Definition at_most (n : nat) (st : St) (x : nat) : Prop := (x <= n)%nat.

Lemma at_most_world_free n : world_free (at_most n).
Proof. intros st x w Hx; exact Hx. Qed.

Ltac bounded_leaf :=
  first [ apply at_most_world_free
        | intros; apply tally_transparent; reflexivity
        | intros ? ? Hx; exact Hx ].

(** One exchange writes one control record. *)
Lemma communicate_writes_once (payload : json) (timeout : Z) (n : nat) :
  triple (tally is_caller_write) (count_is n) (_communicate_with_python payload timeout)
    (fun _ => at_most (S n)).
Proof.
  unfold _communicate_with_python. apply triple_get_self. intros me.
  assert (Hraise : forall e,
            triple (tally is_caller_write)
              (fun (st : St) x => count_is n st x /\ self st = me) (raise e)
              (fun _ : outcome json => at_most (S n))).
  { intros e. apply triple_raise. intros st x [Hx _]. unfold count_is in Hx.
    unfold at_most. lia. }
  destruct (_python_proc me) as [p |]; [| apply Hraise].
  destruct (stdin p) as [wr |], (stdout p) as [rd |]; try apply Hraise.
  eapply triple_bind with (R := fun _ => at_most (S n)); [| | auto].
  - apply triple_call. intros st x w' r [Hx _]. unfold count_is in Hx. subst x.
    eexists; split; [reflexivity |]. unfold at_most.
    destruct (is_caller_write _); lia.
  - intros []. as_preserves. preserves_of bounded_leaf.
Qed.

Lemma communicate_init_quiet (timeout : Z) (n : nat) :
  preserves (tally is_caller_write) (count_is n)
    (_communicate_with_python (code_request (JStr _PYTHON_SESSION_INIT)) timeout).
Proof. unfold _communicate_with_python. preserves_of quiet_leaf. Qed.

Lemma start_quiet (timeout : Z) (n : nat) :
  preserves (tally is_caller_write) (count_is n) (_start_python_session timeout).
Proof.
  unfold _start_python_session. preserves_of quiet_leaf. apply communicate_init_quiet.
Qed.

Lemma stop_quiet (n : nat) :
  preserves (tally is_caller_write) (count_is n) (_stop_python_session (W := W)).
Proof. unfold _stop_python_session. preserves_of quiet_leaf. Qed.

Lemma restart_quiet (timeout : Z) (st : St) :
  count_events is_caller_write (trace_of (_restart_python_session timeout st)) = 0%nat.
Proof.
  assert (Hq : preserves (tally is_caller_write) (count_is 0)
                 (_restart_python_session timeout)).
  { unfold _restart_python_session. preserves_of quiet_leaf;
      [apply stop_quiet | apply start_quiet]. }
  destruct (Hq st 0%nat eq_refl) as (x & Hscan & Hx).
  rewrite scan_tally in Hscan. unfold count_is in Hx. simplify_eq. lia.
Qed.

Lemma attempt_writes_once (code : string) (timeout : Z) (st : St) :
  (count_events is_caller_write (trace_of (python_attempt code timeout st)) <= 1)%nat.
Proof.
  assert (Ht : triple (tally is_caller_write) (count_is 0) (python_attempt code timeout)
                 (fun _ => at_most 1)).
  { unfold python_attempt, _ensure_python_session.
    eapply triple_bind with (R := fun _ => count_is 0).
    - as_preserves. preserves_of quiet_leaf. apply start_quiet.
    - intros []. eapply triple_bind with (R := fun _ => at_most 1); [| | auto].
      + apply communicate_writes_once.
      + intros response. as_preserves. preserves_of bounded_leaf.
    - intros e st' x Hx. unfold count_is in Hx. unfold at_most. lia. }
  destruct (Ht st 0%nat eq_refl) as (x & Hscan & Hx).
  rewrite scan_tally in Hscan. unfold at_most in Hx. simplify_eq. lia.
Qed.

(** Every control record a call writes is the initialization request or
    the request for its code. *)
Lemma execute_python_requests (code : string) (timeout : Z) :
  preserves (only (request_of code)) always (execute_python code timeout).
Proof.
  assert (Hcomm : forall payload,
            is_init_request payload || carries code payload = true ->
            preserves (only (request_of code)) always
              (_communicate_with_python payload timeout)).
  { intros payload Hpay. unfold _communicate_with_python.
    preserves_of ltac:(first [ apply always_world_free
                             | intros; apply only_transparent; simpl;
                               first [exact Hpay | reflexivity]
                             | intros; exact I ]). }
  assert (Hinit : preserves (only (request_of code)) always
                    (_communicate_with_python (code_request (JStr _PYTHON_SESSION_INIT))
                       timeout)).
  { apply Hcomm. rewrite init_request_is_init. reflexivity. }
  assert (Hcode : preserves (only (request_of code)) always
                    (_communicate_with_python (code_request (JStr code)) timeout)).
  { apply Hcomm. rewrite carries_code_request. apply orb_true_r. }
  assert (Hstart : preserves (only (request_of code)) always
                     (_start_python_session timeout)).
  { unfold _start_python_session.
    preserves_of ltac:(first [ apply always_world_free
                             | intros; apply only_transparent; reflexivity
                             | intros; exact I ]).
    exact Hinit. }
  assert (Hstop : preserves (only (request_of code)) always
                    (_stop_python_session (W := W))).
  { unfold _stop_python_session.
    preserves_of ltac:(first [ apply always_world_free
                             | intros; apply only_transparent; reflexivity
                             | intros; exact I ]). }
  unfold execute_python. generalize (@None exn). generalize 2%nat.
  intros n; induction n as [| n IH]; intros last; simpl.
  - apply preserves_ret.
  - apply preserves_bind.
    + unfold python_round, python_attempt, _ensure_python_session,
        _restart_python_session.
      preserves_of ltac:(first [ apply always_world_free
                               | intros; apply only_transparent; reflexivity
                               | intros; exact I ]);
        first [exact Hstart | exact Hcode | exact Hstop].
    + intros [r | exc]; [apply preserves_ret | apply IH].
Qed.

(** X3.  Within one call of [execute_python], a request other than the
    initialization request is written to a resident process at most twice,
    and a second time only after a restart; every control record the call
    writes is the initialization request or the request that carries this
    code. *)
Theorem execute_python_sends_code_at_most_twice (code : string) (timeout : Z) (st : St) :
  let tr := trace_of (execute_python code timeout st) in
  (count_events is_caller_write tr <= 2)%nat /\
  (count_events is_caller_write tr = 2%nat -> (1 <= restarts tr)%nat) /\
  Forall (fun ev => request_of code ev = true) tr /\
  (forall wr c r, In (EvWrite wr (Encoded c) r) tr -> is_init_request c = false ->
     c = code_request (JStr code)).
Proof.
  cbv zeta.
  assert (Hall : Forall (fun ev => request_of code ev = true)
                   (trace_of (execute_python code timeout st))).
  { destruct (execute_python_requests code timeout st tt I) as ([] & Hscan & _).
    exact (scan_only _ _ _ _ Hscan). }
  pose proof (attempt_writes_once code timeout st) as HA1.
  pose proof (restart_quiet timeout (state_of (first_attempt code timeout st))) as HR1.
  pose proof (attempt_writes_once code timeout (state_of (first_restart code timeout st)))
    as HA2.
  pose proof (restart_quiet timeout (state_of (second_attempt code timeout st))) as HR2.
  pose proof (restart_once timeout (state_of (first_attempt code timeout st))) as HN1.
  fold (first_attempt code timeout st) in HA1.
  fold (first_restart code timeout st) in HR1, HN1.
  fold (second_attempt code timeout st) in HA2.
  fold (second_restart code timeout st) in HR2.
  assert (Hcount :
    (count_events is_caller_write (trace_of (execute_python code timeout st)) <= 2)%nat /\
    (count_events is_caller_write (trace_of (execute_python code timeout st)) = 2%nat ->
     (1 <= restarts (trace_of (execute_python code timeout st)))%nat)).
  { rewrite execute_python_run.
    repeat match goal with
           | |- context [match outcome_of ?x with _ => _ end] =>
               destruct (outcome_of x) as [? | ?]
           | |- context [if is_timeout ?x then _ else _] => destruct (is_timeout x)
           end; norm_run; rewrite ?count_events_app, ?restarts_app; lia. }
  destruct Hcount as [Hle Htwo].
  split; [exact Hle |]. split; [exact Htwo |]. split; [exact Hall |].
  intros wr c r Hin Hc.
  pose proof (proj1 (List.Forall_forall _ _) Hall _ Hin) as Hev. simpl in Hev.
  rewrite Hc in Hev. simpl in Hev. apply carries_inv, Hev.
Qed.
End Deliveries.

(** ** The ways a call of [execute_python] ends *)

Section PythonOutcomes.
Context {codec : Codec} {W : Type} {platform : Platform W}.
#[local] Abbreviation St := (@St W).

(** A result an attempt returns is built from a response: it carries no
    error, and its flag is the truth value of the response's [ok]. *)
Lemma attempt_result (code : string) (timeout : Z) (st : St) (r : ExecutionResult) :
  outcome_of (python_attempt code timeout st) = Ret r ->
  exists items, r = result_of_items items.
Proof.
  unfold python_attempt. rewrite bind_run.
  destruct (outcome_of (_ensure_python_session timeout st)) as [[] | e]; norm_run;
    [| discriminate].
  rewrite bind_run.
  destruct (outcome_of (_communicate_with_python _ _ _)) as [response | e]; norm_run;
    [| discriminate].
  unfold lift_outcome; norm_run.
  destruct response as [| | | | | items]; try discriminate.
  intros [= <-]. exists items. reflexivity.
Qed.

(** X4.  A call of [execute_python] ends in one of four ways.  It returns
    the result of an attempt: of the first, or, after the first failed with
    something other than a timeout and the restart returned, of the second;
    that result is built from a response object with the defaults of
    [response.get], and carries no error.  It returns the timeout result,
    when one of these two attempts ended in [TimeoutError].  It returns the
    failure result with the text of the second attempt's exception, when
    both attempts failed and both restarts returned.  Or it raises, and then
    the exception is that of one of its two restarts.  A result whose
    [success] is true carries no error. *)
Theorem execute_python_outcomes (code : string) (timeout : Z) (st : St) :
  let A1 := first_attempt code timeout st in
  let R1 := first_restart code timeout st in
  let A2 := second_attempt code timeout st in
  let R2 := second_restart code timeout st in
  let run := execute_python code timeout st in
  let retried :=
    exists e1, outcome_of A1 = Raise e1 /\ is_timeout e1 = false /\ outcome_of R1 = Ret tt in
  (forall r, outcome_of run = Ret r ->
     ((outcome_of A1 = Ret r \/ retried /\ outcome_of A2 = Ret r) /\
      exists items, r = result_of_items items) \/
     ((exists e, is_timeout e = true /\
                 (outcome_of A1 = Raise e \/ retried /\ outcome_of A2 = Raise e)) /\
      r = timeout_result timeout) \/
     (exists e2, retried /\ outcome_of A2 = Raise e2 /\ is_timeout e2 = false /\
                 outcome_of R2 = Ret tt /\ r = failure_result (str_exn e2))) /\
  (forall r, outcome_of run = Ret r -> success r = true -> error r = None) /\
  (forall e, outcome_of run = Raise e ->
     exists e1, outcome_of A1 = Raise e1 /\ is_timeout e1 = false /\
       (outcome_of R1 = Raise e \/
        outcome_of R1 = Ret tt /\
        exists e2, outcome_of A2 = Raise e2 /\ is_timeout e2 = false /\
                   outcome_of R2 = Raise e)).
Proof.
  cbv zeta.
  assert (Hcases : forall r, outcome_of (execute_python code timeout st) = Ret r ->
     ((outcome_of (first_attempt code timeout st) = Ret r \/
       (exists e1, outcome_of (first_attempt code timeout st) = Raise e1 /\
                   is_timeout e1 = false /\
                   outcome_of (first_restart code timeout st) = Ret tt) /\
       outcome_of (second_attempt code timeout st) = Ret r) /\
      exists items, r = result_of_items items) \/
     ((exists e, is_timeout e = true /\
         (outcome_of (first_attempt code timeout st) = Raise e \/
          (exists e1, outcome_of (first_attempt code timeout st) = Raise e1 /\
                      is_timeout e1 = false /\
                      outcome_of (first_restart code timeout st) = Ret tt) /\
          outcome_of (second_attempt code timeout st) = Raise e)) /\
      r = timeout_result timeout) \/
     (exists e2,
        (exists e1, outcome_of (first_attempt code timeout st) = Raise e1 /\
                    is_timeout e1 = false /\
                    outcome_of (first_restart code timeout st) = Ret tt) /\
        outcome_of (second_attempt code timeout st) = Raise e2 /\ is_timeout e2 = false /\
        outcome_of (second_restart code timeout st) = Ret tt /\
        r = failure_result (str_exn e2))).
  { intros r. rewrite execute_python_run.
    destruct (outcome_of (first_attempt code timeout st)) as [r1 | e1] eqn:HA1; norm_run.
    { intros [= <-]. left. split; [left; reflexivity |].
      exact (attempt_result _ _ _ _ HA1). }
    destruct (is_timeout e1) eqn:Ht1; norm_run.
    { intros [= <-]. right; left. split; [| reflexivity]. exists e1. auto. }
    destruct (outcome_of (first_restart code timeout st)) as [[] | e] eqn:HR1; norm_run;
      [| discriminate].
    destruct (outcome_of (second_attempt code timeout st)) as [r2 | e2] eqn:HA2; norm_run.
    { intros [= <-]. left. split; [right; split; [exists e1; auto | reflexivity] |].
      exact (attempt_result _ _ _ _ HA2). }
    destruct (is_timeout e2) eqn:Ht2; norm_run.
    { intros [= <-]. right; left. split; [| reflexivity]. exists e2.
      split; [exact Ht2 |]. right. split; [exists e1; auto | reflexivity]. }
    destruct (outcome_of (second_restart code timeout st)) as [[] | e] eqn:HR2; norm_run;
      [| discriminate].
    intros [= <-]. right; right. exists e2.
    split; [exists e1; auto |]. auto. }
  split; [exact Hcases |]. split.
  - intros r Hr Hs.
    destruct (Hcases r Hr) as [[_ (items & ->)] | [[_ ->] | (e2 & _ & _ & _ & _ & ->)]];
      [reflexivity | discriminate Hs | discriminate Hs].
  - clear Hcases. intros e. rewrite execute_python_run.
    destruct (outcome_of (first_attempt code timeout st)) as [r1 | e1]; norm_run;
      [discriminate |].
    destruct (is_timeout e1) eqn:Ht1; norm_run; [discriminate |].
    intros He. exists e1. split; [reflexivity |]. split; [exact Ht1 |]. revert He.
    destruct (outcome_of (first_restart code timeout st)) as [[] | e'] eqn:HR1; norm_run;
      [| intros [= <-]; left; reflexivity].
    destruct (outcome_of (second_attempt code timeout st)) as [r2 | e2]; norm_run;
      [discriminate |].
    destruct (is_timeout e2) eqn:Ht2; norm_run; [discriminate |].
    destruct (outcome_of (second_restart code timeout st)) as [[] | e'']; norm_run;
      [discriminate |].
    intros [= <-]. right. split; [reflexivity |]. exists e2. auto.
Qed.
End PythonOutcomes.

(** ** Starting, restarting and terminating *)

Section Lifecycle.
Context {codec : Codec} {W : Type} {platform : Platform W}.
#[local] Abbreviation St := (@St W).

Definition with_process (obj : Sandbox) (p : proc) : Sandbox :=
  {| session_id := session_id obj; _sandbox := _sandbox obj; _python_proc := Some p |}.

(** [_start_python_session], by the answer to its spawn. *)
Lemma start_run (timeout : Z) (st : St) :
  let spawn := sandbox_exec (world st) (_sandbox (self st)) resident_argv timeout in
  let held p := {| world := fst spawn; self := with_process (self st) p |} in
  let init p :=
    _communicate_with_python (code_request (JStr _PYTHON_SESSION_INIT)) timeout (held p) in
  _start_python_session timeout st =
  match snd spawn with
  | Raise e =>
      ({| world := fst spawn; self := self st |},
       [EvExec (_sandbox (self st)) resident_argv timeout (Raise e)], Raise e)
  | Ret p =>
      (state_of (init p),
       EvExec (_sandbox (self st)) resident_argv timeout (Ret p) :: trace_of (init p),
       match outcome_of (init p) with Ret _ => Ret tt | Raise e => Raise e end)
  end.
Proof.
  cbv zeta. unfold _start_python_session.
  unfold bind at 1. unfold get_self. rewrite bind_run.
  unfold call_exec. rewrite on_world_call_run. norm_run.
  destruct (snd (sandbox_exec _ _ _ _)) as [p | e]; [| reflexivity].
  rewrite bind_run. unfold set_python_proc at 1 2 3 4. norm_run. cbv beta iota.
  unfold set_python_proc. norm_run. simpl world. simpl self.
  rewrite bind_run. unfold with_process.
  destruct (outcome_of (_communicate_with_python _ _ _)) as [response | e]; norm_run;
    [unfold ret; norm_run; rewrite app_nil_r |]; reflexivity.
Qed.

(** The initialization exchange leaves the fields of the object alone. *)
Lemma start_spawned (timeout : Z) (st : St) (p : proc) :
  let spawn := sandbox_exec (world st) (_sandbox (self st)) resident_argv timeout in
  snd spawn = Ret p ->
  self (state_of (_start_python_session timeout st)) = with_process (self st) p /\
  exists rest,
    trace_of (_start_python_session timeout st)
    = EvExec (_sandbox (self st)) resident_argv timeout (Ret p) :: rest.
Proof.
  cbv zeta. intros Hp. pose proof (start_run timeout st) as Hrun. cbv zeta in Hrun.
  rewrite Hrun, Hp. norm_run. split; [| eexists; reflexivity].
  match goal with
  | |- self (state_of (?m ?s)) = _ =>
      exact (proj1 (untouched_run m s (communicate_untouched _ _ _ _)))
  end.
Qed.

(** X5.  [_start_python_session] records the handle of the process it
    spawned before it exchanges the initialization request.  When the
    spawn raises, nothing else is done and the object is left as it was.
    When the spawn returns [p], the object holds [p] afterwards, whether
    the initialization exchange returned or raised; the start raises
    exactly when that exchange does; and the next attempt on the object
    spawns nothing: it is one exchange with [p]. *)
Theorem start_records_handle_first (timeout : Z) (st : St) :
  let spawn := sandbox_exec (world st) (_sandbox (self st)) resident_argv timeout in
  let run := _start_python_session timeout st in
  (forall e, snd spawn = Raise e ->
     run = ({| world := fst spawn; self := self st |},
            [EvExec (_sandbox (self st)) resident_argv timeout (Raise e)], Raise e)) /\
  (forall p, snd spawn = Ret p ->
     let init :=
       _communicate_with_python (code_request (JStr _PYTHON_SESSION_INIT)) timeout
         {| world := fst spawn; self := with_process (self st) p |} in
     self (state_of run) = with_process (self st) p /\
     trace_of run
     = EvExec (_sandbox (self st)) resident_argv timeout (Ret p) :: trace_of init /\
     (forall e, outcome_of run = Raise e <-> outcome_of init = Raise e) /\
     forall code' timeout',
       python_attempt code' timeout' (state_of run)
       = let C := _communicate_with_python (code_request (JStr code')) timeout'
                    (state_of run) in
         (state_of C, trace_of C,
          match outcome_of C with
          | Ret response => result_of_response response
          | Raise e => Raise e
          end)).
Proof.
  cbv zeta. pose proof (start_run timeout st) as Hrun. cbv zeta in Hrun.
  split.
  - intros e He. rewrite Hrun, He. reflexivity.
  - intros p Hp. rewrite Hrun, Hp. norm_run.
    assert (Hself : self (state_of
                (_communicate_with_python (code_request (JStr _PYTHON_SESSION_INIT)) timeout
                   {| world := fst (sandbox_exec (world st) (_sandbox (self st))
                                      resident_argv timeout);
                      self := with_process (self st) p |}))
            = with_process (self st) p).
    { match goal with
      | |- self (state_of (?m ?s)) = _ =>
          exact (proj1 (untouched_run m s (communicate_untouched _ _ _ _)))
      end. }
    split; [exact Hself |]. split; [reflexivity |]. split.
    + intros e.
      destruct (outcome_of (_communicate_with_python _ _ _)) as [response | e'];
        split; intros H; simpl in H; congruence.
    + intros code' timeout'. apply (attempt_ready_run code' timeout' _ p).
      rewrite Hself. reflexivity.
Qed.

(** [_restart_python_session]: the stop never raises, so the start
    always follows. *)
Lemma restart_run (timeout : Z) (st : St) :
  _restart_python_session timeout st
  = (state_of (_start_python_session timeout (state_of (_stop_python_session st))),
     EvRestart :: trace_of (_stop_python_session st)
       ++ trace_of (_start_python_session timeout (state_of (_stop_python_session st))),
     outcome_of (_start_python_session timeout (state_of (_stop_python_session st)))).
Proof.
  destruct (stop_run st) as [Ho _].
  unfold _restart_python_session. unfold bind at 1. unfold mark.
  rewrite bind_run, Ho. reflexivity.
Qed.

(** X6.  [_restart_python_session] stops the session first, and then
    always attempts the spawn: its trace is the mark of the restart, the
    trace of the stop, and the trace of a start on the object without its
    process; it ends as that start does.  The handle held before is
    dropped in every case: afterwards the object holds the process the
    spawn returned, or none when the spawn raised. *)
Theorem restart_replaces_process (timeout : Z) (st : St) :
  let stopped := _stop_python_session st in
  let started := _start_python_session timeout (state_of stopped) in
  let spawn :=
    sandbox_exec (world (state_of stopped)) (_sandbox (self st)) resident_argv timeout in
  let run := _restart_python_session timeout st in
  run = (state_of started, EvRestart :: trace_of stopped ++ trace_of started,
         outcome_of started) /\
  (exists rest,
     trace_of started
     = EvExec (_sandbox (self st)) resident_argv timeout (snd spawn) :: rest) /\
  _python_proc (self (state_of run))
  = match snd spawn with Ret p => Some p | Raise _ => None end.
Proof.
  cbv zeta. destruct (stop_run st) as [Ho Hs].
  pose proof (restart_run timeout st) as Hrun.
  split; [exact Hrun |].
  pose proof (start_run timeout (state_of (_stop_python_session st))) as Hstart.
  pose proof (start_spawned timeout (state_of (_stop_python_session st))) as Hspawned.
  cbv zeta in Hstart, Hspawned. rewrite Hs in Hstart, Hspawned.
  simpl _sandbox in Hstart, Hspawned.
  rewrite Hrun. norm_run.
  destruct (snd (sandbox_exec _ _ _ _)) as [p | e] eqn:Hspawn.
  - destruct (Hspawned p eq_refl) as (Hself & Htr).
    split; [exact Htr |]. rewrite Hself. reflexivity.
  - rewrite Hstart. norm_run. split; [eexists; reflexivity |].
    simpl. reflexivity.
Qed.

(** X7.  [terminate] stops the session and then asks the platform to
    terminate the sandbox, whatever the stop met; it ends as that request
    does, and the object holds no process afterwards, also when the request
    raised.  Nothing records that the sandbox was terminated: a second
    [terminate] makes the same request again, and nothing else. *)
Theorem terminate_outcomes (st : St) :
  let run := terminate st in
  let again := terminate (state_of run) in
  trace_of run
  = trace_of (_stop_python_session st)
      ++ [EvTerminate (_sandbox (self st)) (outcome_of run)] /\
  self (state_of run) = without_process (self st) /\
  trace_of again = [EvTerminate (_sandbox (self st)) (outcome_of again)] /\
  self (state_of again) = self (state_of run).
Proof.
  cbv zeta.
  assert (Hself : forall s : St, self (state_of (terminate s)) = without_process (self s)).
  { intros s. destruct (stop_run s) as [Ho Hs].
    unfold terminate. rewrite bind_run, Ho. norm_run.
    unfold bind at 1. unfold get_self. unfold call_terminate.
    rewrite on_world_call_run. norm_run. simpl. exact Hs. }
  split; [apply terminate_run |]. split; [apply Hself |].
  pose proof (terminate_run (state_of (terminate st))) as Hagain.
  rewrite Hself in Hagain |- *. simpl _sandbox in Hagain.
  assert (Hstop : _stop_python_session (state_of (terminate st))
                  = (state_of (terminate st), [], Ret tt)).
  { unfold _stop_python_session, bind, get_self. rewrite Hself. reflexivity. }
  rewrite Hstop in Hagain. norm_run. split; [exact Hagain |].
  rewrite Hself. reflexivity.
Qed.
End Lifecycle.

(** ** Creating a sandbox *)

Section Creation.
Context {codec : Codec} {W : Type} {platform : Platform W}.
#[local] Abbreviation St := (@St W).

(** The request [Sandbox.create] makes for a lifetime and a list of
    volumes. *)
Definition create_request_for (app : modal_app) (timeout : Z)
    (volumes : list (string * modal_volume)) : create_request :=
  {| req_app := app; req_image := _build_image; req_timeout := timeout;
     req_cpu := 1; req_memory := 2048; req_volumes := volumes |}.

(** [Sandbox.create], by the answers of the platform. *)
Lemma Sandbox_create_run (id : string) (timeout : Z) (w : W) :
  let looked := app_lookup w APP_NAME in
  let vol := volume_from_name (fst looked) VOLUME_NAME in
  let volumes := match snd vol with Ret v => [(SERVERS_MOUNT, v)] | Raise _ => [] end in
  Sandbox_create id timeout w =
  match snd looked with
  | Raise e => (fst looked, [EvAppLookup APP_NAME (Raise e)], Raise e)
  | Ret app =>
      let req := create_request_for app timeout volumes in
      let made := sandbox_create (fst vol) req in
      (fst made,
       [EvAppLookup APP_NAME (Ret app); EvVolume VOLUME_NAME (snd vol);
        EvCreate req (snd made)],
       match snd made with
       | Ret sb => Ret (Sandbox_init id sb)
       | Raise e => Raise e
       end)
  end.
Proof.
  cbv zeta.
  unfold Sandbox_create, bind, try_except, call_app_lookup, call_volume_from_name,
    call_sandbox_create, platform_call, ret, create_request_for.
  destruct (app_lookup w APP_NAME) as [w1 [app | e]]; simpl; [| reflexivity].
  destruct (volume_from_name w1 VOLUME_NAME) as [w2 [v | e]]; simpl;
    destruct (sandbox_create w2 _) as [w3 [sb | e']]; reflexivity.
Qed.

Ltac in_cases H :=
  repeat destruct H as [H | H]; try discriminate H; try contradiction;
  try (injection H as H; subst); simplify_eq.

(** X8.  [Sandbox.create] fails exactly when the lookup of the app or the
    creation of the sandbox does: an exception of the lookup of the volume
    is swallowed, and the sandbox is then requested without any volume.
    The request always asks for one CPU, 2048 MiB and the given lifetime,
    and mounts the volume, when there is one, at [SERVERS_MOUNT].  The
    object returned has the session id given, the sandbox the platform
    returned and no process.  The session id is not part of any call: two
    ids get the same calls and the same sandbox. *)
Theorem Sandbox_create_outcomes (id : string) (timeout : Z) (w : W) :
  let run := Sandbox_create id timeout w in
  (forall e, outcome_of run = Raise e <->
     In (EvAppLookup APP_NAME (Raise e)) (trace_of run) \/
     exists req, In (EvCreate req (Raise e)) (trace_of run)) /\
  (forall e, In (EvVolume VOLUME_NAME (Raise e)) (trace_of run) ->
     exists app r, In (EvCreate (create_request_for app timeout []) r) (trace_of run)) /\
  (forall req r, In (EvCreate req r) (trace_of run) ->
     exists app,
       In (EvAppLookup APP_NAME (Ret app)) (trace_of run) /\
       (req = create_request_for app timeout [] /\
        (exists e, In (EvVolume VOLUME_NAME (Raise e)) (trace_of run)) \/
        exists v, req = create_request_for app timeout [(SERVERS_MOUNT, v)] /\
                  In (EvVolume VOLUME_NAME (Ret v)) (trace_of run))) /\
  (forall obj, outcome_of run = Ret obj ->
     obj = Sandbox_init id (_sandbox obj) /\
     exists req, In (EvCreate req (Ret (_sandbox obj))) (trace_of run)) /\
  (forall id',
     let run' := Sandbox_create id' timeout w in
     state_of run' = state_of run /\ trace_of run' = trace_of run /\
     (forall obj, outcome_of run = Ret obj ->
        outcome_of run' = Ret (Sandbox_init id' (_sandbox obj)))).
Proof.
  cbv zeta.
  pose proof (Sandbox_create_run id timeout w) as Hrun. cbv zeta in Hrun.
  split; [| split; [| split; [| split]]].
  - intros e. rewrite Hrun.
    destruct (snd (app_lookup w APP_NAME)) as [app | e0]; norm_run.
    + destruct (snd (sandbox_create _ _)) as [sb | e1] eqn:Hmade; split.
      * discriminate.
      * intros [Hin | (req & Hin)]; simpl in Hin; in_cases Hin.
      * intros [= <-]. right. eexists. simpl. auto.
      * intros [Hin | (req & Hin)]; simpl in Hin; in_cases Hin. reflexivity.
    + split.
      * intros [= <-]. left. simpl. auto.
      * intros [Hin | (req & Hin)]; simpl in Hin; in_cases Hin. reflexivity.
  - intros e. rewrite Hrun.
    destruct (snd (app_lookup w APP_NAME)) as [app | e0]; norm_run; simpl;
      intros Hin; in_cases Hin.
    match goal with H : snd _ = Raise _ |- _ => rewrite H end.
    exists app. eexists. auto.
  - intros req r. rewrite Hrun.
    destruct (snd (app_lookup w APP_NAME)) as [app | e0]; norm_run; simpl;
      intros Hin; in_cases Hin.
    exists app. split; [auto |].
    destruct (snd (volume_from_name _ _)) as [v | e1].
    + right. exists v. auto.
    + left. split; [reflexivity |]. exists e1. auto.
  - intros obj. rewrite Hrun.
    destruct (snd (app_lookup w APP_NAME)) as [app | e0]; norm_run; [| discriminate].
    destruct (snd (sandbox_create _ _)) as [sb | e1]; [| discriminate].
    intros [= <-]. split; [reflexivity |]. eexists. simpl. auto.
  - intros id'. rewrite Hrun, (Sandbox_create_run id' timeout w). cbv zeta.
    destruct (snd (app_lookup w APP_NAME)) as [app | e0]; norm_run.
    + split; [reflexivity |]. split; [reflexivity |].
      destruct (snd (sandbox_create _ _)) as [sb | e1]; [| discriminate].
      intros obj [= <-]. reflexivity.
    + split; [reflexivity |]. split; [reflexivity |]. discriminate.
Qed.

(** X9.  The one-off helpers when something fails around the inner call.
    When [Sandbox.create] raises, both helpers raise the same exception
    having done nothing else: nothing was created, and nothing is
    terminated.  When it returns, [run_bash] raises only if the request to
    terminate the sandbox does: otherwise it returns the result of
    [execute_bash].  [run_python] raises only if that request or the inner
    call does. *)
Theorem one_off_helpers_failures (w : W) (id : string) :
  let created := Sandbox_create id 600 w in
  (forall e, outcome_of created = Raise e ->
     (forall code, run_python code id w = (state_of created, trace_of created, Raise e)) /\
     (forall command,
        run_bash command id w = (state_of created, trace_of created, Raise e))) /\
  (forall obj, outcome_of created = Ret obj ->
     let st := {| world := state_of created; self := obj |} in
     (forall command, exists tr r result,
        outcome_of (execute_bash command DEFAULT_TIMEOUT st) = Ret result /\
        trace_of (run_bash command id w) = tr ++ [EvTerminate (_sandbox obj) r] /\
        outcome_of (run_bash command id w)
        = match r with Ret _ => Ret result | Raise e => Raise e end) /\
     (forall code e, outcome_of (run_python code id w) = Raise e ->
        outcome_of (execute_python code DEFAULT_TIMEOUT st) = Raise e \/
        exists tr, trace_of (run_python code id w)
                   = tr ++ [EvTerminate (_sandbox obj) (Raise e)])).
Proof.
  cbv zeta. split.
  - intros e He. split; intros x; [unfold run_python | unfold run_bash];
      rewrite bind_run, He; reflexivity.
  - intros obj Hc. split.
    + intros command. unfold run_bash.
      destruct (helper_run (execute_bash command DEFAULT_TIMEOUT) id w obj Hc) as [Ht Ho].
      cbv zeta in Ht, Ho. rewrite Ht, Ho.
      destruct (finally_terminate_run (execute_bash command DEFAULT_TIMEOUT) obj
                  (state_of (Sandbox_create id 600 w))
                  (execute_bash_keeps_handle _ _ _)) as (tr & r & Htr & Hor).
      cbv zeta in Htr, Hor. rewrite Htr, Hor.
      rewrite execute_bash_run. norm_run.
      eexists _, r, _. split; [reflexivity |]. split; [| reflexivity].
      rewrite !app_assoc. reflexivity.
    + intros code e. unfold run_python.
      destruct (helper_run (execute_python code DEFAULT_TIMEOUT) id w obj Hc) as [Ht Ho].
      cbv zeta in Ht, Ho. rewrite Ht, Ho.
      destruct (finally_terminate_run (execute_python code DEFAULT_TIMEOUT) obj
                  (state_of (Sandbox_create id 600 w))
                  (execute_python_keeps_handle _ _ _)) as (tr & r & Htr & Hor).
      cbv zeta in Htr, Hor. rewrite Htr, Hor.
      destruct r as [[] | e']; [intros He; left; exact He |].
      intros [= <-]. right. eexists. rewrite !app_assoc. reflexivity.
Qed.
End Creation.

(** ** The registry: what its operations keep *)

Section RegistryInvariant.
Context {codec : Codec} {W : Type} {platform : Platform W}.
#[local] Abbreviation St := (@St W).
#[local] Abbreviation Global := (@Global W).

(** Every registered reference points to an object; no object is
    registered under two ids; and the object registered under an id was
    built for that id. *)
Definition registry_inv (g : Global) : Prop :=
  registry_wf g /\
  (forall id1 id2 ref,
     _sandboxes g !! id1 = Some ref -> _sandboxes g !! id2 = Some ref -> id1 = id2) /\
  (forall id ref obj,
     _sandboxes g !! id = Some ref -> heap g !! ref = Some obj -> session_id obj = id).

Lemma empty_registry_inv (w : W) :
  registry_inv {| g_world := w; heap := []; _sandboxes := ∅ |}.
Proof.
  unfold registry_inv, registry_wf.
  split; [| split]; intros * H; cbn [_sandboxes] in H; rewrite lookup_empty in H;
    discriminate H.
Qed.

(** An id other than the one an operation is called with keeps its entry
    and its object. *)
Definition same_elsewhere (id : string) (g g' : Global) : Prop :=
  forall id', id' <> id ->
    _sandboxes g' !! id' = _sandboxes g !! id' /\
    forall ref, _sandboxes g !! id' = Some ref -> heap g' !! ref = heap g !! ref.

Lemma same_elsewhere_refl (id : string) (g : Global) : same_elsewhere id g g.
Proof. intros id' _. split; [reflexivity | intros; reflexivity]. Qed.

Lemma same_elsewhere_trans (id : string) (g1 g2 g3 : Global) :
  same_elsewhere id g1 g2 -> same_elsewhere id g2 g3 -> same_elsewhere id g1 g3.
Proof.
  intros H12 H23 id' Hne. destruct (H12 id' Hne) as [Hr12 Hh12].
  destruct (H23 id' Hne) as [Hr23 Hh23]. split; [congruence |].
  intros ref Href. rewrite Hh23 by congruence. apply Hh12, Href.
Qed.

Lemma get_sandbox_inv (id : string) (g : Global) :
  registry_inv g ->
  registry_inv (state_of (_get_sandbox id g)) /\
  same_elsewhere id g (state_of (_get_sandbox id g)).
Proof.
  intros (Hwf & Hinj & Htag).
  destruct (_sandboxes g !! id) as [ref |] eqn:Hreg.
  - rewrite (get_sandbox_registered _ _ _ Hreg). norm_run.
    split; [repeat split; assumption | apply same_elsewhere_refl].
  - rewrite (get_sandbox_new _ _ Hreg). cbv zeta.
    pose proof (Sandbox_create_run id 600 (g_world g)) as Hrun. cbv zeta in Hrun.
    destruct (outcome_of (Sandbox_create id 600 (g_world g))) as [obj | e] eqn:Ho;
      norm_run.
    + assert (Hid : session_id obj = id).
      { rewrite Hrun in Ho. destruct (snd (app_lookup _ _)); norm_run; [| discriminate].
        destruct (snd (sandbox_create _ _)); [| discriminate].
        injection Ho as <-. reflexivity. }
      split; [split; [| split] |].
      * intros id' ref' Hl. simpl in *. rewrite length_app. simpl.
        destruct (decide (id = id')) as [-> | Hne].
        -- rewrite lookup_insert_eq in Hl. simplify_eq. lia.
        -- rewrite lookup_insert_ne in Hl by exact Hne. apply Hwf in Hl. lia.
      * intros id1 id2 ref. simpl.
        destruct (decide (id = id1)) as [<- | H1], (decide (id = id2)) as [<- | H2];
          rewrite ?lookup_insert_eq, ?lookup_insert_ne by assumption.
        -- reflexivity.
        -- intros [= <-] Hl. apply Hwf in Hl. lia.
        -- intros Hl [= <-]. apply Hwf in Hl. lia.
        -- apply Hinj.
      * intros id' ref' obj'. simpl.
        destruct (decide (id = id')) as [<- | Hne];
          rewrite ?lookup_insert_eq, ?lookup_insert_ne by assumption.
        -- intros [= <-]. rewrite lookup_app_r by lia. rewrite Nat.sub_diag. simpl.
           intros [= <-]. exact Hid.
        -- intros Hl. pose proof (Hwf _ _ Hl) as Hlt.
           rewrite lookup_app_l by exact Hlt. apply Htag, Hl.
      * intros id' Hne. simpl. rewrite lookup_insert_ne by congruence.
        split; [reflexivity |]. intros ref Hl. pose proof (Hwf _ _ Hl) as Hlt.
        apply lookup_app_l, Hlt.
    + split; [repeat split; assumption |].
      intros id' _. split; [reflexivity | intros; reflexivity].
Qed.

(** A method that keeps the session id of [self], run on a registered
    object. *)
Lemma on_object_inv {A} (id : string) (ref : nat) (m : M St A) (g : Global) :
  registry_inv g -> _sandboxes g !! id = Some ref ->
  (forall st, session_id (self (state_of (m st))) = session_id (self st)) ->
  registry_inv (state_of (on_object ref m g)) /\
  same_elsewhere id g (state_of (on_object ref m g)) /\
  _sandboxes (state_of (on_object ref m g)) = _sandboxes g.
Proof.
  intros (Hwf & Hinj & Htag) Hreg Hm. unfold on_object.
  destruct (heap g !! ref) as [obj |] eqn:Hobj.
  2:{ norm_run. split; [repeat split; assumption |].
      split; [apply same_elsewhere_refl | reflexivity]. }
  pose proof (Hm {| world := g_world g; self := obj |}) as Hid. unfold state_of in *.
  destruct (m {| world := g_world g; self := obj |}) as [[st tr] o]. simpl in *.
  split; [split; [| split] |split].
  - intros id' ref' Hl. simpl in *. rewrite length_insert. exact (Hwf _ _ Hl).
  - exact Hinj.
  - intros id' ref' obj' Hl. simpl in *.
    destruct (decide (ref = ref')) as [<- | Hne].
    + rewrite list_lookup_insert_eq by (apply (Hwf _ _ Hreg)).
      intros [= <-]. rewrite Hid. simpl. rewrite (Hinj _ _ _ Hl Hreg).
      apply (Htag _ _ _ Hreg Hobj).
    + rewrite list_lookup_insert_ne by exact Hne. apply Htag, Hl.
  - intros id' Hne. simpl. split; [reflexivity |]. intros ref' Hl.
    apply list_lookup_insert_ne. intros <-. apply Hne. exact (Hinj _ _ _ Hl Hreg).
  - reflexivity.
Qed.

Lemma cleanup_inv (id : string) (g : Global) :
  registry_inv g ->
  registry_inv (state_of (cleanup_sandbox id g)) /\
  same_elsewhere id g (state_of (cleanup_sandbox id g)).
Proof.
  intros Hinv. destruct (_sandboxes g !! id) as [ref |] eqn:Hreg.
  - assert (Hterm : forall st : St,
              session_id (self (state_of (terminate st))) = session_id (self st))
      by (intros st; rewrite terminate_self; reflexivity).
    destruct (on_object_inv id ref terminate g Hinv Hreg Hterm) as (Hinv1 & Hsame1 & Hreg1).
    assert (Hrun : state_of (cleanup_sandbox id g)
                   = match outcome_of (on_object ref terminate g) with
                     | Ret _ =>
                         {| g_world := g_world (state_of (on_object ref terminate g));
                            heap := heap (state_of (on_object ref terminate g));
                            _sandboxes :=
                              delete id (_sandboxes (state_of (on_object ref terminate g))) |}
                     | Raise _ => state_of (on_object ref terminate g)
                     end).
    { unfold cleanup_sandbox, bind, get, registry_del, state_of, outcome_of.
      rewrite Hreg.
      destruct (on_object ref terminate g) as [[g1 t1] [[] | e]]; reflexivity. }
    rewrite Hrun.
    destruct (outcome_of (on_object ref terminate g)) as [[] | e]; [| split; assumption].
    destruct Hinv1 as (Hwf1 & Hinj1 & Htag1).
    split; [split; [| split] |].
    + intros id' ref' Hl. simpl in *. apply lookup_delete_Some in Hl.
      exact (Hwf1 _ _ (proj2 Hl)).
    + intros id1 id2 ref' H1 H2. simpl in *.
      apply lookup_delete_Some in H1, H2. exact (Hinj1 _ _ _ (proj2 H1) (proj2 H2)).
    + intros id' ref' obj' Hl. simpl in *. apply lookup_delete_Some in Hl.
      exact (Htag1 _ _ _ (proj2 Hl)).
    + intros id' Hne. destruct (Hsame1 id' Hne) as [Hr Hh]. simpl.
      rewrite lookup_delete_ne by congruence. split; [exact Hr | exact Hh].
  - rewrite (cleanup_unregistered _ _ Hreg). norm_run.
    split; [exact Hinv | apply same_elsewhere_refl].
Qed.

(** X10.  What fails in the registry.  When [Sandbox.create] raises,
    [_get_sandbox] raises the same exception and registers nothing: the
    next call for the id asks the platform again.  When the termination in
    [cleanup_sandbox] raises, the exception reaches the caller and the id
    stays registered, with the same object, which holds no process any
    more; [_get_sandbox] keeps returning that object, without creating
    anything.  After a [cleanup_sandbox] that returned, the id is free:
    [_get_sandbox] creates a sandbox again, and the object it registers is
    not the one released. *)
Theorem registry_failures (id : string) (g : Global) :
  (forall e, _sandboxes g !! id = None ->
     outcome_of (Sandbox_create id 600 (g_world g)) = Raise e ->
     let g' := state_of (_get_sandbox id g) in
     outcome_of (_get_sandbox id g) = Raise e /\
     _sandboxes g' = _sandboxes g /\ heap g' = heap g /\
     trace_of (_get_sandbox id g') = trace_of (Sandbox_create id 600 (g_world g')) /\
     exists r, In (EvAppLookup APP_NAME r) (trace_of (_get_sandbox id g'))) /\
  (forall ref obj e,
     _sandboxes g !! id = Some ref -> heap g !! ref = Some obj ->
     outcome_of (terminate {| world := g_world g; self := obj |}) = Raise e ->
     let g' := state_of (cleanup_sandbox id g) in
     outcome_of (cleanup_sandbox id g) = Raise e /\
     _sandboxes g' = _sandboxes g /\
     heap g' !! ref = Some (without_process obj) /\
     _get_sandbox id g' = (g', [], Ret ref)) /\
  (forall ref, registry_wf g ->
     _sandboxes g !! id = Some ref ->
     outcome_of (cleanup_sandbox id g) = Ret tt ->
     let g' := state_of (cleanup_sandbox id g) in
     _sandboxes g' !! id = None /\
     forall ref', outcome_of (_get_sandbox id g') = Ret ref' ->
       ref' <> ref /\
       exists app, In (EvAppLookup APP_NAME (Ret app)) (trace_of (_get_sandbox id g'))).
Proof.
  split; [| split].
  - intros e Hreg He. cbv zeta.
    rewrite (get_sandbox_new _ _ Hreg). cbv zeta. rewrite He. norm_run. simpl.
    split; [reflexivity |]. split; [reflexivity |]. split; [reflexivity |].
    rewrite get_sandbox_new by exact Hreg. cbv zeta. simpl g_world.
    assert (Htr : forall A B (x : outcome Sandbox) (a : Sandbox -> A) (b : exn -> A)
                         (t : list event) (oa : Sandbox -> outcome B) (ob : exn -> outcome B),
              trace_of match x with Ret obj => (a obj, t, oa obj) | Raise e' => (b e', t, ob e') end
              = t) by (intros ? ? [? | ?]; reflexivity).
    rewrite Htr. split; [reflexivity |].
    rewrite Sandbox_create_run. cbv zeta.
    destruct (snd (app_lookup _ _)) as [app | e0]; norm_run; eexists; simpl; eauto.
  - intros ref obj e Hreg Hobj He. cbv zeta.
    rewrite (cleanup_registered _ _ _ _ Hreg Hobj). cbv zeta. rewrite He. norm_run. simpl.
    split; [reflexivity |]. split; [reflexivity |]. split.
    + rewrite list_lookup_insert_eq by (apply lookup_lt_Some in Hobj; exact Hobj).
      rewrite terminate_self. reflexivity.
    + apply get_sandbox_registered. exact Hreg.
  - intros ref Hwf Hreg Ho. cbv zeta.
    destruct (heap g !! ref) as [obj |] eqn:Hobj.
    2:{ apply Hwf in Hreg. apply lookup_ge_None in Hobj. lia. }
    rewrite (cleanup_registered _ _ _ _ Hreg Hobj) in Ho |- *. cbv zeta in Ho |- *.
    destruct (outcome_of (terminate _)) as [[] | e]; norm_run; [| discriminate Ho].
    simpl _sandboxes. split; [apply lookup_delete_eq |].
    intros ref'.
    rewrite get_sandbox_new by (simpl; apply lookup_delete_eq). cbv zeta. simpl g_world.
    simpl heap.
    pose proof (Sandbox_create_run id 600
                  (world (state_of (terminate {| world := g_world g; self := obj |}))))
      as Hrun.
    cbv zeta in Hrun.
    destruct (outcome_of (Sandbox_create id 600 _)) as [obj' | e] eqn:Hc; norm_run;
      [| discriminate].
    intros [= <-]. rewrite length_insert. split.
    + apply Hwf in Hreg. lia.
    + rewrite Hrun in Hc |- *.
      destruct (snd (app_lookup _ _)) as [app | e]; norm_run; [| discriminate Hc].
      exists app. simpl. auto.
Qed.
End RegistryInvariant.

(** ** The resident loop over its whole input *)

Section LoopRuns.
Context {codec : Codec} {NS : Type} {interpreter : Interpreter NS}.

Definition final_namespace (r : list string * NS * loop_end * list string) : NS :=
  snd (fst (fst r)).
Definition ending (r : list string * NS * loop_end * list string) : loop_end :=
  snd (fst r).

(** A line the loop skips. *)
Definition blank (line : string) : bool := str_empty (strip line).

(** A line the loop prints: the encoding of a response record. *)
Definition record_line (out : string) : Prop :=
  exists ok o e, out = json_dumps (response_record ok o e) +:+ nl.

Lemma loop_round_reply (ns ns' : NS) (line out : string) :
  loop_round ns line = Reply out ns' -> blank line = false /\ record_line out.
Proof.
  unfold loop_round, blank. destruct (str_empty (strip line)); [discriminate |].
  destruct (json_loads (strip line)) as [message | e]; [| discriminate].
  destruct (py_get message "_terminate" JNull) as [flag | e]; [| discriminate].
  destruct (truthy flag); [discriminate |].
  destruct (py_get message "code" (JStr "")) as [code | e]; [| discriminate].
  destruct (run code ns) as [ns1 [payload |]] eqn:Hrun; [| discriminate].
  intros [= <- <-]. split; [reflexivity |].
  destruct (run_payload _ _ _ _ Hrun) as [(o & e & _ & ->) | (o & e & tb & _ & ->)];
    eexists _, _, _; reflexivity.
Qed.

Lemma loop_round_skip (ns : NS) (line : string) :
  loop_round ns line = Skip <-> blank line = true.
Proof.
  unfold loop_round, blank. destruct (str_empty (strip line)); [split; reflexivity |].
  split; [| discriminate].
  destruct (json_loads (strip line)) as [message | e]; [| discriminate].
  destruct (py_get message "_terminate" JNull) as [flag | e]; [| discriminate].
  destruct (truthy flag); [discriminate |].
  destruct (py_get message "code" (JStr "")) as [code | e]; [| discriminate].
  destruct (run code ns) as [ns1 [payload |]]; discriminate.
Qed.

Lemma loop_round_break (ns : NS) (line out : string) :
  loop_round ns line = ReplyAndBreak out ->
  blank line = false /\ out = json_dumps (response_record true "" "") +:+ nl.
Proof.
  unfold loop_round, blank. destruct (str_empty (strip line)); [discriminate |].
  destruct (json_loads (strip line)) as [message | e]; [| discriminate].
  destruct (py_get message "_terminate" JNull) as [flag | e]; [| discriminate].
  destruct (truthy flag).
  - intros [= <-]. split; reflexivity.
  - destruct (py_get message "code" (JStr "")) as [code | e]; [| discriminate].
    destruct (run code ns) as [ns1 [payload |]]; discriminate.
Qed.

(** X11.  What the resident loop prints over a whole input.  Every line
    it prints is the encoding of a response record with its three fields.
    The lines it never read are a suffix of the input, and it prints at
    most one line for each line it read.  When it reaches the end of the
    input, every line that is not blank has got exactly one response.
    When it ends on a termination request, the last line printed is the
    acknowledgement. *)
Theorem session_loop_output (ns : NS) (input : list string) :
  let r := session_loop ns input in
  Forall record_line (printed r) /\
  (exists consumed,
     input = consumed ++ unread r /\ (length (printed r) <= length consumed)%nat) /\
  (ending r = EndOfInput ->
     unread r = [] /\
     length (printed r) = length (List.filter (fun line => negb (blank line)) input)) /\
  (ending r = Terminated ->
     exists before,
       printed r = before ++ [json_dumps (response_record true "" "") +:+ nl]).
Proof.
  cbv zeta. revert ns. induction input as [| line rest IH]; intros ns.
  - simpl. split; [constructor |]. split; [exists []; split; [reflexivity | simpl; lia] |].
    split; [intros _; split; reflexivity | discriminate].
  - rewrite session_loop_cons.
    destruct (loop_round ns line) as [| out ns' | out | why ns'] eqn:Hround.
    + destruct (IH ns) as (Hrec & (consumed & Hin & Hlen) & Hend & Hterm).
      apply loop_round_skip in Hround.
      split; [exact Hrec |]. split.
      { exists (line :: consumed). split; [simpl; congruence | simpl; lia]. }
      split; [| exact Hterm].
      intros He. destruct (Hend He) as [Hun Hcount]. split; [exact Hun |].
      simpl. rewrite Hround. simpl. exact Hcount.
    + destruct (IH ns') as (Hrec & (consumed & Hin & Hlen) & Hend & Hterm).
      destruct (loop_round_reply _ _ _ _ Hround) as [Hblank Hline].
      unfold emit, printed, unread, ending in *.
      destruct (session_loop ns' rest) as [[[outs ns''] e] un]. simpl in *.
      split; [constructor; assumption |]. split.
      { exists (line :: consumed). split; [simpl; congruence | simpl; lia]. }
      split.
      * intros He. destruct (Hend He) as [Hun Hcount]. split; [exact Hun |].
        rewrite Hblank. simpl. congruence.
      * intros He. destruct (Hterm He) as (before & ->). exists (out :: before). reflexivity.
    + destruct (loop_round_break _ _ _ Hround) as [Hblank ->].
      unfold printed, unread, ending. simpl.
      split; [constructor; [eexists _, _, _; reflexivity | constructor] |]. split.
      { exists [line]. split; [reflexivity | simpl; lia]. }
      split; [discriminate |]. intros _. exists []. reflexivity.
    + unfold printed, unread, ending. simpl.
      split; [constructor |]. split.
      { exists [line]. split; [reflexivity | simpl; lia]. }
      assert (Hwhy : why <> EndOfInput /\ why <> Terminated).
      { revert Hround. unfold loop_round.
        destruct (str_empty (strip line)); [discriminate |].
        destruct (json_loads (strip line)) as [message | e];
          [| intros [= <- _]; split; discriminate].
        destruct (py_get message "_terminate" JNull) as [flag | e];
          [| intros [= <- _]; split; discriminate].
        destruct (truthy flag); [discriminate |].
        destruct (py_get message "code" (JStr "")) as [code | e];
          [| intros [= <- _]; split; discriminate].
        destruct (run code ns) as [ns1 [payload |]]; [discriminate |].
        intros [= <- _]; split; discriminate. }
      destruct Hwhy as [H1 H2]. split; intros He; contradiction.
Qed.

(** X12.  The loop over an input in two parts.  When the loop reaches the
    end of the first part, it goes through the second from the namespace
    the first part left: what it prints is what it printed for the first
    part followed by what it prints for the second.  When it ends within
    the first part, nothing of the second part is read. *)
Theorem session_loop_app (ns : NS) (first second : list string) :
  let r1 := session_loop ns first in
  (ending r1 = EndOfInput ->
     let r2 := session_loop (final_namespace r1) second in
     session_loop ns (first ++ second)
     = (printed r1 ++ printed r2, final_namespace r2, ending r2, unread r2)) /\
  (ending r1 <> EndOfInput ->
     session_loop ns (first ++ second)
     = (printed r1, final_namespace r1, ending r1, unread r1 ++ second)).
Proof.
  cbv zeta. revert ns. induction first as [| line rest IH]; intros ns.
  - simpl. split; [| intros H; contradiction H; reflexivity].
    intros _. unfold printed, final_namespace, ending, unread. simpl.
    destruct (session_loop ns second) as [[[outs ns'] e] un]. reflexivity.
  - rewrite <- app_comm_cons, !session_loop_cons.
    destruct (loop_round ns line) as [| out ns' | out | why ns'] eqn:Hround.
    + apply IH.
    + destruct (IH ns') as [Hend Hearly].
      unfold emit, printed, final_namespace, ending, unread in *.
      destruct (session_loop ns' rest) as [[[outs1 ns1] e1] un1]. simpl in *.
      split.
      * intros He. rewrite (Hend He).
        destruct (session_loop ns1 second) as [[[outs2 ns2] e2] un2]. reflexivity.
      * intros He. rewrite (Hearly He). reflexivity.
    + unfold printed, final_namespace, ending, unread. simpl.
      split; [discriminate | intros _; reflexivity].
    + unfold printed, final_namespace, ending, unread. simpl.
      split; [| intros _; reflexivity].
      intros ->. revert Hround. unfold loop_round.
      destruct (str_empty (strip line)); [discriminate |].
      destruct (json_loads (strip line)) as [message | e]; [| discriminate].
      destruct (py_get message "_terminate" JNull) as [flag | e]; [| discriminate].
      destruct (truthy flag); [discriminate |].
      destruct (py_get message "code" (JStr "")) as [code | e]; [| discriminate].
      destruct (run code ns) as [ns1 [payload |]]; discriminate.
Qed.
End LoopRuns.

(** ** Reading a line *)

(** The reads that go through an asynchronous iterator. *)
Definition iterates (k : read_kind) : bool :=
  match k with ByAnext | ByAiter => true | _ => false end.

Section ReadingLines.
Context {codec : Codec} {W : Type} {platform : Platform W}.
#[local] Abbreviation St := (@St W).

(** The primitive [_readline] goes through for a stream, by the attributes
    the stream has; [None] when it has none of them. *)
Definition chosen_read (s : stream) : option read_kind :=
  if s_anext s then Some ByAnext
  else
    match s_aiter s with
    | Some true => Some ByAiter
    | _ => if s_readline s then Some ByReadline
           else if s_read s then Some ByRead else None
    end.

Lemma recv_run (s : stream) (k : read_kind) (wait : option Z) (st : St) :
  on_world (call_recv s k wait) st
  = ({| world := fst (stream_recv (world st) s k wait); self := self st |},
     [EvRecv s k wait (snd (stream_recv (world st) s k wait))],
     snd (stream_recv (world st) s k wait)).
Proof.
  unfold call_recv.
  exact (on_world_call_run (fun w => stream_recv w s k wait) (EvRecv s k wait) st).
Qed.

(** X13.  [_readline] makes at most one call to the platform, a read of
    the stream it is given under the bound it is given, and does not touch
    the object.  Without a stream, and on a stream that has none of
    [__anext__], [__aiter__], [readline] and [read], it returns [b""]
    without any call.  The end of an asynchronous iterator
    ([StopAsyncIteration]) is returned as [b""]; from [readline] and [read]
    the same exception is raised to the caller, as every other exception
    is from all four. *)
Theorem readline_reads_once (o : option stream) (wait : option Z) (st : St) :
  let run := _readline o wait st in
  self (state_of run) = self st /\
  ((o = None \/ exists s, o = Some s /\ chosen_read s = None) ->
     run = (st, [], Ret (DBytes []))) /\
  (forall s k, o = Some s -> chosen_read s = Some k ->
     let answer := stream_recv (world st) s k wait in
     state_of run = {| world := fst answer; self := self st |} /\
     trace_of run = [EvRecv s k wait (snd answer)] /\
     outcome_of run
     = match snd answer with
       | Raise StopAsyncIteration =>
           if iterates k then Ret (DBytes []) else Raise StopAsyncIteration
       | r => r
       end).
Proof.
  cbv zeta.
  assert (Hnext : forall s k,
            anext_or_empty s k wait st
            = ({| world := fst (stream_recv (world st) s k wait); self := self st |},
               [EvRecv s k wait (snd (stream_recv (world st) s k wait))],
               match snd (stream_recv (world st) s k wait) with
               | Raise StopAsyncIteration => Ret (DBytes [])
               | r => r
               end)).
  { intros s k. unfold anext_or_empty. rewrite try_except_run, recv_run. norm_run.
    destruct (snd (stream_recv (world st) s k wait)) as [d | []]; unfold ret, raise;
      norm_run; rewrite ?app_nil_r; reflexivity. }
  split; [| split].
  - unfold _readline, _read_stream. destruct o as [s |]; [| reflexivity].
    destruct (s_anext s); [rewrite Hnext; reflexivity |].
    destruct (s_aiter s) as [[|] |]; first
      [ rewrite Hnext; reflexivity
      | destruct (s_readline s); [rewrite recv_run; reflexivity |];
        destruct (s_read s); [rewrite recv_run; reflexivity | reflexivity] ].
  - intros [-> | (s & -> & Hs)]; [reflexivity |].
    unfold _readline, _read_stream. unfold chosen_read in Hs.
    destruct (s_anext s); [discriminate |].
    destruct (s_aiter s) as [[|] |]; try discriminate;
      (destruct (s_readline s); [discriminate |]);
      (destruct (s_read s); [discriminate | reflexivity]).
  - intros s k -> Hs. unfold _readline, _read_stream. unfold chosen_read in Hs.
    destruct (s_anext s).
    { injection Hs as <-. rewrite Hnext. norm_run.
      split; [reflexivity |]. split; [reflexivity |].
      destruct (snd (stream_recv _ _ _ _)) as [d | []]; reflexivity. }
    destruct (s_aiter s) as [[|] |].
    { injection Hs as <-. rewrite Hnext. norm_run.
      split; [reflexivity |]. split; [reflexivity |].
      destruct (snd (stream_recv _ _ _ _)) as [d | []]; reflexivity. }
    all: destruct (s_readline s);
      [ injection Hs as <-; rewrite recv_run; norm_run;
        (split; [reflexivity |]); (split; [reflexivity |]);
        destruct (snd (stream_recv _ _ _ _)) as [d | []]; reflexivity |].
    all: destruct (s_read s); [| discriminate].
    all: injection Hs as <-; rewrite recv_run; norm_run;
      (split; [reflexivity |]); (split; [reflexivity |]);
      destruct (snd (stream_recv _ _ _ _)) as [d | []]; reflexivity.
Qed.
End ReadingLines.

(** ** The calls of [execute_bash] *)

(** What follows the spawn in [execute_bash]: reads through [read], under
    no bound, and the wait for the process. *)
Definition after_spawn (ev : event) : bool :=
  match ev with
  | EvRecv _ ByRead None _ | EvWait _ _ => true
  | _ => false
  end.

Section BashCalls.
Context {codec : Codec} {W : Type} {platform : Platform W}.
#[local] Abbreviation St := (@St W).

(** The body of [execute_bash] once the process is spawned. *)
Definition bash_body (process : proc) : M St ExecutionResult :=
  stdout_bytes <- _read_stream (stdout process) None ;;
  stderr_bytes <- _read_stream (stderr process) None ;;
  on_world (call_wait process) ;;
  rc <- on_world (call_returncode process) ;;
  ret {| success := returncode_is_zero rc;
         stdout_text := JStr (_decode_stream stdout_bytes);
         stderr_text := JStr (_decode_stream stderr_bytes);
         error := None |}.

Lemma bash_attempt_run (command : string) (timeout : Z) (st : St) :
  let spawn := sandbox_exec (world st) (_sandbox (self st)) (bash_argv command) timeout in
  bash_attempt command timeout st =
  match snd spawn with
  | Raise e =>
      ({| world := fst spawn; self := self st |},
       [EvExec (_sandbox (self st)) (bash_argv command) timeout (Raise e)], Raise e)
  | Ret process =>
      let B := bash_body process {| world := fst spawn; self := self st |} in
      (state_of B,
       EvExec (_sandbox (self st)) (bash_argv command) timeout (Ret process) :: trace_of B,
       outcome_of B)
  end.
Proof.
  cbv zeta. unfold bash_attempt. unfold bind at 1. unfold get_self.
  rewrite bind_run. unfold call_exec. rewrite on_world_call_run. norm_run.
  destruct (snd (sandbox_exec _ _ _ _)) as [process | e]; reflexivity.
Qed.

Lemma bash_body_ends_with_wait (process : proc) (s : St) (r : ExecutionResult) :
  outcome_of (bash_body process s) = Ret r ->
  exists reads, trace_of (bash_body process s) = reads ++ [EvWait process (Ret tt)].
Proof.
  unfold bash_body. rewrite bind_run.
  destruct (outcome_of (_read_stream (stdout process) None s)) as [out |];
    norm_run; [| discriminate].
  rewrite bind_run.
  destruct (outcome_of (_read_stream (stderr process) None _)) as [err |];
    norm_run; [| discriminate].
  rewrite bind_run. unfold call_wait. rewrite on_world_call_run. norm_run.
  destruct (snd (proc_wait _ _)) as [[] | e']; norm_run; [| discriminate].
  intros _. eexists.
  unfold bind, on_world, zoom, call_returncode, ret, trace_of. simpl.
  destruct (proc_returncode _ _); simpl; rewrite ?app_nil_r, app_assoc; reflexivity.
Qed.

(** X14.  [execute_bash] always begins with one spawn of [bash -c command]
    in the object's sandbox, the only call the timeout is passed to.  What
    follows are reads of the streams through [read], under no bound, and
    the wait for the process: nothing is written to any process, and
    nothing else is spawned.  When the spawn raises, nothing follows; when
    the body runs to its end, the last call is the wait, which
    returned. *)
Theorem execute_bash_calls (command : string) (timeout : Z) (st : St) :
  let run := execute_bash command timeout st in
  let spawn := sandbox_exec (world st) (_sandbox (self st)) (bash_argv command) timeout in
  exists rest,
    trace_of run
    = EvExec (_sandbox (self st)) (bash_argv command) timeout (snd spawn) :: rest /\
    Forall (fun ev => after_spawn ev = true) rest /\
    (forall e, snd spawn = Raise e -> rest = []) /\
    (forall r, outcome_of (bash_attempt command timeout st) = Ret r ->
       exists process reads,
         snd spawn = Ret process /\ rest = reads ++ [EvWait process (Ret tt)]).
Proof.
  cbv zeta. rewrite execute_bash_run. norm_run.
  pose proof (bash_attempt_run command timeout st) as Hrun. cbv zeta in Hrun.
  rewrite Hrun.
  destruct (snd (sandbox_exec _ _ _ _)) as [process | e] eqn:Hspawn; norm_run.
  - eexists. split; [reflexivity |].
    assert (Hbody : preserves (only after_spawn) always (bash_body process)).
    { unfold bash_body.
      preserves_of ltac:(first [ apply always_world_free
                               | intros; apply only_transparent; reflexivity
                               | intros; exact I ]). }
    match goal with
    | |- Forall _ (trace_of (_ ?s)) /\ _ => destruct (Hbody s tt I) as ([] & Hscan & _)
    end.
    split; [exact (scan_only _ _ _ _ Hscan) |]. split; [discriminate |].
    intros r Hr. destruct (bash_body_ends_with_wait _ _ _ Hr) as (reads & Hreads).
    exists process, reads. split; [reflexivity | exact Hreads].
  - exists []. split; [reflexivity |]. split; [constructor |].
    split; [reflexivity | discriminate].
Qed.
End BashCalls.

(** ** What one call costs *)

Section Budgets.
Context {S : Type} (counted : event -> bool).

(** [m] makes at most [k] of the counted events, from every state. *)
Definition makes_at_most {A} (k : nat) (m : M S A) : Prop :=
  forall s, (count_events counted (trace_of (m s)) <= k)%nat.

Lemma budget_weaken {A} (k k' : nat) (m : M S A) :
  (k <= k')%nat -> makes_at_most k m -> makes_at_most k' m.
Proof. intros Hle Hm s. specialize (Hm s). lia. Qed.

Lemma budget_ret {A} (a : A) : makes_at_most 0 (ret a).
Proof. intros s. reflexivity. Qed.

Lemma budget_raise {A} (e : exn) : makes_at_most 0 (@raise S A e).
Proof. intros s. reflexivity. Qed.

Lemma budget_lift {A} (o : outcome A) : makes_at_most 0 (@lift_outcome S A o).
Proof. intros s. reflexivity. Qed.

Lemma budget_bind {A B} (k1 k2 : nat) (m : M S A) (k : A -> M S B) :
  makes_at_most k1 m -> (forall a, makes_at_most k2 (k a)) ->
  makes_at_most (k1 + k2) (bind m k).
Proof.
  intros Hm Hk s. rewrite bind_run. specialize (Hm s).
  destruct (outcome_of (m s)) as [a | e]; norm_run; [| lia].
  rewrite count_events_app. specialize (Hk a (state_of (m s))). lia.
Qed.

Lemma budget_try {A} (k1 k2 : nat) (m : M S A) (h : exn -> M S A) :
  makes_at_most k1 m -> (forall e, makes_at_most k2 (h e)) ->
  makes_at_most (k1 + k2) (try_except m h).
Proof.
  intros Hm Hh s. rewrite try_except_run. specialize (Hm s).
  destruct (outcome_of (m s)) as [a | e]; norm_run; [lia |].
  rewrite count_events_app. specialize (Hh e (state_of (m s))). lia.
Qed.

Lemma budget_suppress (k : nat) (cls : exn -> bool) (m : M S unit) :
  makes_at_most k m -> makes_at_most k (suppress cls m).
Proof.
  intros Hm. unfold suppress. apply (budget_weaken (k + 0)); [lia |].
  apply budget_try; [exact Hm |].
  intros e; destruct (cls e); [apply budget_ret | apply budget_raise].
Qed.

Lemma budget_finally {A} (k1 k2 : nat) (m : M S A) (c : M S unit) :
  makes_at_most k1 m -> makes_at_most k2 c -> makes_at_most (k1 + k2) (finally m c).
Proof.
  intros Hm Hc s. rewrite finally_run. norm_run. rewrite count_events_app.
  specialize (Hm s). specialize (Hc (state_of (m s))). lia.
Qed.
End Budgets.

(** The calls a budget is kept of. *)
Definition is_spawn (ev : event) : bool :=
  match ev with EvExec _ _ _ _ => true | _ => false end.
Definition is_read (ev : event) : bool :=
  match ev with EvRecv _ _ _ _ => true | _ => false end.
Definition is_write (ev : event) : bool :=
  match ev with EvWrite _ _ _ => true | _ => false end.
Definition is_wait (ev : event) : bool :=
  match ev with EvWait _ _ => true | _ => false end.

(** A read under the bound of the call, or under the five seconds of the
    stop; a spawn of the resident interpreter with the timeout of the
    call. *)
Definition within_bounds (timeout : Z) (ev : event) : bool :=
  match ev with
  | EvRecv _ _ wait _ => bool_decide (wait = Some timeout) || bool_decide (wait = Some 5)
  | EvExec _ argv t _ => is_resident argv && bool_decide (t = timeout)
  | _ => true
  end.

Section PythonBudget.
Context {codec : Codec} {W : Type} {platform : Platform W}.
#[local] Abbreviation St := (@St W).

Lemma budget_call {A} (counted : event -> bool)
    (op : W -> W * outcome A) (ev : outcome A -> event) :
  makes_at_most counted 1 (on_world (platform_call op ev)).
Proof.
  intros st. rewrite on_world_call_run. norm_run. unfold count_events. simpl.
  destruct (counted _); simpl; lia.
Qed.

Lemma budget_call_free {A} (counted : event -> bool)
    (op : W -> W * outcome A) (ev : outcome A -> event) :
  (forall r, counted (ev r) = false) ->
  makes_at_most counted 0 (on_world (platform_call op ev)).
Proof.
  intros Hfree st. rewrite on_world_call_run. norm_run. unfold count_events. simpl.
  rewrite Hfree. reflexivity.
Qed.

Lemma budget_get_self {A} (counted : event -> bool) (k : nat) (f : Sandbox -> M St A) :
  (forall me, makes_at_most counted k (f me)) -> makes_at_most counted k (bind get_self f).
Proof.
  intros Hf. apply (budget_weaken counted (0 + k)); [lia |].
  apply budget_bind; [intros st; reflexivity | exact Hf].
Qed.

Lemma budget_set_python_proc (counted : event -> bool) (p : option proc) :
  makes_at_most counted 0 (set_python_proc (W := W) p).
Proof. intros st. reflexivity. Qed.

Lemma budget_readline (counted : event -> bool) (o : option stream) (wait : option Z) :
  makes_at_most counted 1 (_readline o wait).
Proof.
  assert (Hnext : forall s k, makes_at_most counted 1 (anext_or_empty s k wait)).
  { intros s k. unfold anext_or_empty. apply (budget_weaken counted (1 + 0)); [lia |].
    apply budget_try; [apply budget_call |].
    intros e; destruct e; first [apply budget_ret | apply budget_raise]. }
  unfold _readline, _read_stream. destruct o as [s |];
    [| apply (budget_weaken counted 0); [lia | apply budget_ret]].
  destruct (s_anext s); [apply Hnext |].
  destruct (s_aiter s) as [[|] |]; first
    [ apply Hnext
    | destruct (s_readline s); [apply budget_call |];
      destruct (s_read s);
      [apply budget_call | apply (budget_weaken counted 0); [lia | apply budget_ret]] ].
Qed.

Lemma budget_readline_free (counted : event -> bool) (o : option stream) (wait : option Z) :
  (forall s k w r, counted (EvRecv s k w r) = false) ->
  makes_at_most counted 0 (_readline o wait).
Proof.
  intros Hfree.
  assert (Hnext : forall s k, makes_at_most counted 0 (anext_or_empty s k wait)).
  { intros s k. unfold anext_or_empty. apply (budget_weaken counted (0 + 0)); [lia |].
    apply budget_try; [apply budget_call_free; intros; apply Hfree |].
    intros e; destruct e; first [apply budget_ret | apply budget_raise]. }
  unfold _readline, _read_stream. destruct o as [s |]; [| apply budget_ret].
  destruct (s_anext s); [apply Hnext |].
  destruct (s_aiter s) as [[|] |]; first
    [ apply Hnext
    | destruct (s_readline s); [apply budget_call_free; intros; apply Hfree |];
      destruct (s_read s);
      [apply budget_call_free; intros; apply Hfree | apply budget_ret] ].
Qed.

(** The budget of a step: so many spawns, reads, writes and waits. *)
Definition costs {A} (spawns reads writes waits : nat) (m : M St A) : Prop :=
  makes_at_most is_spawn spawns m /\ makes_at_most is_read reads m /\
  makes_at_most is_write writes m /\ makes_at_most is_wait waits m.

Ltac free := intros; reflexivity.

Lemma communicate_costs (payload : json) (timeout : Z) :
  costs 0 1 1 0 (_communicate_with_python payload timeout).
Proof.
  unfold costs, _communicate_with_python. repeat split.
  all: apply budget_get_self; intros me.
  all: destruct (_python_proc me) as [p |]; [| eapply budget_weaken; [| apply budget_raise]; lia].
  all: destruct (stdin p) as [wr |], (stdout p) as [rd |];
    try (eapply budget_weaken; [| apply budget_raise]; lia).
  - apply (budget_bind is_spawn 0 0); [apply budget_call_free; free |]. intros _.
    apply (budget_bind is_spawn 0 0); [apply budget_call_free; free |]. intros _.
    apply (budget_bind is_spawn 0 0); [apply budget_readline_free; free |]. intros line.
    apply budget_lift.
  - apply (budget_bind is_read 0 1); [apply budget_call_free; free |]. intros _.
    apply (budget_bind is_read 0 1); [apply budget_call_free; free |]. intros _.
    apply (budget_bind is_read 1 0); [apply budget_readline |]. intros line.
    apply budget_lift.
  - apply (budget_bind is_write 1 0); [apply budget_call |]. intros _.
    apply (budget_bind is_write 0 0); [apply budget_call_free; free |]. intros _.
    apply (budget_bind is_write 0 0); [apply budget_readline_free; free |]. intros line.
    apply budget_lift.
  - apply (budget_bind is_wait 0 0); [apply budget_call_free; free |]. intros _.
    apply (budget_bind is_wait 0 0); [apply budget_call_free; free |]. intros _.
    apply (budget_bind is_wait 0 0); [apply budget_readline_free; free |]. intros line.
    apply budget_lift.
Qed.

Lemma start_costs (timeout : Z) : costs 1 1 1 0 (_start_python_session timeout).
Proof.
  destruct (communicate_costs (code_request (JStr _PYTHON_SESSION_INIT)) timeout)
    as (Hs & Hr & Hw & Hq).
  unfold costs, _start_python_session. repeat split.
  all: apply budget_get_self; intros me.
  - apply (budget_bind is_spawn 1 0); [apply budget_call |]. intros p.
    apply (budget_bind is_spawn 0 0); [apply budget_set_python_proc |]. intros _.
    apply (budget_bind is_spawn 0 0); [exact Hs |]. intros _. apply budget_ret.
  - apply (budget_bind is_read 0 1); [apply budget_call_free; free |]. intros p.
    apply (budget_bind is_read 0 1); [apply budget_set_python_proc |]. intros _.
    apply (budget_bind is_read 1 0); [exact Hr |]. intros _. apply budget_ret.
  - apply (budget_bind is_write 0 1); [apply budget_call_free; free |]. intros p.
    apply (budget_bind is_write 0 1); [apply budget_set_python_proc |]. intros _.
    apply (budget_bind is_write 1 0); [exact Hw |]. intros _. apply budget_ret.
  - apply (budget_bind is_wait 0 0); [apply budget_call_free; free |]. intros p.
    apply (budget_bind is_wait 0 0); [apply budget_set_python_proc |]. intros _.
    apply (budget_bind is_wait 0 0); [exact Hq |]. intros _. apply budget_ret.
Qed.

Lemma stop_costs : costs 0 1 1 1 (_stop_python_session (W := W)).
Proof.
  unfold costs, _stop_python_session. repeat split.
  all: apply budget_get_self; intros me.
  all: destruct (_python_proc me) as [p |]; [| eapply budget_weaken; [| apply budget_ret]; lia].
  - apply (budget_finally is_spawn 0 0).
    + apply (budget_try is_spawn 0 0); [| intros e; apply budget_ret].
      apply (budget_bind is_spawn 0 0).
      * destruct (stdin p) as [wr |]; [| apply budget_ret].
        apply (budget_bind is_spawn 0 0); [apply budget_call_free; free |]. intros _.
        apply budget_call_free; free.
      * intros _. destruct (stdout p) as [rd |]; [| apply budget_ret].
        apply budget_suppress.
        apply (budget_bind is_spawn 0 0); [apply budget_readline_free; free |].
        intros _. apply budget_ret.
    + apply (budget_bind is_spawn 0 0);
        [apply budget_suppress, budget_call_free; free |].
      intros _. apply budget_set_python_proc.
  - apply (budget_finally is_read 1 0).
    + apply (budget_try is_read 1 0); [| intros e; apply budget_ret].
      apply (budget_bind is_read 0 1).
      * destruct (stdin p) as [wr |]; [| apply budget_ret].
        apply (budget_bind is_read 0 0); [apply budget_call_free; free |]. intros _.
        apply budget_call_free; free.
      * intros _. destruct (stdout p) as [rd |];
          [| eapply budget_weaken; [| apply budget_ret]; lia].
        apply budget_suppress.
        apply (budget_bind is_read 1 0); [apply budget_readline |].
        intros _. apply budget_ret.
    + apply (budget_bind is_read 0 0);
        [apply budget_suppress, budget_call_free; free |].
      intros _. apply budget_set_python_proc.
  - apply (budget_finally is_write 1 0).
    + apply (budget_try is_write 1 0); [| intros e; apply budget_ret].
      apply (budget_bind is_write 1 0).
      * destruct (stdin p) as [wr |]; [| eapply budget_weaken; [| apply budget_ret]; lia].
        apply (budget_bind is_write 1 0); [apply budget_call |]. intros _.
        apply budget_call_free; free.
      * intros _. destruct (stdout p) as [rd |]; [| apply budget_ret].
        apply budget_suppress.
        apply (budget_bind is_write 0 0); [apply budget_readline_free; free |].
        intros _. apply budget_ret.
    + apply (budget_bind is_write 0 0);
        [apply budget_suppress, budget_call_free; free |].
      intros _. apply budget_set_python_proc.
  - apply (budget_finally is_wait 0 1).
    + apply (budget_try is_wait 0 0); [| intros e; apply budget_ret].
      apply (budget_bind is_wait 0 0).
      * destruct (stdin p) as [wr |]; [| apply budget_ret].
        apply (budget_bind is_wait 0 0); [apply budget_call_free; free |]. intros _.
        apply budget_call_free; free.
      * intros _. destruct (stdout p) as [rd |]; [| apply budget_ret].
        apply budget_suppress.
        apply (budget_bind is_wait 0 0); [apply budget_readline_free; free |].
        intros _. apply budget_ret.
    + apply (budget_bind is_wait 1 0); [apply budget_suppress, budget_call |].
      intros _. apply budget_set_python_proc.
Qed.

Lemma restart_costs (timeout : Z) : costs 1 2 2 1 (_restart_python_session timeout).
Proof.
  destruct stop_costs as (Hs1 & Hr1 & Hw1 & Hq1).
  destruct (start_costs timeout) as (Hs2 & Hr2 & Hw2 & Hq2).
  assert (Hmark : forall counted,
            (counted EvRestart = false) -> makes_at_most counted 0 (mark (S := St) EvRestart)).
  { intros counted Hc st. unfold mark, count_events, trace_of. simpl. rewrite Hc.
    reflexivity. }
  unfold costs, _restart_python_session. repeat split.
  - apply (budget_bind is_spawn 0 1); [apply Hmark; reflexivity |]. intros _.
    apply (budget_bind is_spawn 0 1); [exact Hs1 | intros _; exact Hs2].
  - apply (budget_bind is_read 0 2); [apply Hmark; reflexivity |]. intros _.
    apply (budget_bind is_read 1 1); [exact Hr1 | intros _; exact Hr2].
  - apply (budget_bind is_write 0 2); [apply Hmark; reflexivity |]. intros _.
    apply (budget_bind is_write 1 1); [exact Hw1 | intros _; exact Hw2].
  - apply (budget_bind is_wait 0 1); [apply Hmark; reflexivity |]. intros _.
    apply (budget_bind is_wait 1 0); [exact Hq1 | intros _; exact Hq2].
Qed.

Lemma attempt_costs (code : string) (timeout : Z) : costs 1 2 2 0 (python_attempt code timeout).
Proof.
  destruct (start_costs timeout) as (Hs1 & Hr1 & Hw1 & Hq1).
  destruct (communicate_costs (code_request (JStr code)) timeout) as (Hs2 & Hr2 & Hw2 & Hq2).
  unfold costs, python_attempt, _ensure_python_session. repeat split.
  - apply (budget_bind is_spawn 1 0).
    + apply budget_get_self; intros me. destruct (_python_proc me);
        [eapply budget_weaken; [| apply budget_ret]; lia | exact Hs1].
    + intros _. apply (budget_bind is_spawn 0 0); [exact Hs2 |]. intros r. apply budget_lift.
  - apply (budget_bind is_read 1 1).
    + apply budget_get_self; intros me. destruct (_python_proc me);
        [eapply budget_weaken; [| apply budget_ret]; lia | exact Hr1].
    + intros _. apply (budget_bind is_read 1 0); [exact Hr2 |]. intros r. apply budget_lift.
  - apply (budget_bind is_write 1 1).
    + apply budget_get_self; intros me. destruct (_python_proc me);
        [eapply budget_weaken; [| apply budget_ret]; lia | exact Hw1].
    + intros _. apply (budget_bind is_write 1 0); [exact Hw2 |]. intros r. apply budget_lift.
  - apply (budget_bind is_wait 0 0).
    + apply budget_get_self; intros me. destruct (_python_proc me);
        [apply budget_ret | exact Hq1].
    + intros _. apply (budget_bind is_wait 0 0); [exact Hq2 |]. intros r. apply budget_lift.
Qed.

(** An attempt on a session that holds a process is one exchange. *)
Lemma ready_attempt_costs (code : string) (timeout : Z) (st : St) (p : proc) :
  _python_proc (self st) = Some p ->
  let tr := trace_of (python_attempt code timeout st) in
  count_events is_spawn tr = 0%nat /\ (count_events is_read tr <= 1)%nat /\
  (count_events is_write tr <= 1)%nat /\ count_events is_wait tr = 0%nat.
Proof.
  intros Hp. cbv zeta. rewrite (attempt_ready_run _ _ _ p Hp). cbv zeta. norm_run.
  destruct (communicate_costs (code_request (JStr code)) timeout) as (Hs & Hr & Hw & Hq).
  specialize (Hs st). specialize (Hr st). specialize (Hw st). specialize (Hq st).
  repeat split; lia.
Qed.

(** Every wait of a call is bounded, and every spawn is the interpreter's. *)
Lemma execute_python_within_bounds (code : string) (timeout : Z) :
  preserves (only (within_bounds timeout)) always (execute_python code timeout).
Proof.
  assert (Hcomm : forall payload,
            preserves (only (within_bounds timeout)) always
              (_communicate_with_python payload timeout)).
  { intros payload. unfold _communicate_with_python.
    preserves_of ltac:(first [ apply always_world_free
                             | intros; simplify_eq; apply only_transparent; simpl;
                               rewrite ?bool_decide_eq_true_2 by reflexivity;
                               rewrite ?orb_true_r; reflexivity
                             | intros; exact I ]). }
  assert (Hstart : preserves (only (within_bounds timeout)) always
                     (_start_python_session timeout)).
  { unfold _start_python_session.
    preserves_of ltac:(first [ apply always_world_free
                             | intros; apply only_transparent; simpl;
                               rewrite ?resident_is_resident;
                               rewrite ?bool_decide_eq_true_2 by reflexivity; reflexivity
                             | intros; exact I ]).
    apply Hcomm. }
  assert (Hstop : preserves (only (within_bounds timeout)) always
                    (_stop_python_session (W := W))).
  { unfold _stop_python_session.
    preserves_of ltac:(first [ apply always_world_free
                             | intros; simplify_eq; apply only_transparent; simpl;
                               rewrite ?bool_decide_eq_true_2 by reflexivity;
                               rewrite ?orb_true_r; reflexivity
                             | intros; exact I ]). }
  unfold execute_python. generalize (@None exn). generalize 2%nat.
  intros n; induction n as [| n IH]; intros last; simpl.
  - apply preserves_ret.
  - apply preserves_bind.
    + unfold python_round, python_attempt, _ensure_python_session,
        _restart_python_session.
      preserves_of ltac:(first [ apply always_world_free
                               | intros; apply only_transparent; reflexivity
                               | intros; exact I ]);
        first [exact Hstart | apply Hcomm | exact Hstop].
    + intros [r | exc]; [apply preserves_ret | apply IH].
Qed.

(** X15.  What one call of [execute_python] asks of the platform at most,
    whatever the platform answers: three spawns, seven reads, seven writes
    and two waits for a process.  Every spawn is one of the resident
    interpreter, with the timeout of the call; every read is under a
    bound, the timeout of the call or the five seconds of the stop. *)
Theorem execute_python_call_budget (code : string) (timeout : Z) (st : St) :
  let tr := trace_of (execute_python code timeout st) in
  (count_events is_spawn tr <= 3)%nat /\
  (count_events is_read tr <= 7)%nat /\
  (count_events is_write tr <= 7)%nat /\
  (count_events is_wait tr <= 2)%nat /\
  Forall (fun ev => within_bounds timeout ev = true) tr.
Proof.
  cbv zeta.
  assert (Hbounds : Forall (fun ev => within_bounds timeout ev = true)
                      (trace_of (execute_python code timeout st))).
  { destruct (execute_python_within_bounds code timeout st tt I) as ([] & Hscan & _).
    exact (scan_only _ _ _ _ Hscan). }
  destruct (attempt_costs code timeout) as (As & Ar & Aw & Aq).
  destruct (restart_costs timeout) as (Rs & Rr & Rw & Rq).
  pose proof (As st) as As1. pose proof (Ar st) as Ar1.
  pose proof (Aw st) as Aw1. pose proof (Aq st) as Aq1.
  pose proof (Rs (state_of (first_attempt code timeout st))) as Rs1.
  pose proof (Rr (state_of (first_attempt code timeout st))) as Rr1.
  pose proof (Rw (state_of (first_attempt code timeout st))) as Rw1.
  pose proof (Rq (state_of (first_attempt code timeout st))) as Rq1.
  pose proof (Rs (state_of (second_attempt code timeout st))) as Rs2.
  pose proof (Rr (state_of (second_attempt code timeout st))) as Rr2.
  pose proof (Rw (state_of (second_attempt code timeout st))) as Rw2.
  pose proof (Rq (state_of (second_attempt code timeout st))) as Rq2.
  fold (first_attempt code timeout st) in As1, Ar1, Aw1, Aq1.
  fold (first_restart code timeout st) in Rs1, Rr1, Rw1, Rq1.
  fold (second_restart code timeout st) in Rs2, Rr2, Rw2, Rq2.
  assert (Hcounts :
    (count_events is_spawn (trace_of (execute_python code timeout st)) <= 3)%nat /\
    (count_events is_read (trace_of (execute_python code timeout st)) <= 7)%nat /\
    (count_events is_write (trace_of (execute_python code timeout st)) <= 7)%nat /\
    (count_events is_wait (trace_of (execute_python code timeout st)) <= 2)%nat).
  { rewrite execute_python_run.
    destruct (outcome_of (first_attempt code timeout st)) as [r | e1]; norm_run;
      [repeat split; lia |].
    destruct (is_timeout e1); norm_run; [repeat split; lia |].
    destruct (outcome_of (first_restart code timeout st)) as [[] | e] eqn:HR1; norm_run;
      [| rewrite !count_events_app; repeat split; lia].
    destruct (restart_spawns _ _ HR1) as (p & _ & _ & _ & _ & Hp & _).
    destruct (ready_attempt_costs code timeout _ p Hp) as (Bs & Br & Bw & Bq).
    cbv zeta in Bs, Br, Bw, Bq.
    fold (first_restart code timeout st) in Bs, Br, Bw, Bq.
    fold (second_attempt code timeout st) in Bs, Br, Bw, Bq.
    destruct (outcome_of (second_attempt code timeout st)) as [r | e2]; norm_run;
      [rewrite !count_events_app; repeat split; lia |].
    destruct (is_timeout e2); norm_run;
      [rewrite !count_events_app; repeat split; lia |].
    destruct (outcome_of (second_restart code timeout st)) as [[] | e]; norm_run;
      rewrite !count_events_app; repeat split; lia. }
  destruct Hcounts as (H1 & H2 & H3 & H4). auto.
Qed.
End PythonBudget.

(** ** The two ends of the pipe together

    A platform in which the process spawned as the resident interpreter
    is the loop of [_PYTHON_SESSION_SCRIPT] itself: what the host writes
    on its stdin are the lines the loop reads, and what the loop prints
    are the lines the host reads from its stdout, in order.  Each write of
    the host is one line of the loop's input. *)

Section Loopback.
Context {codec : Codec} {NS : Type} {interpreter : Interpreter NS}.

(** The process: the namespace of the loop, whether the loop is still
    running, the lines printed and not read yet, and the number of
    processes spawned so far, the last of which is the one alive. *)
Record resident : Type := {
  namespace : NS;
  running : bool;
  pending : list string;
  spawned : nat
}.

Definition idle : resident :=
  {| namespace := empty_namespace; running := false; pending := []; spawned := 0 |}.

(** The handle of the [n]-th process: its stdout is an asynchronous
    iterator over lines. *)
Definition loop_stdout (n : nat) : stream :=
  {| stream_id := n; s_anext := true; s_aiter := Some true;
     s_readline := false; s_read := true |}.

Definition loop_process (n : nat) : proc :=
  {| proc_id := n; stdin := Some {| writer_id := n |};
     stdout := Some (loop_stdout n); stderr := None |}.

(** The loop reads one line. *)
Definition feed (w : resident) (line : string) : resident :=
  match loop_round (namespace w) line with
  | Skip => w
  | Reply out ns' =>
      {| namespace := ns'; running := true; pending := pending w ++ [out];
         spawned := spawned w |}
  | ReplyAndBreak out =>
      {| namespace := namespace w; running := false; pending := pending w ++ [out];
         spawned := spawned w |}
  | Die _ ns' =>
      {| namespace := ns'; running := false; pending := pending w; spawned := spawned w |}
  end.

#[local] Instance loopback : Platform resident := {
  app_lookup w name := (w, Ret {| app_name := name |});
  volume_from_name w name := (w, Ret {| volume_name := name |});
  sandbox_create w _ := (w, Ret {| object_id := "sb-loop" |});
  sandbox_exec w _ argv _ :=
    if is_resident argv then
      ({| namespace := empty_namespace; running := true; pending := [];
          spawned := S (spawned w) |},
       Ret (loop_process (S (spawned w))))
    else (w, Raise (OtherError "no such program"));
  writer_write w wr b :=
    if running w && (writer_id wr =? spawned w)%nat
    then (feed w (decode_utf8_ignore b), Ret tt)
    else (w, Raise (OtherError "Broken pipe"));
  writer_drain w _ := (w, Ret tt);
  stream_recv w s _ _ :=
    if (stream_id s =? spawned w)%nat then
      match pending w with
      | line :: rest =>
          ({| namespace := namespace w; running := running w; pending := rest;
              spawned := spawned w |}, Ret (DStr line))
      | [] =>
          (w, if running w then Raise (TimeoutError "") else Raise StopAsyncIteration)
      end
    else (w, Raise StopAsyncIteration);
  proc_wait w _ := (w, Ret tt);
  proc_returncode w _ := Ret None;
  sandbox_terminate w _ :=
    ({| namespace := namespace w; running := false; pending := pending w;
        spawned := spawned w |}, Ret tt)
}.

(** The line the loop reads when the host writes a control record. *)
Definition wire (payload : json) : string :=
  decode_utf8_ignore (message_bytes (Encoded payload)).

(** The codec carries a request to the loop, a response to the host. *)
Definition carried_request (payload : json) : Prop :=
  str_empty (strip (wire payload)) = false /\
  json_loads (strip (wire payload)) = Ret payload.

Definition carried_response (payload : json) : Prop :=
  str_empty (strip (json_dumps payload +:+ nl)) = false /\
  json_loads (strip (json_dumps payload +:+ nl)) = Ret payload.

#[local] Abbreviation St := (@St resident).

(** The session on the [n]-th process, waiting for a request. *)
Definition listening (id : string) (sb : modal_sandbox) (n : nat) (ns : NS) : St :=
  {| world := {| namespace := ns; running := true; pending := []; spawned := n |};
     self := {| session_id := id; _sandbox := sb; _python_proc := Some (loop_process n) |} |}.

Lemma append_nl_not_empty (s : string) : str_empty (s +:+ nl) = false.
Proof. destruct s; reflexivity. Qed.

Lemma loopback_spawn (w : resident) (sb : modal_sandbox) (timeout : Z) :
  sandbox_exec w sb resident_argv timeout
  = ({| namespace := empty_namespace; running := true; pending := [];
        spawned := S (spawned w) |}, Ret (loop_process (S (spawned w)))).
Proof. unfold sandbox_exec, loopback. rewrite resident_is_resident. reflexivity. Qed.

Lemma readline_anext (s : stream) (wait : option Z) (st : St) :
  s_anext s = true -> _readline (Some s) wait st = anext_or_empty s ByAnext wait st.
Proof. intros Hs. unfold _readline. rewrite Hs. reflexivity. Qed.

(** One request and its response. *)
Lemma exchange_run (id : string) (sb : modal_sandbox) (n : nat) (ns ns' : NS)
    (code : string) (timeout : Z) (response : json) :
  carried_request (code_request (JStr code)) ->
  run (JStr code) ns = (ns', Some response) ->
  carried_response response ->
  _communicate_with_python (code_request (JStr code)) timeout (listening id sb n ns)
  = (listening id sb n ns',
     [ EvWrite {| writer_id := n |} (Encoded (code_request (JStr code))) (Ret tt);
       EvDrain {| writer_id := n |} (Ret tt);
       EvRecv (loop_stdout n) ByAnext (Some timeout)
         (Ret (DStr (json_dumps response +:+ nl))) ],
     Ret response).
Proof.
  intros [Hne Hloads] Hrun [Hne' Hloads'].
  assert (Hfeed : feed {| namespace := ns; running := true; pending := []; spawned := n |}
                    (wire (code_request (JStr code)))
                  = {| namespace := ns'; running := true;
                       pending := [json_dumps response +:+ nl]; spawned := n |}).
  { unfold feed, loop_round. simpl namespace. rewrite Hne, Hloads.
    simpl py_get. cbv iota. simpl truthy. cbv iota. rewrite Hrun. reflexivity. }
  rewrite (communicate_ready_run _ _ (listening id sb n ns) (loop_process n)
             {| writer_id := n |} (loop_stdout n) eq_refl eq_refl eq_refl).
  cbv zeta.
  unfold call_write. rewrite on_world_call_run.
  unfold listening. simpl world. simpl self.
  unfold writer_write, loopback. simpl running. simpl spawned. simpl writer_id.
  rewrite Nat.eqb_refl. simpl andb. cbv iota. norm_run.
  fold (wire (code_request (JStr code))). rewrite Hfeed.
  unfold call_drain. rewrite on_world_call_run. norm_run. simpl.
  rewrite readline_anext by reflexivity.
  unfold anext_or_empty. rewrite try_except_run.
  unfold call_recv. rewrite on_world_call_run. simpl.
  rewrite Nat.eqb_refl. cbn [fst snd]. cbv iota. norm_run.
  unfold decode_response. simpl falsy. rewrite append_nl_not_empty.
  simpl _decode_stream. rewrite Hne', Hloads'. reflexivity.
Qed.

(** X16.  The host and the resident loop, end to end.  On a fresh
    [Sandbox], when the codec carries the requests and the responses in
    play and the snippets end by returning or raising an [Exception]: the
    first [execute_python] spawns the loop, has it run the initialization
    snippet and then the code, and returns the record the loop made of the
    code; the second call spawns nothing and has its code run in the
    namespace the first call left.  No restart is made, and one process
    serves both calls. *)
Theorem state_persists_across_calls (id : string) (sb : modal_sandbox)
    (code1 code2 : string) (timeout1 timeout2 : Z)
    (ns0 ns1 ns2 : NS) (r0 r1 r2 : json) :
  carried_request (code_request (JStr _PYTHON_SESSION_INIT)) ->
  carried_request (code_request (JStr code1)) ->
  carried_request (code_request (JStr code2)) ->
  run (JStr _PYTHON_SESSION_INIT) empty_namespace = (ns0, Some r0) ->
  run (JStr code1) ns0 = (ns1, Some r1) ->
  run (JStr code2) ns1 = (ns2, Some r2) ->
  carried_response r0 -> carried_response r1 -> carried_response r2 ->
  let st := {| world := idle; self := Sandbox_init id sb |} in
  let call1 := execute_python code1 timeout1 st in
  let call2 := execute_python code2 timeout2 (state_of call1) in
  outcome_of call1 = result_of_response r1 /\
  state_of call1 = listening id sb 1 ns1 /\
  outcome_of call2 = result_of_response r2 /\
  state_of call2 = listening id sb 1 ns2 /\
  restarts (trace_of call1 ++ trace_of call2) = 0%nat /\
  count_events (fun ev => match ev with EvExec _ _ _ _ => true | _ => false end)
    (trace_of call1 ++ trace_of call2) = 1%nat /\
  exists ok1 out1 err1 ok2 out2 err2,
    outcome_of call1 = Ret {| success := ok1; stdout_text := JStr out1;
                              stderr_text := JStr err1; error := None |} /\
    outcome_of call2 = Ret {| success := ok2; stdout_text := JStr out2;
                              stderr_text := JStr err2; error := None |}.
Proof.
  intros Hq0 Hq1 Hq2 Hrun0 Hrun1 Hrun2 Hp0 Hp1 Hp2. cbv zeta.
  assert (Hrec : forall code ns ns' r, run (JStr code) ns = (ns', Some r) ->
            exists ok out err,
              result_of_response r
              = Ret {| success := ok; stdout_text := JStr out; stderr_text := JStr err;
                       error := None |}).
  { intros code ns ns' r Hr.
    destruct (run_payload _ _ _ _ Hr) as [(out & err & _ & ->) | (out & err & tb & _ & ->)];
      eexists _, _, _; reflexivity. }
  destruct (Hrec _ _ _ _ Hrun1) as (ok1 & out1 & err1 & Hres1).
  destruct (Hrec _ _ _ _ Hrun2) as (ok2 & out2 & err2 & Hres2).
  (* the first attempt: spawn, initialization, the code *)
  assert (Hstart : _start_python_session timeout1
                     {| world := idle; self := Sandbox_init id sb |}
                   = (listening id sb 1 ns0,
                      EvExec sb resident_argv timeout1 (Ret (loop_process 1))
                        :: trace_of (_communicate_with_python
                                       (code_request (JStr _PYTHON_SESSION_INIT)) timeout1
                                       (listening id sb 1 empty_namespace)),
                      Ret tt)).
  { pose proof (start_run timeout1 {| world := idle; self := Sandbox_init id sb |}) as Hs.
    cbv zeta in Hs. rewrite Hs. simpl world. simpl self.
    rewrite loopback_spawn. cbn [fst snd]. cbv iota. simpl _sandbox.
    change (spawned idle) with 0%nat.
    change {| world := {| namespace := empty_namespace; running := true; pending := [];
                          spawned := 1 |};
              self := with_process (Sandbox_init id sb) (loop_process 1) |}
      with (listening id sb 1 empty_namespace).
    rewrite (exchange_run id sb 1 empty_namespace ns0 _ timeout1 r0 Hq0 Hrun0 Hp0).
    reflexivity. }
  assert (Hfirst : python_attempt code1 timeout1 {| world := idle; self := Sandbox_init id sb |}
                   = (listening id sb 1 ns1,
                      trace_of (_start_python_session timeout1
                                  {| world := idle; self := Sandbox_init id sb |})
                        ++ trace_of (_communicate_with_python (code_request (JStr code1))
                                       timeout1 (listening id sb 1 ns0)),
                      result_of_response r1)).
  { assert (Hens : _ensure_python_session timeout1
                     {| world := idle; self := Sandbox_init id sb |}
                   = _start_python_session timeout1
                       {| world := idle; self := Sandbox_init id sb |}).
    { unfold _ensure_python_session, bind, get_self.
      change (_python_proc (self {| world := idle; self := Sandbox_init id sb |}))
        with (@None proc).
      cbv iota. destruct (_start_python_session _ _) as [[s t] o]. reflexivity. }
    unfold python_attempt. rewrite bind_run, Hens, Hstart. norm_run.
    rewrite bind_run.
    rewrite (exchange_run id sb 1 ns0 ns1 code1 timeout1 r1 Hq1 Hrun1 Hp1). norm_run.
    unfold lift_outcome; norm_run. rewrite app_nil_r. reflexivity. }
  assert (Hsecond : python_attempt code2 timeout2 (listening id sb 1 ns1)
                    = (listening id sb 1 ns2,
                       trace_of (_communicate_with_python (code_request (JStr code2))
                                   timeout2 (listening id sb 1 ns1)),
                       result_of_response r2)).
  { rewrite (attempt_ready_run code2 timeout2 (listening id sb 1 ns1) (loop_process 1)
               eq_refl).
    cbv zeta.
    rewrite (exchange_run id sb 1 ns1 ns2 code2 timeout2 r2 Hq2 Hrun2 Hp2). reflexivity. }
  assert (Hcall1 : execute_python code1 timeout1 {| world := idle; self := Sandbox_init id sb |}
                   = (listening id sb 1 ns1,
                      trace_of (python_attempt code1 timeout1
                                  {| world := idle; self := Sandbox_init id sb |}),
                      result_of_response r1)).
  { rewrite Hres1.
    rewrite (execute_python_first_returns code1 timeout1 _
               {| success := ok1; stdout_text := JStr out1; stderr_text := JStr err1;
                  error := None |});
      [rewrite Hfirst; reflexivity | rewrite Hfirst, Hres1; reflexivity]. }
  rewrite Hcall1. norm_run.
  assert (Hcall2 : execute_python code2 timeout2 (listening id sb 1 ns1)
                   = (listening id sb 1 ns2,
                      trace_of (python_attempt code2 timeout2 (listening id sb 1 ns1)),
                      result_of_response r2)).
  { rewrite Hres2.
    rewrite (execute_python_first_returns code2 timeout2 _
               {| success := ok2; stdout_text := JStr out2; stderr_text := JStr err2;
                  error := None |});
      [rewrite Hsecond; reflexivity | rewrite Hsecond, Hres2; reflexivity]. }
  rewrite Hcall2. norm_run.
  split; [reflexivity |]. split; [reflexivity |].
  split; [reflexivity |]. split; [reflexivity |].
  split.
  { rewrite restarts_app, !attempt_restarts. reflexivity. }
  split.
  { rewrite Hfirst, Hsecond. norm_run. rewrite Hstart. norm_run.
    rewrite (exchange_run id sb 1 empty_namespace ns0 _ timeout1 r0 Hq0 Hrun0 Hp0).
    rewrite (exchange_run id sb 1 ns0 ns1 code1 timeout1 r1 Hq1 Hrun1 Hp1).
    rewrite (exchange_run id sb 1 ns1 ns2 code2 timeout2 r2 Hq2 Hrun2 Hp2).
    norm_run. reflexivity. }
  exists ok1, out1, err1, ok2, out2, err2. split; assumption.
Qed.

(** The codec carries the termination literal of [_stop_python_session]
    to the loop as the object [{"_terminate": true}]. *)
Definition carried_terminate : Prop :=
  let text := strip (decode_utf8_ignore TERMINATE_LINE) in
  str_empty text = false /\ json_loads text = Ret (JObj [("_terminate", JBool true)]).

(** The session after its process was told to terminate. *)
Definition stopped (id : string) (sb : modal_sandbox) (n : nat) (ns : NS) : St :=
  {| world := {| namespace := ns; running := false; pending := []; spawned := n |};
     self := {| session_id := id; _sandbox := sb; _python_proc := None |} |}.

Lemma stop_listening_run (id : string) (sb : modal_sandbox) (n : nat) (ns : NS) :
  carried_terminate ->
  _stop_python_session (listening id sb n ns)
  = (stopped id sb n ns,
     [ EvWrite {| writer_id := n |} (Literal TERMINATE_LINE) (Ret tt);
       EvDrain {| writer_id := n |} (Ret tt);
       EvRecv (loop_stdout n) ByAnext (Some 5)
         (Ret (DStr (json_dumps (response_record true "" "") +:+ nl)));
       EvWait (loop_process n) (Ret tt) ],
     Ret tt).
Proof.
  intros [Hne Hloads]. cbv zeta in Hne, Hloads.
  assert (Hfeed : feed {| namespace := ns; running := true; pending := []; spawned := n |}
                    (decode_utf8_ignore TERMINATE_LINE)
                  = {| namespace := ns; running := false;
                       pending := [json_dumps (response_record true "" "") +:+ nl];
                       spawned := n |}).
  { unfold feed, loop_round. simpl namespace. rewrite Hne, Hloads. reflexivity. }
  unfold _stop_python_session, bind, get_self, finally, try_except, suppress, on_world,
    zoom, call_write, call_drain, call_recv, call_wait, platform_call, set_python_proc,
    ret, raise, _readline, anext_or_empty, listening, stopped.
  cbn -[feed decode_utf8_ignore json_dumps TERMINATE_LINE String.append nl Nat.eqb].
  rewrite Nat.eqb_refl.
  cbn -[feed decode_utf8_ignore json_dumps TERMINATE_LINE String.append nl Nat.eqb].
  rewrite Hfeed.
  cbn -[feed decode_utf8_ignore json_dumps TERMINATE_LINE String.append nl Nat.eqb].
  unfold try_except, on_world, zoom, call_recv, platform_call, ret, raise.
  cbn -[feed decode_utf8_ignore json_dumps TERMINATE_LINE String.append nl Nat.eqb].
  rewrite Nat.eqb_refl.
  reflexivity.
Qed.

End Loopback.

(** ** The replies of the tools *)

Section Replies.
Context {formatter : Formatter}.

Lemma or_else_truthy (v default : json) :
  truthy default = true -> truthy (or_else v default) = true.
Proof. intros Hd. unfold or_else. destruct (truthy v) eqn:Hv; assumption. Qed.

(** The reply made of a result whose two captured streams are text. *)
Lemma tool_reply_streams (r : ExecutionResult) (out err : string) :
  stdout_text r = JStr out -> stderr_text r = JStr err ->
  exists text,
    tool_reply r = Ret (text_reply (JStr text) (is_set (error r))) /\
    str_empty text = false /\
    (is_set (error r) = false ->
     text = if str_empty out && str_empty err then "(no output)"
            else if str_empty err then out
            else out +:+ STDERR_MARK +:+ err).
Proof.
  intros Hout Herr. unfold tool_reply. rewrite Hout, Herr.
  unfold or_else. simpl truthy.
  destruct out as [| c out], err as [| d err]; simpl;
    (destruct (error r) as [[| m msg] |]; simpl;
     eexists; (split; [reflexivity |]); split;
     first [discriminate | reflexivity | idtac]).
Qed.

(** X18.  The reply a tool makes of a result.  Its text is never empty:
    an empty output is replaced by ["(no output)"].  Its [is_error] is set
    exactly when the result carries a non-empty error text, and then the
    text is ["Error: "] followed by that text, whatever was captured.  The
    [success] flag of the result plays no role: a command that exits with
    a non-zero code and a snippet that raised are replied to as any other
    output.  When the two captured streams are text, making the reply
    never raises; the text is then the standard output, followed, when the
    error stream is not empty, by the mark and the error stream. *)
Theorem tool_reply_text (r : ExecutionResult) :
  (forall out, tool_reply r = Ret out ->
     exists text, out = text_reply text (is_set (error r)) /\ truthy text = true) /\
  (forall msg out, error r = Some msg -> str_empty msg = false ->
     tool_reply r = Ret out -> out = text_reply (JStr ("Error: " +:+ msg)) true) /\
  (forall b,
     tool_reply {| success := b; stdout_text := stdout_text r;
                   stderr_text := stderr_text r; error := error r |}
     = tool_reply r) /\
  (forall out err, stdout_text r = JStr out -> stderr_text r = JStr err ->
     exists text,
       tool_reply r = Ret (text_reply (JStr text) (is_set (error r))) /\
       (is_set (error r) = false ->
        text = if str_empty out && str_empty err then "(no output)"
               else if str_empty err then out
               else out +:+ STDERR_MARK +:+ err)).
Proof.
  split; [| split; [| split]].
  - intros out. unfold tool_reply.
    destruct (if truthy (stderr_text r) then _ else _) as [output | e]; [| discriminate].
    intros [= <-]. eexists. split; [reflexivity |]. apply or_else_truthy. reflexivity.
  - intros msg out Hmsg Hne. unfold tool_reply. rewrite Hmsg. simpl is_set. rewrite Hne.
    destruct (if truthy (stderr_text r) then _ else _) as [output | e]; [| discriminate].
    intros [= <-]. reflexivity.
  - intros b. reflexivity.
  - intros out err Hout Herr.
    destruct (tool_reply_streams r out err Hout Herr) as (text & Hreply & _ & Htext).
    exists text. split; assumption.
Qed.
End Replies.

(** ** The tool handlers *)

(** The events of an exchange with a process: a write, a flush, a read. *)
Definition exchange_event (ev : event) : bool :=
  match ev with
  | EvWrite _ _ _ | EvDrain _ _ | EvRecv _ _ _ _ => true
  | _ => false
  end.

Section Handlers.
Context {codec : Codec} {W : Type} {platform : Platform W}
  {formatter : Formatter} {C : Type} {console : Console C}.
#[local] Abbreviation St := (@St W).
#[local] Abbreviation Global := (@Global W).
#[local] Abbreviation Host := (@Host W C).

(** The two handlers differ in the argument they read and in the method
    they call. *)
Definition handler (id key : string) (method : string -> M St ExecutionResult)
    (args : gmap string string) : M Host json :=
  sandbox <- on_registry (_get_sandbox id) ;;
  v <- lift_outcome (getitem args key) ;;
  result <- on_registry (on_object sandbox (method v)) ;;
  out <- lift_outcome (tool_reply result) ;;
  py_print out ;;
  ret out.

Lemma tool_execute_python_handler (id : string) (args : gmap string string) :
  tool_execute_python id args
  = handler id "code" (fun code => execute_python code DEFAULT_TIMEOUT) args.
Proof. reflexivity. Qed.

Lemma tool_execute_bash_handler (id : string) (args : gmap string string) :
  tool_execute_bash id args
  = handler id "command" (fun command => execute_bash command DEFAULT_TIMEOUT) args.
Proof. reflexivity. Qed.

(** What is left of the host when the method was run on [obj]. *)
Definition host_after (h : Host) (ref : nat) (st : St) (c : C) : Host :=
  {| registry := {| g_world := world st; heap := <[ref := self st]> (heap (registry h));
                    _sandboxes := _sandboxes (registry h) |};
     stdout_console := c |}.

(** A handler on a registered session, step by step. *)
Lemma handler_registered (id key : string) (method : string -> M St ExecutionResult)
    (args : gmap string string) (h : Host) (ref : nat) (obj : Sandbox) (v : string) :
  _sandboxes (registry h) !! id = Some ref -> heap (registry h) !! ref = Some obj ->
  args !! key = Some v ->
  let run := method v {| world := g_world (registry h); self := obj |} in
  handler id key method args h =
  match outcome_of run with
  | Raise e => (host_after h ref (state_of run) (stdout_console h), trace_of run, Raise e)
  | Ret result =>
      match tool_reply result with
      | Raise e =>
          (host_after h ref (state_of run) (stdout_console h), trace_of run, Raise e)
      | Ret out =>
          let shown := console_print (stdout_console h) out in
          (host_after h ref (state_of run) (fst shown), trace_of run,
           match snd shown with Ret _ => Ret out | Raise e => Raise e end)
      end
  end.
Proof.
  intros Hreg Hobj Harg. cbv zeta.
  unfold handler, bind, on_registry, zoom, lift_outcome, getitem, py_print, ret,
    host_after, state_of, trace_of, outcome_of.
  rewrite (get_sandbox_registered _ _ _ Hreg). rewrite Harg. simpl.
  unfold on_object. rewrite Hobj.
  destruct (method v _) as [[st tr] [result | e]]; simpl; [| reflexivity].
  destruct (tool_reply result) as [out | e]; simpl; [| rewrite ?app_nil_r; reflexivity].
  destruct (console_print (stdout_console h) out) as [c [[] | e]]; simpl;
    rewrite ?app_nil_r; reflexivity.
Qed.

(** The results of [execute_bash] carry text. *)
Lemma bash_result_text (command : string) (timeout : Z) (st : St) :
  exists out err,
    let r := bash_result timeout (outcome_of (bash_attempt command timeout st)) in
    stdout_text r = JStr out /\ stderr_text r = JStr err /\
    (forall r0, outcome_of (bash_attempt command timeout st) = Ret r0 -> error r = None).
Proof.
  cbv zeta. destruct (outcome_of (bash_attempt command timeout st)) as [r | e] eqn:Ho.
  - apply bash_attempt_completes in Ho.
    destruct Ho as (process & out & err & rc & Ho). cbv zeta in Ho.
    destruct Ho as (_ & _ & _ & _ & _ & ->). simpl. eauto.
  - simpl. destruct (is_timeout e); simpl; exists "", ""; repeat split; discriminate.
Qed.

Lemma insert_same (ref : nat) (obj : Sandbox) (l : list Sandbox) :
  l !! ref = Some obj -> <[ref := obj]> l = l.
Proof. apply list_insert_id. Qed.

(** X19.  The handler [execute_bash] on a registered session, given a
    command.  It makes the platform calls of [execute_bash] on the
    session's object and no other; it leaves the registry and the objects
    as they were; it prints the reply and returns it, and raises only if
    printing does.  The reply is an error reply only when a step of the
    command raised: a command that ran to its end is replied to without
    [is_error], whatever its return code. *)
Theorem tool_execute_bash_replies (id : string) (args : gmap string string) (h : Host)
    (ref : nat) (obj : Sandbox) (command : string) :
  _sandboxes (registry h) !! id = Some ref -> heap (registry h) !! ref = Some obj ->
  args !! "command" = Some command ->
  let st := {| world := g_world (registry h); self := obj |} in
  let run := execute_bash command DEFAULT_TIMEOUT st in
  let call := tool_execute_bash id args h in
  exists result text,
    let out := text_reply (JStr text) (is_set (error result)) in
    let shown := console_print (stdout_console h) out in
    outcome_of run = Ret result /\
    tool_reply result = Ret out /\ str_empty text = false /\
    (forall r0, outcome_of (bash_attempt command DEFAULT_TIMEOUT st) = Ret r0 ->
       is_set (error result) = false) /\
    trace_of call = trace_of run /\
    registry (state_of call)
    = {| g_world := world (state_of run); heap := heap (registry h);
         _sandboxes := _sandboxes (registry h) |} /\
    stdout_console (state_of call) = fst shown /\
    outcome_of call = match snd shown with Ret _ => Ret out | Raise e => Raise e end.
Proof.
  intros Hreg Hobj Harg. cbv zeta.
  rewrite tool_execute_bash_handler.
  rewrite (handler_registered _ _ _ _ _ _ _ _ Hreg Hobj Harg). cbv zeta.
  pose proof (untouched_run _ {| world := g_world (registry h); self := obj |}
                (bash_attempt_untouched command DEFAULT_TIMEOUT obj 0)) as [Hself _].
  rewrite execute_bash_run. norm_run.
  destruct (bash_result_text command DEFAULT_TIMEOUT
              {| world := g_world (registry h); self := obj |})
    as (out & err & Hres). cbv zeta in Hres. destruct Hres as (Hout & Herr & Hnoerr).
  set (result := bash_result DEFAULT_TIMEOUT _) in *.
  destruct (tool_reply_streams result out err Hout Herr) as (text & Hreply & Hfull & _).
  exists result, text. cbv zeta. rewrite Hreply.
  split; [reflexivity |]. split; [reflexivity |].
  split; [exact Hfull |].
  split; [intros r0 Hr0; rewrite (Hnoerr r0 Hr0); reflexivity |].
  norm_run. split; [reflexivity |]. split; [| split; reflexivity].
  unfold host_after. simpl registry. simpl in Hself. rewrite Hself.
  rewrite (insert_same _ _ _ Hobj). reflexivity.
Qed.

(** X20.  The handler [execute_python] on a registered session whose
    object holds a process, when the first attempt returns a result: the
    handler looks nothing up and spawns nothing; its calls to the platform
    are those of one exchange of the request with that process; the
    object still holds the process afterwards, and the registry is as it
    was, so that the next call finds the same session.  The reply is made
    of that result. *)
Theorem tool_execute_python_reuses_session (id : string) (args : gmap string string)
    (h : Host) (ref : nat) (obj : Sandbox) (p : proc) (code : string)
    (result : ExecutionResult) :
  _sandboxes (registry h) !! id = Some ref -> heap (registry h) !! ref = Some obj ->
  _python_proc obj = Some p -> args !! "code" = Some code ->
  let st := {| world := g_world (registry h); self := obj |} in
  outcome_of (python_attempt code DEFAULT_TIMEOUT st) = Ret result ->
  let exchange := _communicate_with_python (code_request (JStr code)) DEFAULT_TIMEOUT st in
  let call := tool_execute_python id args h in
  trace_of call = trace_of exchange /\
  Forall (fun ev => exchange_event ev = true) (trace_of call) /\
  registry (state_of call)
  = {| g_world := world (state_of exchange); heap := heap (registry h);
       _sandboxes := _sandboxes (registry h) |} /\
  (forall out, tool_reply result = Ret out ->
     let shown := console_print (stdout_console h) out in
     outcome_of call = match snd shown with Ret _ => Ret out | Raise e => Raise e end) /\
  (forall e, tool_reply result = Raise e -> outcome_of call = Raise e).
Proof.
  intros Hreg Hobj Hp Harg st Hres exchange call. subst call.
  rewrite tool_execute_python_handler.
  rewrite (handler_registered _ _ _ _ _ _ _ _ Hreg Hobj Harg). cbv zeta. fold st.
  rewrite (execute_python_first_returns _ _ _ _ Hres). norm_run.
  pose proof (attempt_ready_run code DEFAULT_TIMEOUT st p Hp) as Hrun. cbv zeta in Hrun.
  fold exchange in Hrun.
  pose proof (attempt_ready_untouched code DEFAULT_TIMEOUT st p Hp) as Hself.
  assert (Htr : trace_of (python_attempt code DEFAULT_TIMEOUT st) = trace_of exchange)
    by (rewrite Hrun; reflexivity).
  assert (Hst : state_of (python_attempt code DEFAULT_TIMEOUT st) = state_of exchange)
    by (rewrite Hrun; reflexivity).
  assert (Hevents : Forall (fun ev => exchange_event ev = true) (trace_of exchange)).
  { assert (Hq : preserves (only exchange_event) always
                   (_communicate_with_python (code_request (JStr code)) DEFAULT_TIMEOUT)).
    { unfold _communicate_with_python.
      preserves_of ltac:(first [ apply always_world_free
                               | intros; apply only_transparent; reflexivity
                               | intros; exact I ]). }
    destruct (Hq st tt I) as ([] & Hscan & _).
    exact (scan_only _ _ _ _ Hscan). }
  assert (Hafter : forall c,
            registry (host_after h ref (state_of (python_attempt code DEFAULT_TIMEOUT st)) c)
            = {| g_world := world (state_of exchange); heap := heap (registry h);
                 _sandboxes := _sandboxes (registry h) |}).
  { intros c. unfold host_after. simpl registry. rewrite Hself. simpl self.
    rewrite (insert_same _ _ _ Hobj), Hst. reflexivity. }
  destruct (tool_reply result) as [out | e]; norm_run.
  - split; [exact Htr |]. split; [rewrite Htr; exact Hevents |].
    split; [apply Hafter |]. split; [intros out' [= <-]; reflexivity | discriminate].
  - split; [exact Htr |]. split; [rewrite Htr; exact Hevents |].
    split; [apply Hafter |]. split; [discriminate | intros e' [= <-]; reflexivity].
Qed.
End Handlers.

(** ** Sessions side by side *)

(** What the host does with the registry: the two tools of a session, and
    [cleanup_sandbox]. *)
Inductive host_call : Type :=
| ToolPython (session_id : string) (args : gmap string string)
| ToolBash (session_id : string) (args : gmap string string)
| Cleanup (session_id : string).

(** The session a call names. *)
Definition target (c : host_call) : string :=
  match c with
  | ToolPython id _ | ToolBash id _ | Cleanup id => id
  end.

Section SideBySide.
Context {codec : Codec} {W : Type} {platform : Platform W}
  {formatter : Formatter} {C : Type} {console : Console C}.
#[local] Abbreviation St := (@St W).
#[local] Abbreviation Global := (@Global W).
#[local] Abbreviation Host := (@Host W C).

(** One call, whose reply or exception the caller takes note of. *)
Definition serve (c : host_call) (h : Host) : Host * list event :=
  match c with
  | ToolPython id args =>
      let r := tool_execute_python id args h in (state_of r, trace_of r)
  | ToolBash id args =>
      let r := tool_execute_bash id args h in (state_of r, trace_of r)
  | Cleanup id =>
      let r := on_registry (cleanup_sandbox id) h in (state_of r, trace_of r)
  end.

(** Calls one after the other. *)
Fixpoint serve_all (calls : list host_call) (h : Host) : Host * list event :=
  match calls with
  | [] => (h, [])
  | c :: rest =>
      let '(h1, t1) := serve c h in
      let '(h2, t2) := serve_all rest h1 in
      (h2, t1 ++ t2)
  end.

Lemma get_sandbox_registers (id : string) (g : Global) (ref : nat) :
  outcome_of (_get_sandbox id g) = Ret ref ->
  _sandboxes (state_of (_get_sandbox id g)) !! id = Some ref.
Proof.
  destruct (_sandboxes g !! id) as [ref' |] eqn:Hreg.
  - rewrite (get_sandbox_registered _ _ _ Hreg). norm_run. intros [= <-]. exact Hreg.
  - rewrite (get_sandbox_new _ _ Hreg). cbv zeta.
    destruct (outcome_of (Sandbox_create id 600 (g_world g))) as [obj | e]; norm_run;
      [| discriminate].
    intros [= <-]. simpl. apply lookup_insert_eq.
Qed.

Lemma execute_python_keeps_id (code : string) (timeout : Z) (st : St) :
  session_id (self (state_of (execute_python code timeout st))) = session_id (self st).
Proof.
  destruct (execute_python_identity (session_id (self st)) (_sandbox (self st))
              code timeout st tt (conj eq_refl eq_refl)) as (x & _ & [Hid _]).
  exact Hid.
Qed.

Lemma execute_bash_keeps_id (command : string) (timeout : Z) (st : St) :
  session_id (self (state_of (execute_bash command timeout st))) = session_id (self st).
Proof.
  destruct (execute_bash_identity (session_id (self st)) (_sandbox (self st))
              command timeout st tt (conj eq_refl eq_refl)) as (x & _ & [Hid _]).
  exact Hid.
Qed.

(** The registry a handler leaves. *)
Lemma handler_registry (id key : string) (method : string -> M St ExecutionResult)
    (args : gmap string string) (h : Host) :
  let got := _get_sandbox id (registry h) in
  registry (state_of (handler id key method args h)) = state_of got \/
  exists ref v,
    outcome_of got = Ret ref /\
    registry (state_of (handler id key method args h))
    = state_of (on_object ref (method v) (state_of got)).
Proof.
  cbv zeta.
  unfold handler, bind, on_registry, zoom, lift_outcome, py_print, ret,
    state_of, outcome_of.
  destruct (_get_sandbox id (registry h)) as [[g1 t1] [ref | e]]; simpl; [| left; reflexivity].
  destruct (getitem args key) as [v | e]; simpl; [| left; reflexivity].
  right. exists ref, v. split; [reflexivity |].
  destruct (on_object ref (method v) g1) as [[g2 t2] [result | e]]; simpl; [| reflexivity].
  destruct (tool_reply result) as [out | e]; simpl; [| reflexivity].
  destruct (console_print (stdout_console h) out) as [c [[] | e]]; reflexivity.
Qed.

Lemma handler_inv (id key : string) (method : string -> M St ExecutionResult)
    (args : gmap string string) (h : Host) :
  (forall v st, session_id (self (state_of (method v st))) = session_id (self st)) ->
  registry_inv (registry h) ->
  registry_inv (registry (state_of (handler id key method args h))) /\
  same_elsewhere id (registry h) (registry (state_of (handler id key method args h))).
Proof.
  intros Hm Hinv.
  destruct (get_sandbox_inv id (registry h) Hinv) as [Hinv1 Hsame1].
  destruct (handler_registry id key method args h) as [-> | (ref & v & Ho & ->)];
    [split; assumption |].
  destruct (on_object_inv id ref (method v) _ Hinv1 (get_sandbox_registers _ _ _ Ho) (Hm v))
    as (Hinv2 & Hsame2 & _).
  split; [exact Hinv2 | exact (same_elsewhere_trans _ _ _ _ Hsame1 Hsame2)].
Qed.

Lemma serve_inv (c : host_call) (h : Host) :
  registry_inv (registry h) ->
  registry_inv (registry (fst (serve c h))) /\
  same_elsewhere (target c) (registry h) (registry (fst (serve c h))).
Proof.
  intros Hinv. destruct c as [id args | id args | id]; simpl.
  - rewrite tool_execute_python_handler. apply handler_inv; [| exact Hinv].
    intros v st. apply execute_python_keeps_id.
  - rewrite tool_execute_bash_handler. apply handler_inv; [| exact Hinv].
    intros v st. apply execute_bash_keeps_id.
  - unfold on_registry, zoom, state_of.
    pose proof (cleanup_inv id (registry h) Hinv) as Hc. unfold state_of in Hc.
    destruct (cleanup_sandbox id (registry h)) as [[g1 t1] o]. simpl in *. exact Hc.
Qed.

(** X21.  Sessions do not get in each other's way.  Through any calls of
    the tools and of [cleanup_sandbox], whatever the platform and the
    console answer: every registered id refers to an object of its own,
    which carries that id; and a session that no call names keeps its
    registration and its object, process handle included, as they
    were. *)
Theorem host_calls_keep_sessions_apart (calls : list host_call) (h : Host) :
  registry_inv (registry h) ->
  let h' := fst (serve_all calls h) in
  registry_inv (registry h') /\
  forall id, Forall (fun c => target c <> id) calls ->
    _sandboxes (registry h') !! id = _sandboxes (registry h) !! id /\
    forall ref, _sandboxes (registry h) !! id = Some ref ->
      heap (registry h') !! ref = heap (registry h) !! ref.
Proof.
  cbv zeta. revert h. induction calls as [| c rest IH]; intros h Hinv; simpl.
  - split; [exact Hinv |]. intros id _. split; [reflexivity | intros; reflexivity].
  - destruct (serve_inv c h Hinv) as [Hinv1 Hsame1].
    destruct (serve c h) as [h1 t1]. simpl in *.
    destruct (IH h1 Hinv1) as [Hinv2 Hrest].
    destruct (serve_all rest h1) as [h2 t2]. simpl in *.
    split; [exact Hinv2 |].
    intros id Hall. inversion Hall as [| c' rest' Hc Hr]; subst.
    destruct (Hsame1 id (not_eq_sym Hc)) as [Hreg1 Hheap1].
    destruct (Hrest id Hr) as [Hreg2 Hheap2].
    split; [congruence |].
    intros ref Href. rewrite Hheap2 by congruence. apply Hheap1, Href.
Qed.
End SideBySide.

(** ** What the tools ask of the platform *)

Definition is_terminate (ev : event) : bool :=
  match ev with EvTerminate _ _ => true | _ => false end.

(** A lookup or a creation: the calls of [Sandbox.create]. *)
Definition is_creation (ev : event) : bool :=
  match ev with
  | EvAppLookup _ _ | EvVolume _ _ | EvCreate _ _ => true
  | _ => false
  end.

(** The calls of the methods a tool runs: neither of them. *)
Definition runs_only (ev : event) : bool := negb (is_terminate ev) && negb (is_creation ev).

Section ToolCalls.
Context {codec : Codec} {W : Type} {platform : Platform W}
  {formatter : Formatter} {C : Type} {console : Console C}.
#[local] Abbreviation St := (@St W).
#[local] Abbreviation Global := (@Global W).
#[local] Abbreviation Host := (@Host W C).

Ltac runs_leaf :=
  first [ apply always_world_free
        | intros; apply only_transparent; reflexivity
        | intros; exact I ].

Lemma execute_python_runs_only (code : string) (timeout : Z) :
  preserves (only runs_only) always (execute_python (W := W) code timeout).
Proof.
  unfold execute_python. generalize (@None exn). generalize 2%nat.
  intros n; induction n as [| n IH]; intros last; simpl.
  - apply preserves_ret.
  - apply preserves_bind.
    + unfold python_round, python_attempt, _ensure_python_session,
        _restart_python_session, _start_python_session, _stop_python_session,
        _communicate_with_python.
      preserves_of runs_leaf.
    + intros [r | exc]; [apply preserves_ret | apply IH].
Qed.

Lemma execute_bash_runs_only (command : string) (timeout : Z) :
  preserves (only runs_only) always (execute_bash (W := W) command timeout).
Proof. unfold execute_bash, bash_attempt. preserves_of runs_leaf. Qed.

Lemma creation_trace (id : string) (timeout : Z) (w : W) :
  Forall (fun ev => is_creation ev = true) (trace_of (Sandbox_create id timeout w)).
Proof.
  rewrite Sandbox_create_run. cbv zeta.
  destruct (snd (app_lookup w APP_NAME)); norm_run; repeat constructor.
Qed.

(** The trace of a handler: what [_get_sandbox] does, then what the
    method does on the session's object. *)
Lemma handler_trace (id key : string) (method : string -> M St ExecutionResult)
    (args : gmap string string) (h : Host) :
  (forall v, preserves (only runs_only) always (method v)) ->
  exists rest,
    trace_of (handler id key method args h)
    = trace_of (_get_sandbox id (registry h)) ++ rest /\
    Forall (fun ev => runs_only ev = true) rest.
Proof.
  intros Hm.
  unfold handler, bind, on_registry, zoom, lift_outcome, py_print, ret, trace_of.
  destruct (_get_sandbox id (registry h)) as [[g1 t1] [ref | e]]; simpl;
    [| exists []; rewrite app_nil_r; split; [reflexivity | constructor]].
  destruct (getitem args key) as [v | e]; simpl;
    [| exists []; split; [reflexivity | constructor]].
  assert (Hobj : Forall (fun ev => runs_only ev = true)
                   (trace_of (on_object ref (method v) g1))).
  { unfold on_object. destruct (heap g1 !! ref) as [obj |]; [| constructor].
    destruct (Hm v {| world := g_world g1; self := obj |} tt I) as ([] & Hscan & _).
    apply scan_only in Hscan. unfold trace_of in *.
    destruct (method v _) as [[st tr] o]. exact Hscan. }
  unfold trace_of in Hobj.
  destruct (on_object ref (method v) g1) as [[g2 t2] [result | e]]; simpl in *;
    [| exists t2; split; [reflexivity | exact Hobj]].
  destruct (tool_reply result) as [out | e]; simpl;
    [| exists t2; rewrite !app_nil_r; split; [reflexivity | exact Hobj]].
  destruct (console_print (stdout_console h) out) as [c [[] | e]]; simpl;
    exists t2; rewrite !app_nil_r; split; first [reflexivity | exact Hobj].
Qed.

(** X22.  The tools create a sandbox on demand, and never terminate one.
    A call of a tool for a registered session makes no lookup and no
    creation; for a session that is not registered it begins with the
    calls of [Sandbox.create], with the lifetime of 600 seconds, and makes
    no other.  No call of a tool asks the platform to terminate a sandbox:
    that is left to [cleanup_sandbox], which for its part looks nothing up,
    creates nothing and spawns nothing, and does nothing at all for a
    session that is not registered. *)
Theorem tools_create_on_demand (id : string) (args : gmap string string) (h : Host) :
  let created := Sandbox_create id 600 (g_world (registry h)) in
  (forall call,
     call = tool_execute_python id args h \/ call = tool_execute_bash id args h ->
     Forall (fun ev => is_terminate ev = false) (trace_of call) /\
     (forall ref, _sandboxes (registry h) !! id = Some ref ->
        Forall (fun ev => runs_only ev = true) (trace_of call)) /\
     (_sandboxes (registry h) !! id = None ->
        exists rest,
          trace_of call = trace_of created ++ rest /\
          Forall (fun ev => is_creation ev = true) (trace_of created) /\
          Forall (fun ev => runs_only ev = true) rest)) /\
  (let release := on_registry (cleanup_sandbox id) h in
   Forall (fun ev => is_creation ev = false /\ is_spawn ev = false) (trace_of release) /\
   (_sandboxes (registry h) !! id = None -> release = (h, [], Ret tt))).
Proof.
  cbv zeta. split.
  - assert (Hgen : forall key method,
              (forall v, preserves (only runs_only) always (method v)) ->
              let call := handler id key method args h in
              Forall (fun ev => is_terminate ev = false) (trace_of call) /\
              (forall ref, _sandboxes (registry h) !! id = Some ref ->
                 Forall (fun ev => runs_only ev = true) (trace_of call)) /\
              (_sandboxes (registry h) !! id = None ->
                 exists rest,
                   trace_of call
                   = trace_of (Sandbox_create id 600 (g_world (registry h))) ++ rest /\
                   Forall (fun ev => is_creation ev = true)
                     (trace_of (Sandbox_create id 600 (g_world (registry h)))) /\
                   Forall (fun ev => runs_only ev = true) rest)).
    { intros key method Hm. cbv zeta.
      destruct (handler_trace id key method args h Hm) as (rest & Htr & Hrest).
      rewrite Htr.
      assert (Hquiet : Forall (fun ev => is_terminate ev = false) rest).
      { revert Hrest. apply List.Forall_impl. intros ev Hev.
        unfold runs_only in Hev. apply andb_true_iff in Hev.
        destruct Hev as [Hev _]. apply negb_true_iff in Hev. exact Hev. }
      pose proof (creation_trace id 600 (g_world (registry h))) as Hcreate.
      destruct (_sandboxes (registry h) !! id) as [ref |] eqn:Hreg.
      - rewrite (get_sandbox_registered _ _ _ Hreg). norm_run. simpl app.
        split; [exact Hquiet |]. split; [intros _ _; exact Hrest | discriminate].
      - assert (Hgot : trace_of (_get_sandbox id (registry h))
                       = trace_of (Sandbox_create id 600 (g_world (registry h)))).
        { rewrite (get_sandbox_new _ _ Hreg). cbv zeta.
          destruct (outcome_of (Sandbox_create id 600 _)); reflexivity. }
        rewrite Hgot. split; [| split; [discriminate |]].
        + apply Forall_app. split; [| exact Hquiet].
          revert Hcreate. apply List.Forall_impl. intros ev Hev.
          destruct ev; simpl in *; first [reflexivity | discriminate Hev].
        + intros _. exists rest. auto. }
    intros call [-> | ->].
    + rewrite tool_execute_python_handler. apply Hgen.
      intros v. apply execute_python_runs_only.
    + rewrite tool_execute_bash_handler. apply Hgen.
      intros v. apply execute_bash_runs_only.
  - split.
    + assert (Hterm : preserves
                        (only (fun ev => negb (is_creation ev) && negb (is_spawn ev)))
                        always (terminate (W := W))).
      { unfold terminate, _stop_python_session. preserves_of runs_leaf. }
      assert (Htrace : Forall (fun ev => negb (is_creation ev) && negb (is_spawn ev) = true)
                         (trace_of (on_registry (cleanup_sandbox id) h))).
      { unfold on_registry, zoom, cleanup_sandbox, bind, get, on_object, registry_del,
          trace_of.
        destruct (_sandboxes (registry h) !! id) as [ref |]; [| constructor].
        destruct (heap (registry h) !! ref) as [obj |]; [| constructor].
        destruct (Hterm {| world := g_world (registry h); self := obj |} tt I)
          as ([] & Hscan & _).
        apply scan_only in Hscan. unfold trace_of in Hscan.
        destruct (terminate _) as [[st tr] [[] | e]]; simpl; rewrite ?app_nil_r;
          exact Hscan. }
      revert Htrace. apply List.Forall_impl. intros ev Hev.
      apply andb_true_iff in Hev. destruct Hev as [H1 H2].
      apply negb_true_iff in H1, H2. auto.
    + intros Hreg. unfold on_registry, zoom.
      rewrite (cleanup_unregistered _ _ Hreg). destruct h as [g c]. reflexivity.
Qed.
End ToolCalls.

(** ** A tool called without its argument, and the sandbox a session keeps *)

Section Arguments.
Context {codec : Codec} {W : Type} {platform : Platform W}
  {formatter : Formatter} {C : Type} {console : Console C}.
#[local] Abbreviation St := (@St W).
#[local] Abbreviation Global := (@Global W).
#[local] Abbreviation Host := (@Host W C).

(** A handler whose argument is absent: [args[key]] is evaluated once the
    sandbox is there. *)
Lemma handler_missing (id key : string) (method : string -> M St ExecutionResult)
    (args : gmap string string) (h : Host) :
  args !! key = None ->
  let got := _get_sandbox id (registry h) in
  handler id key method args h
  = ({| registry := state_of got; stdout_console := stdout_console h |}, trace_of got,
     match outcome_of got with
     | Ret _ => Raise (OtherError ("'" +:+ key +:+ "'"))
     | Raise e => Raise e
     end).
Proof.
  intros Harg. cbv zeta.
  unfold handler, bind, on_registry, zoom, lift_outcome, getitem, state_of, trace_of,
    outcome_of.
  rewrite Harg.
  destruct (_get_sandbox id (registry h)) as [[g1 t1] [ref | e]]; simpl;
    rewrite ?app_nil_r; reflexivity.
Qed.

(** X23.  A tool called without its argument.  The sandbox is fetched
    first: for a session that is not registered it is created and
    registered, and only then does the lookup of the argument raise
    [KeyError].  Nothing is run in the sandbox, no reply is made and
    nothing is printed; the sandbox stays registered for the next call. *)
Theorem tool_missing_argument (id : string) (args : gmap string string) (h : Host) :
  let got := _get_sandbox id (registry h) in
  let left := {| registry := state_of got; stdout_console := stdout_console h |} in
  (args !! "code" = None ->
     tool_execute_python id args h
     = (left, trace_of got,
        match outcome_of got with
        | Ret _ => Raise (OtherError "'code'")
        | Raise e => Raise e
        end)) /\
  (args !! "command" = None ->
     tool_execute_bash id args h
     = (left, trace_of got,
        match outcome_of got with
        | Ret _ => Raise (OtherError "'command'")
        | Raise e => Raise e
        end)) /\
  (forall ref, outcome_of got = Ret ref ->
     _sandboxes (state_of got) !! id = Some ref /\
     (_sandboxes (registry h) !! id = None ->
      exists obj req,
        heap (state_of got) !! ref = Some obj /\ session_id obj = id /\
        _python_proc obj = None /\
        In (EvCreate req (Ret (_sandbox obj))) (trace_of got))).
Proof.
  cbv zeta. split; [| split].
  - intros Harg. rewrite tool_execute_python_handler.
    exact (handler_missing id "code" _ args h Harg).
  - intros Harg. rewrite tool_execute_bash_handler.
    exact (handler_missing id "command" _ args h Harg).
  - intros ref Ho. split; [exact (get_sandbox_registers _ _ _ Ho) |].
    intros Hreg. revert Ho. rewrite (get_sandbox_new _ _ Hreg). cbv zeta.
    pose proof (Sandbox_create_run id 600 (g_world (registry h))) as Hrun.
    cbv zeta in Hrun.
    destruct (outcome_of (Sandbox_create id 600 (g_world (registry h)))) as [obj | e] eqn:Hc;
      norm_run; [| discriminate].
    intros [= <-]. simpl heap. simpl trace_of.
    rewrite Hrun in Hc |- *.
    destruct (snd (app_lookup _ _)) as [app | e]; norm_run; [| discriminate Hc].
    destruct (snd (sandbox_create _ _)) as [sb | e] eqn:Hmade; [| discriminate Hc].
    injection Hc as <-.
    exists (Sandbox_init id sb). eexists.
    split; [apply list_lookup_middle; reflexivity |].
    split; [reflexivity |]. split; [reflexivity |].
    simpl. right. right. left. reflexivity.
Qed.
End Arguments.

(** ** The sandbox of a session *)

Section Sharing.
Context {codec : Codec} {W : Type} {platform : Platform W}
  {formatter : Formatter} {C : Type} {console : Console C}.
#[local] Abbreviation St := (@St W).
#[local] Abbreviation Global := (@Global W).
#[local] Abbreviation Host := (@Host W C).

(** A method that leaves the object its id and its sandbox, and asks the
    platform for nothing outside that sandbox. *)
Definition keeps_sandbox (m : M St ExecutionResult) : Prop :=
  forall st,
    session_id (self (state_of (m st))) = session_id (self st) /\
    _sandbox (self (state_of (m st))) = _sandbox (self st) /\
    Forall (fun ev => in_sandbox (_sandbox (self st)) ev = true) (trace_of (m st)).

Lemma preserved_keeps_sandbox (m : M St ExecutionResult) :
  (forall id sb, preserves (only (in_sandbox sb)) (identity_is id sb) m) ->
  keeps_sandbox m.
Proof.
  intros Hm st.
  destruct (Hm (session_id (self st)) (_sandbox (self st)) st tt (conj eq_refl eq_refl))
    as ([] & Hscan & [Hid Hsb]).
  split; [exact Hid |]. split; [exact Hsb |]. exact (scan_only _ _ _ _ Hscan).
Qed.

Lemma execute_python_keeps_sandbox (code : string) (timeout : Z) :
  keeps_sandbox (execute_python code timeout).
Proof.
  apply preserved_keeps_sandbox. intros id sb. apply execute_python_identity.
Qed.

Lemma execute_bash_keeps_sandbox (command : string) (timeout : Z) :
  keeps_sandbox (execute_bash command timeout).
Proof.
  apply preserved_keeps_sandbox. intros id sb. apply execute_bash_identity.
Qed.

(** The session [id] is registered as [ref], and its object is in the
    sandbox [sb]. *)
Definition session_in (id : string) (ref : nat) (sb : modal_sandbox) (g : Global) : Prop :=
  _sandboxes g !! id = Some ref /\
  exists obj, heap g !! ref = Some obj /\ _sandbox obj = sb.

(** A handler on a registered session: the state it leaves and what it
    asks of the platform. *)
Lemma handler_on_session (id key : string) (method : string -> M St ExecutionResult)
    (args : gmap string string) (h : Host) (ref : nat) (sb : modal_sandbox) :
  (forall v, keeps_sandbox (method v)) ->
  session_in id ref sb (registry h) ->
  session_in id ref sb (registry (state_of (handler id key method args h))) /\
  Forall (fun ev => in_sandbox sb ev = true) (trace_of (handler id key method args h)).
Proof.
  intros Hm (Hreg & obj & Hobj & Hsb).
  destruct (args !! key) as [v |] eqn:Harg.
  - rewrite (handler_registered _ _ _ _ _ _ _ _ Hreg Hobj Harg). cbv zeta.
    destruct (Hm v {| world := g_world (registry h); self := obj |}) as (_ & Hsb' & Htr).
    simpl in Hsb', Htr. rewrite Hsb in Hsb', Htr.
    assert (Hafter : forall c,
              session_in id ref sb
                (registry (host_after h ref
                   (state_of (method v {| world := g_world (registry h); self := obj |})) c))).
    { intros c. unfold host_after, session_in. simpl. split; [exact Hreg |].
      eexists. split; [| exact Hsb'].
      apply list_lookup_insert_eq. apply lookup_lt_Some in Hobj. exact Hobj. }
    destruct (outcome_of (method v _)) as [result | e]; norm_run; [| split; auto].
    destruct (tool_reply result) as [out | e]; norm_run; split; auto.
  - rewrite (handler_missing id key method args h Harg). cbv zeta.
    rewrite (get_sandbox_registered _ _ _ Hreg). norm_run.
    split; [| constructor]. split; [exact Hreg |]. exists obj. auto.
Qed.

(** A call that does not release the session [id] leaves it in its
    sandbox. *)
Lemma serve_keeps_session (c : host_call) (h : Host) (id : string) (ref : nat)
    (sb : modal_sandbox) :
  registry_inv (registry h) -> c <> Cleanup id ->
  session_in id ref sb (registry h) ->
  session_in id ref sb (registry (fst (serve c h))).
Proof.
  intros Hinv Hc Hin.
  destruct (decide (target c = id)) as [Ht | Ht].
  - destruct c as [id0 args | id0 args | id0]; simpl in Ht; subst id0; simpl.
    + rewrite tool_execute_python_handler.
      apply handler_on_session; [| exact Hin].
      intros v. apply execute_python_keeps_sandbox.
    + rewrite tool_execute_bash_handler.
      apply handler_on_session; [| exact Hin].
      intros v. apply execute_bash_keeps_sandbox.
    + contradiction Hc. reflexivity.
  - destruct (serve_inv c h Hinv) as [_ Hsame].
    destruct (Hsame id (fun H => Ht (eq_sym H))) as [Hreg' Hheap'].
    destruct Hin as (Hreg & obj & Hobj & Hsb).
    split; [rewrite Hreg'; exact Hreg |].
    exists obj. split; [rewrite (Hheap' ref Hreg); exact Hobj | exact Hsb].
Qed.

(** X24.  A session keeps its sandbox.  Through any calls of the tools,
    for this session or for others, and any [cleanup_sandbox] of other
    sessions, a registered session stays registered, with the same object
    in the same sandbox; and whatever a tool of the session then asks of
    the platform is asked in that sandbox: the processes of both tools
    are spawned there, and nothing is looked up, created or terminated.
    What one tool leaves in the sandbox is there for the other. *)
Theorem session_keeps_sandbox (calls : list host_call) (h : Host) (id : string)
    (ref : nat) (obj : Sandbox) :
  registry_inv (registry h) ->
  _sandboxes (registry h) !! id = Some ref -> heap (registry h) !! ref = Some obj ->
  Forall (fun c => c <> Cleanup id) calls ->
  let h' := fst (serve_all calls h) in
  (exists obj',
     _sandboxes (registry h') !! id = Some ref /\
     heap (registry h') !! ref = Some obj' /\ _sandbox obj' = _sandbox obj) /\
  forall args call,
    call = tool_execute_python id args h' \/ call = tool_execute_bash id args h' ->
    Forall (fun ev => in_sandbox (_sandbox obj) ev = true) (trace_of call) /\
    Forall (fun ev => is_terminate ev = false) (trace_of call).
Proof.
  intros Hinv Hreg Hobj Hcalls. cbv zeta.
  assert (Hgen : forall h0 : Host,
            registry_inv (registry h0) ->
            session_in id ref (_sandbox obj) (registry h0) ->
            registry_inv (registry (fst (serve_all calls h0))) /\
            session_in id ref (_sandbox obj) (registry (fst (serve_all calls h0)))).
  { induction Hcalls as [| c rest Hc _ IH]; intros h0 Hinv0 Hin0; [split; assumption |].
    simpl. destruct (serve c h0) as [h1 t1] eqn:Hserve.
    destruct (serve_all rest h1) as [h2 t2] eqn:Hrest. simpl.
    pose proof (serve_inv c h0 Hinv0) as [Hinv1 _].
    pose proof (serve_keeps_session c h0 id ref _ Hinv0 Hc Hin0) as Hin1.
    rewrite Hserve in Hinv1, Hin1. simpl in Hinv1, Hin1.
    specialize (IH h1 Hinv1 Hin1). rewrite Hrest in IH. exact IH. }
  destruct (Hgen h Hinv (conj Hreg (ex_intro _ obj (conj Hobj eq_refl)))) as [_ Hin].
  split.
  - destruct Hin as (Hreg' & obj' & Hobj' & Hsb'). exists obj'. auto.
  - intros args call Hcall.
    assert (Htr : Forall (fun ev => in_sandbox (_sandbox obj) ev = true) (trace_of call)).
    { destruct Hcall as [-> | ->].
      - rewrite tool_execute_python_handler.
        apply (handler_on_session id "code" _ args _ ref (_sandbox obj)); [| exact Hin].
        intros v. apply execute_python_keeps_sandbox.
      - rewrite tool_execute_bash_handler.
        apply (handler_on_session id "command" _ args _ ref (_sandbox obj)); [| exact Hin].
        intros v. apply execute_bash_keeps_sandbox. }
    split; [exact Htr |].
    destruct Hin as (Hreg' & _).
    assert (Hquiet : forall key method,
              (forall v, preserves (only runs_only) always (method v)) ->
              Forall (fun ev => is_terminate ev = false)
                (trace_of (handler id key method args (fst (serve_all calls h))))).
    { intros key method Hm.
      destruct (handler_trace id key method args (fst (serve_all calls h)) Hm)
        as (rest & -> & Hrest).
      rewrite (get_sandbox_registered _ _ _ Hreg'). norm_run. simpl app.
      revert Hrest. apply List.Forall_impl. intros ev Hev.
      apply andb_true_iff in Hev. destruct Hev as [Hev _].
      apply negb_true_iff in Hev. exact Hev. }
    destruct Hcall as [-> | ->].
    + rewrite tool_execute_python_handler. apply Hquiet.
      intros v. apply execute_python_runs_only.
    + rewrite tool_execute_bash_handler. apply Hquiet.
      intros v. apply execute_bash_runs_only.
Qed.
End Sharing.

(** * Concrete runs of the tools and of the two ends together *)

(** A console that keeps what is printed, and a stand-in for [repr]: right
    on [None], the booleans and the integers, JSON text for the rest. *)
Module Transcript.
#[export] Instance transcript : Console (list json) := {
  console_print c v := (c ++ [v], Ret tt)
}.

#[export] Instance scalar_formatter : Formatter := {
  py_repr v :=
    match v with
    | JNull => "None"
    | JBool true => "True"
    | JBool false => "False"
    | JNum z => pretty z
    | _ => MiniCodec.mini_dumps v
    end
}.

(** A host with one registered session, whose object is [self st], on the
    platform of [st]. *)
Definition host_of (id : string) (st : @St script_world) : @Host script_world (list json) :=
  {| registry := {| g_world := world st; heap := [self st]; _sandboxes := {[ id := 0%nat ]} |};
     stdout_console := [] |}.

(** A host with no session yet. *)
Definition new_host (w : script_world) : @Host script_world (list json) :=
  {| registry := {| g_world := w; heap := []; _sandboxes := ∅ |}; stdout_console := [] |}.

(** A session answers a request for [print(1)]. *)
Definition prints_one : @St script_world :=
  ready [ RDone; RDone; response_line true ("1" +:+ nl) "" ].
End Transcript.

Import Transcript.

(** The bash tool on a session that runs [echo hi]. *)
Lemma bash_tool_replies_hi :
  let call := tool_execute_bash "agent-1" {[ "command" := "echo hi" ]}
                (host_of "agent-1" echo_hi) in
  outcome_of call = Ret (text_reply (JStr ("hi" +:+ nl)) false) /\
  stdout_console (state_of call) = [text_reply (JStr ("hi" +:+ nl)) false] /\
  heap (registry (state_of call)) = [self echo_hi].
Proof.
  cbv zeta.
  pose proof (tool_execute_bash_replies "agent-1" {[ "command" := "echo hi" ]}
                (host_of "agent-1" echo_hi) 0%nat (self echo_hi) "echo hi")
    as Hthm.
  cbv zeta in Hthm.
  destruct (Hthm ltac:(vm_compute; reflexivity) eq_refl ltac:(vm_compute; reflexivity))
    as (result & text & Hrun & Hreply & _ & _ & _ & Hreg & Hcon & Hout).
  vm_compute in Hrun. injection Hrun as <-.
  vm_compute in Hreply. injection Hreply as <-.
  rewrite Hout, Hcon, Hreg. repeat split.
Defined.

(** The python tool on a session that holds a process: one exchange, and
    the session is left as it was. *)
Lemma python_tool_reuses_process :
  let h := host_of "agent-1" prints_one in
  let call := tool_execute_python "agent-1" {[ "code" := print_code ]} h in
  outcome_of call = Ret (text_reply (JStr ("1" +:+ nl)) false) /\
  Forall (fun ev => exchange_event ev = true) (trace_of call) /\
  heap (registry (state_of call)) = heap (registry h) /\
  _sandboxes (registry (state_of call)) = _sandboxes (registry h).
Proof.
  cbv zeta.
  pose proof (tool_execute_python_reuses_session "agent-1" {[ "code" := print_code ]}
                (host_of "agent-1" prints_one) 0%nat (self prints_one) (process 1)
                print_code
                {| success := true; stdout_text := JStr ("1" +:+ nl);
                   stderr_text := JStr ""; error := None |})
    as Hthm.
  cbv zeta in Hthm.
  destruct (Hthm ltac:(vm_compute; reflexivity) eq_refl eq_refl
              ltac:(vm_compute; reflexivity) ltac:(vm_compute; reflexivity))
    as (_ & Hev & Hreg & Hout & _).
  split; [apply (Hout (text_reply (JStr ("1" +:+ nl)) false)); reflexivity |].
  split; [exact Hev |]. rewrite Hreg. split; reflexivity.
Defined.

(** Two sessions side by side.  The first runs a command, the second runs
    a snippet and so holds a resident process; then the first runs another
    command and is released.  The second is not named by these last calls:
    it keeps its registration and its object, process included. *)
Definition two_sessions : script_world :=
  script [ RApp {| app_name := APP_NAME |}; RVolume {| volume_name := VOLUME_NAME |};
           RSandbox {| object_id := "sb-1" |};
           RProc (process 7); line "a.txt"; RData (DBytes []); RDone;
           RApp {| app_name := APP_NAME |}; RVolume {| volume_name := VOLUME_NAME |};
           RSandbox {| object_id := "sb-2" |};
           RProc (process 1); RDone; RDone; response_line true "" "";
           RDone; RDone; response_line true ("1" +:+ nl) "";
           RProc (process 8); line "a.txt"; RData (DBytes []); RDone;
           RDone ].

Lemma two_sessions_apart :
  let h := fst (serve_all [ ToolBash "agent-1" {[ "command" := "ls" ]};
                            ToolPython "agent-2" {[ "code" := print_code ]} ]
                  (new_host two_sessions)) in
  let calls := [ ToolBash "agent-1" {[ "command" := "ls" ]}; Cleanup "agent-1" ] in
  let h' := fst (serve_all calls h) in
  let second := {| session_id := "agent-2"; _sandbox := {| object_id := "sb-2" |};
                   _python_proc := Some (process 1) |} in
  _sandboxes (registry h) !! "agent-1" = Some 0%nat /\
  _sandboxes (registry h) !! "agent-2" = Some 1%nat /\
  heap (registry h) !! 1%nat = Some second /\
  registry_inv (registry h') /\
  _sandboxes (registry h') !! "agent-1" = None /\
  _sandboxes (registry h') !! "agent-2" = Some 1%nat /\
  heap (registry h') !! 1%nat = Some second.
Proof.
  cbv zeta.
  set (h := fst (serve_all [ ToolBash "agent-1" {[ "command" := "ls" ]};
                             ToolPython "agent-2" {[ "code" := print_code ]} ]
                   (new_host two_sessions))).
  assert (Hone : _sandboxes (registry h) !! "agent-1" = Some 0%nat)
    by (vm_compute; reflexivity).
  assert (Htwo : _sandboxes (registry h) !! "agent-2" = Some 1%nat)
    by (vm_compute; reflexivity).
  assert (Hobj : heap (registry h) !! 1%nat
                 = Some {| session_id := "agent-2"; _sandbox := {| object_id := "sb-2" |};
                           _python_proc := Some (process 1) |})
    by (vm_compute; reflexivity).
  assert (Hinv : registry_inv (registry h)).
  { pose proof (host_calls_keep_sessions_apart
                  [ ToolBash "agent-1" {[ "command" := "ls" ]};
                    ToolPython "agent-2" {[ "code" := print_code ]} ]
                  (new_host two_sessions) (empty_registry_inv _)) as Hsetup.
    cbv zeta in Hsetup. exact (proj1 Hsetup). }
  pose proof (host_calls_keep_sessions_apart
                [ ToolBash "agent-1" {[ "command" := "ls" ]}; Cleanup "agent-1" ]
                h Hinv) as Hthm.
  cbv zeta in Hthm. destruct Hthm as [Hinv' Hframe].
  destruct (Hframe "agent-2") as [Hreg Hheap].
  { repeat constructor; simpl; discriminate. }
  split; [exact Hone |]. split; [exact Htwo |]. split; [exact Hobj |].
  split; [exact Hinv' |].
  split; [vm_compute; reflexivity |].
  split; [rewrite Hreg; exact Htwo |].
  rewrite (Hheap 1%nat Htwo). exact Hobj.
Defined.

(** An assignment, then a snippet that reads it: both run in the one
    namespace of the one process, in order, after the initialization. *)
Lemma assignment_then_use :
  let st := {| world := idle (NS := list json); self := Sandbox_init "agent-1" the_sandbox |} in
  let call1 := execute_python (platform := loopback) "x = 42" DEFAULT_TIMEOUT st in
  let call2 := execute_python (platform := loopback) "print(x)" DEFAULT_TIMEOUT
                 (state_of call1) in
  outcome_of call1
  = Ret {| success := true; stdout_text := JStr "x = 42"; stderr_text := JStr "";
           error := None |} /\
  outcome_of call2
  = Ret {| success := true; stdout_text := JStr "print(x)"; stderr_text := JStr "";
           error := None |} /\
  namespace (world (state_of call2))
  = [JStr _PYTHON_SESSION_INIT; JStr "x = 42"; JStr "print(x)"] /\
  spawned (world (state_of call2)) = 1%nat.
Proof.
  cbv zeta.
  pose proof (state_persists_across_calls (NS := list json) "agent-1" the_sandbox
                "x = 42" "print(x)" DEFAULT_TIMEOUT DEFAULT_TIMEOUT
                [JStr _PYTHON_SESSION_INIT]
                [JStr _PYTHON_SESSION_INIT; JStr "x = 42"]
                [JStr _PYTHON_SESSION_INIT; JStr "x = 42"; JStr "print(x)"]
                (response_record true _PYTHON_SESSION_INIT "")
                (response_record true "x = 42" "")
                (response_record true "print(x)" ""))
    as Hthm.
  cbv zeta in Hthm.
  destruct (Hthm ltac:(split; vm_compute; reflexivity) ltac:(split; vm_compute; reflexivity)
              ltac:(split; vm_compute; reflexivity) ltac:(vm_compute; reflexivity)
              ltac:(vm_compute; reflexivity) ltac:(vm_compute; reflexivity)
              ltac:(split; vm_compute; reflexivity) ltac:(split; vm_compute; reflexivity)
              ltac:(split; vm_compute; reflexivity))
    as (Ho1 & _ & Ho2 & Hs2 & _).
  split; [exact Ho1 |]. split; [exact Ho2 |]. rewrite Hs2. split; reflexivity.
Defined.


Lemma host_of_inv (id : string) (st : @St script_world) :
  session_id (self st) = id -> registry_inv (registry (host_of id st)).
Proof.
  intros Hid. unfold registry_inv, registry_wf, host_of. simpl.
  split; [| split].
  - intros id' ref H. apply lookup_singleton_Some in H. destruct H as [_ <-]. lia.
  - intros id1 id2 ref H1 H2.
    apply lookup_singleton_Some in H1, H2. destruct H1 as [<- _], H2 as [<- _]. reflexivity.
  - intros id' ref obj H Hobj.
    apply lookup_singleton_Some in H. destruct H as [<- <-].
    simpl in Hobj. injection Hobj as <-. exact Hid.
Qed.

(** A session is used and another is released: the first is still in its
    sandbox, and a command for it runs there. *)
Lemma command_after_code_same_sandbox :
  let calls := [ ToolPython "agent-1" {[ "code" := print_code ]}; Cleanup "agent-2" ] in
  let h' := fst (serve_all calls (host_of "agent-1" prints_one)) in
  _sandboxes (registry h') !! "agent-1" = Some 0%nat /\
  Forall (fun ev => in_sandbox the_sandbox ev = true)
    (trace_of (tool_execute_bash "agent-1" {[ "command" := "ls" ]} h')).
Proof.
  cbv zeta.
  pose proof (session_keeps_sandbox
                [ ToolPython "agent-1" {[ "code" := print_code ]}; Cleanup "agent-2" ]
                (host_of "agent-1" prints_one) "agent-1" 0%nat (self prints_one)
                (host_of_inv "agent-1" prints_one eq_refl)
                ltac:(vm_compute; reflexivity) eq_refl
                ltac:(repeat constructor; discriminate))
    as Hthm.
  cbv zeta in Hthm. destruct Hthm as [(obj' & Hreg & _) Hcalls].
  split; [exact Hreg |].
  exact (proj1 (Hcalls {[ "command" := "ls" ]} _ (or_intror eq_refl))).
Defined.

(** A tool called with the wrong argument name on a new session. *)
Lemma missing_code_creates_sandbox :
  let call := tool_execute_python "agent-1" {[ "source" := print_code ]}
                (new_host creates_then_terminates) in
  outcome_of call = Raise (OtherError "'code'") /\
  _sandboxes (registry (state_of call)) !! "agent-1" = Some 0%nat /\
  stdout_console (state_of call) = [].
Proof.
  cbv zeta.
  pose proof (tool_missing_argument "agent-1" {[ "source" := print_code ]}
                (new_host creates_then_terminates)) as Hthm.
  cbv zeta in Hthm. destruct Hthm as (Hpy & _ & _).
  rewrite (Hpy ltac:(vm_compute; reflexivity)). norm_run.
  split; [vm_compute; reflexivity |]. split; [vm_compute; reflexivity | reflexivity].
Defined.
